(** * Deep_Voice_New_Agent: the capture, segmentation and turn-taking core

    A shallow embedding of [vad_utils.py], [audio_listener.py],
    [conversation_manager.py], [stt1.py], [llm.py], [tts1.py] and the
    upload handler of [main.py], followed by the properties proved about
    it.

    Conventions of the embedding:
    - a Python [bytes]/[bytearray] is a [list byte];
    - a Python [int] is a [Z]; [int(x)] on a float truncates towards
      zero, and raises for an infinity or a NaN;
    - a Python [float] that the code computes with (the trigger ratio,
      the timestamps of the frames, the quotients that give the frame
      size) is an IEEE 754 double, a [spec_float] of the Standard
      Library with its operations rounded to nearest, ties to even; a
      reading of the wall clock, which the code only subtracts and
      compares, is an exact rational [Q];
    - a Python [str] is a [string] whose characters are the code points
      below 256;
    - a generator is the list of the values it yields;
    - a collaborator outside the repository (the WebRTC classifier, the
      OpenAI and Smallest.ai clients, the file system) is a function or
      an outcome supplied by the caller of the model. *)

From Stdlib Require Import ZArith QArith Strings.Ascii Strings.String Strings.Byte.
From Stdlib Require Import Floats.SpecFloat.
From stdpp Require Import base tactics option list gmap.

#[local] Set Warnings "-clear-no-such-hyp".

Local Open Scope Z_scope.

(** ** Python values used by the sources *)

Module Py.

Definition byte_string := list byte.

(** Exceptions a modelled call can end in. *)
Inductive exn :=
| ZeroDivisionError
| ValueError
| NamedError (name : string).

(** [Returned v]: the call returns [v]; [Raised e]: it propagates the
    [Exception] [e]. A call into a collaborator ends in one or the
    other. *)
Inductive result (A : Type) :=
| Returned (v : A)
| Raised (e : exn).
Arguments Returned {A} v.
Arguments Raised {A} e.

Definition len {A} (l : list A) : Z := Z.of_nat (length l).

(** Where a slice bound [k] lands in a list of length [n]: a negative
    bound counts from the end, and every bound is clamped to [0..n]. *)
Definition slice_index (n k : Z) : Z :=
  if k <? 0 then Z.max 0 (n + k) else Z.min k n.

(** [l[i:j]]. *)
Definition slice {A} (i j : Z) (l : list A) : list A :=
  let a := slice_index (len l) i in
  let b := slice_index (len l) j in
  take (Z.to_nat (b - a)) (drop (Z.to_nat a) l).

(** [l[i:]]. *)
Definition slice_from {A} (i : Z) (l : list A) : list A :=
  drop (Z.to_nat (slice_index (len l) i)) l.

(** [b''.join(parts)]. *)
Definition join (parts : list byte_string) : byte_string := concat parts.

(** [collections.deque(maxlen=n)]. *)
Record deque (A : Type) := mkDeque {
  maxlen : Z;
  items : list A
}.
Arguments mkDeque {A} maxlen items.
Arguments maxlen {A} d.
Arguments items {A} d.

(** [d.append(x)]: the new entry goes to the right, and what exceeds
    the capacity falls off the left. *)
Definition deque_append {A} (x : A) (d : deque A) : deque A :=
  let l := items d ++ [x] in
  mkDeque (maxlen d) (drop (length l - Z.to_nat (maxlen d)) l).

(** [d.clear()]. *)
Definition deque_clear {A} (d : deque A) : deque A :=
  mkDeque (maxlen d) [].

(** [sum(1 for x in l if p(x))]. *)
Fixpoint count_if {A} (p : A -> bool) (l : list A) : Z :=
  match l with
  | [] => 0
  | x :: l' => (if p x then 1 else 0) + count_if p l'
  end.

(** [a > b] on rationals. *)
Definition Qgt_bool (a b : Q) : bool := negb (Qle_bool a b).

(** *** Floats

    A [float] is an IEEE 754 double: 53 bits of precision, and the
    operations round to nearest, ties to even. *)
Definition float := spec_float.
Definition prec : Z := 53.
Definition emax : Z := 1024.

Definition OverflowError : exn := NamedError "OverflowError".

(** [0.0]. *)
Definition float_zero : float := S754_zero false.

(** [x == 0.0]. *)
Definition is_zero (x : float) : bool :=
  match x with
  | S754_zero _ => true
  | _ => false
  end.

(** [float(n)] for an [int], also where an [int] meets a [float] in an
    operation: the nearest float, and [OverflowError] for an [int]
    beyond the range of floats. *)
Definition float_of_int (n : Z) : result float :=
  match binary_normalize prec emax n 0 false with
  | S754_infinity _ => Raised OverflowError
  | x => Returned x
  end.

(** [x * y] and [x + y] on floats. *)
Definition float_mul (x y : float) : float := SFmul prec emax x y.
Definition float_add (x y : float) : float := SFadd prec emax x y.

(** [x / y] on floats. *)
Definition float_truediv (x y : float) : result float :=
  if is_zero y then Raised ZeroDivisionError
  else Returned (SFdiv prec emax x y).

(** [a / b] on [int]s: the float nearest to the exact quotient, and
    [OverflowError] for a quotient beyond the range of floats. *)
Definition int_truediv (a b : Z) : result float :=
  if b =? 0 then Raised ZeroDivisionError
  else
    let s := xorb (a <? 0) (b <? 0) in
    if a =? 0 then Returned (S754_zero s)
    else
      let '(q, e, l) :=
        SFdiv_core_binary prec emax (Z.abs a) 0 (Z.abs b) 0 in
      match binary_round_aux prec emax s q e l with
      | S754_infinity _ => Raised OverflowError
      | x => Returned x
      end.

(** [int(x)] for a float: truncation towards zero, [OverflowError] for
    an infinity and [ValueError] for a NaN. *)
Definition int_of_float (x : float) : result Z :=
  match x with
  | S754_zero _ => Returned 0
  | S754_finite s m e =>
      let a := match e with
               | Zneg p => Z.shiftr (Zpos m) (Zpos p)
               | _ => Z.shiftl (Zpos m) e
               end in
      Returned (if s then - a else a)
  | S754_infinity _ => Raised OverflowError
  | S754_nan => Raised ValueError
  end.

(** The number a finite float stands for. *)
Definition float_value (x : float) : Q :=
  match x with
  | S754_finite s m e =>
      let v := match e with
               | Zneg p => Zpos m # 2 ^ p
               | _ => inject_Z (Z.shiftl (Zpos m) e)
               end in
      if s then Qopp v else v
  | _ => 0%Q
  end.

(** [n > x] for an [int] and a [float]: the numbers themselves are
    compared, and nothing is above an infinity or compares with a
    NaN. *)
Definition int_gt_float (n : Z) (x : float) : bool :=
  match x with
  | S754_nan => false
  | S754_infinity s => s
  | _ => Qgt_bool (inject_Z n) (float_value x)
  end.

(** [any(window)]. *)
Definition any (l : list bool) : bool := existsb id l.

Global Instance result_ret : MRet result := fun A v => Returned v.
Global Instance result_bind : MBind result := fun A B f m =>
  match m with
  | Returned v => f v
  | Raised e => Raised e
  end.
Global Instance result_fmap : FMap result := fun A B f m =>
  match m with
  | Returned v => Returned (f v)
  | Raised e => Raised e
  end.

(** [try: body / except Exception: handler]. *)
Definition try_except {A} (body : result A) (handler : exn -> result A)
    : result A :=
  match body with
  | Returned v => Returned v
  | Raised e => handler e
  end.

(** [c.isspace()] for a code point below 256. *)
Definition isspace (c : ascii) : bool :=
  let n := N_of_ascii c in
  ((9 <=? n) && (n <=? 13) || (28 <=? n) && (n <=? 32)
   || (n =? 133) || (n =? 160))%N.

(** [c.lower()] for a code point below 256. *)
Definition lower_char (c : ascii) : ascii :=
  let n := N_of_ascii c in
  if ((65 <=? n) && (n <=? 90)
      || (192 <=? n) && (n <=? 222) && negb (n =? 215))%N
  then ascii_of_N (n + 32) else c.

(** [s.lower()]. *)
Fixpoint lower (s : string) : string :=
  match s with
  | EmptyString => EmptyString
  | String c s' => String (lower_char c) (lower s')
  end.

Fixpoint lstrip (s : string) : string :=
  match s with
  | EmptyString => EmptyString
  | String c s' => if isspace c then lstrip s' else s
  end.

Fixpoint rstrip (s : string) : string :=
  match s with
  | EmptyString => EmptyString
  | String c s' =>
      let r := rstrip s' in
      if isspace c && String.eqb r EmptyString then EmptyString
      else String c r
  end.

(** [s.strip()]. *)
Definition strip (s : string) : string := rstrip (lstrip s).

(** [kw in s]. *)
Fixpoint contains (kw s : string) : bool :=
  if String.prefix kw s then true
  else match s with
       | EmptyString => false
       | String _ s' => contains kw s'
       end.

(** [not s] for a string: true for the empty string only. *)
Definition is_empty (s : string) : bool := String.eqb s EmptyString.

End Py.

(** ** vad_utils.py *)

Module VadUtils.
Import Py.

(** [class Frame]. *)
Record Frame := mkFrame {
  bytes : byte_string;
  timestamp : float;
  duration : float
}.

(** [class VADAudio]; [vad] stands for [webrtcvad.Vad(aggressiveness)]
    with the sample rate already applied. *)
Record VADAudio := mkVADAudio {
  vad : byte_string -> bool;
  sample_rate : Z;
  frame_duration : Z;
  frame_size : Z;
  padding_ms : Z;
  num_padding_frames : Z;
  ring_buffer : deque (Frame * bool)
}.

(** [VADAudio.__init__]. [Vad] stands for [webrtcvad.Vad]: what it
    returns for a mode is the classifier of the record, and it may
    raise. The two quotients go through floats; [300 / frame_duration]
    raises for a zero duration, and [deque(maxlen=...)] for a negative
    capacity. *)
Definition VADAudio_init (Vad : Z -> result (byte_string -> bool))
    (sample_rate frame_duration aggressiveness : Z) : result VADAudio :=
  vad ← Vad aggressiveness;
  samples ← int_truediv (sample_rate * frame_duration) 1000;
  samples ← int_of_float samples;
  let frame_size := samples * 2 in
  let padding_ms := 300 in
  frames ← int_truediv padding_ms frame_duration;
  num_padding_frames ← int_of_float frames;
  if num_padding_frames <? 0 then Raised ValueError
  else Returned (mkVADAudio vad sample_rate frame_duration
                   frame_size padding_ms num_padding_frames
                   (mkDeque num_padding_frames [])).

Definition is_speech (self : VADAudio) (audio_chunk : byte_string) : bool :=
  vad self audio_chunk.

(** The [while] loop of [frame_generator]; [fuel] bounds the number of
    iterations, and [None] says the bound was reached. *)
Fixpoint frame_generator_loop (fuel : nat) (n : Z) (dur : float)
    (audio : byte_string) (offset : Z) (ts : float) : option (list Frame) :=
  match fuel with
  | O => None
  | S fuel' =>
      if offset + n <=? len audio then
        rest ← frame_generator_loop fuel' n dur audio (offset + n)
                 (float_add ts dur);
        Some (mkFrame (slice offset (offset + n) audio) ts dur :: rest)
      else Some []
  end.

(** [duration = float(n) / (2 * self.sample_rate)], line 41: it raises
    for a zero sample rate, and for a frame size or a sample rate
    beyond the range of floats. *)
Definition frame_seconds (self : VADAudio) : result float :=
  n ← float_of_int (frame_size self);
  d ← float_of_int (2 * sample_rate self);
  float_truediv n d.

(** [VADAudio.frame_generator], run for at most [fuel] iterations. *)
Definition frame_generator_fuel (fuel : nat) (self : VADAudio)
    (audio : byte_string) : option (result (list Frame)) :=
  match frame_seconds self with
  | Raised e => Some (Raised e)
  | Returned dur =>
      Returned <$> frame_generator_loop fuel (frame_size self) dur audio
                     0 float_zero
  end.

(** One iteration more than the input has bytes is enough whenever the
    loop advances. *)
Definition frame_generator (self : VADAudio) (audio : byte_string)
    : option (result (list Frame)) :=
  frame_generator_fuel (S (length audio)) self audio.

(** The local variables of [vad_collector] that live across
    iterations, with the ring buffer of [self]. *)
Record collector := mkCollector {
  triggered : bool;
  voiced_frames : list Frame;
  ring : deque (Frame * bool)
}.

(** The float [0.8], and the test of line 68 as Python evaluates it:
    the product is that of two floats. *)
Definition eight_tenths : float := S754_finite false 7205759403792794 (-53).

Definition start_test (num_voiced_frames maxlen : Z) : result bool :=
  m ← float_of_int maxlen;
  Returned (int_gt_float num_voiced_frames (float_mul eight_tenths m)).

(** The body of [for frame in frames]: the next state and what the
    iteration yields. The test of line 68 is written with the product
    itself, eight tenths of the capacity: [start_test] gives the same
    for every capacity from 0 to 300, the padding window being 300 ms
    and a frame a whole number of them. *)
Definition vad_collector_body (self : VADAudio) (num_voiced : Z)
    (st : collector) (frame : Frame) : collector * list byte_string :=
  let speech := is_speech self (bytes frame) in
  if negb (triggered st) then
    let ring1 := deque_append (frame, speech) (ring st) in
    let num_voiced_frames := count_if snd (items ring1) in
    if Qgt_bool (inject_Z num_voiced_frames)
                ((8 # 10) * inject_Z (maxlen ring1)) then
      (mkCollector true (voiced_frames st ++ map fst (items ring1))
                   (deque_clear ring1), [])
    else (mkCollector false (voiced_frames st) ring1, [])
  else
    let voiced1 := voiced_frames st ++ [frame] in
    let ring1 := deque_append (frame, speech) (ring st) in
    let num_unvoiced := count_if (fun p => negb (snd p)) (items ring1) in
    if num_unvoiced >? num_voiced then
      (mkCollector false [] (deque_clear ring1), [join (map bytes voiced1)])
    else (mkCollector true voiced1 ring1, []).

Fixpoint vad_collector_loop (self : VADAudio) (num_voiced : Z)
    (st : collector) (frames : list Frame) : collector * list byte_string :=
  match frames with
  | [] => (st, [])
  | frame :: frames' =>
      let '(st1, out1) := vad_collector_body self num_voiced st frame in
      let '(st2, out2) := vad_collector_loop self num_voiced st1 frames' in
      (st2, out1 ++ out2)
  end.

(** [num_voiced = int(self.num_padding_frames * ratio)], line 60: the
    product is that of two floats, and [int] raises when it is an
    infinity or a NaN. *)
Definition stop_threshold (num_padding_frames : Z) (ratio : float)
    : result Z :=
  n ← float_of_int num_padding_frames;
  int_of_float (float_mul n ratio).

(** [VADAudio.vad_collector]: the segments it yields, and [self] with
    the ring buffer the call leaves behind; or what line 60 raises. *)
Definition vad_collector (self : VADAudio) (frames : list Frame)
    (ratio : float) : result (list byte_string * VADAudio) :=
  num_voiced ← stop_threshold (num_padding_frames self) ratio;
  let '(st, out) :=
    vad_collector_loop self num_voiced
      (mkCollector false [] (ring_buffer self)) frames in
  let last := match voiced_frames st with
              | [] => []
              | _ :: _ => [join (map bytes (voiced_frames st))]
              end in
  Returned (out ++ last,
            mkVADAudio (vad self) (sample_rate self) (frame_duration self)
              (frame_size self) (padding_ms self) (num_padding_frames self)
              (ring st)).

End VadUtils.

(** ** audio_listener.py *)

Module AudioListener.
Import Py.

(** Thread identifiers, and what the process knows about its threads:
    the identifier the next [Thread(...)] gets and the threads that were
    started and have not finished. *)
Definition tid := nat.

Record runtime := mkRuntime {
  next_tid : tid;
  alive : gset tid
}.

(** [t = threading.Thread(...); t.start()]. *)
Definition thread_start (rt : runtime) : tid * runtime :=
  (next_tid rt, mkRuntime (S (next_tid rt)) ({[next_tid rt]} ∪ alive rt)).

(** [class AudioListener]; [audio_queue] has its oldest block first and
    [speech_detected] is the state of the [threading.Event]. *)
Record AudioListener := mkAudioListener {
  sample_rate : Z;
  frame_duration : Z;
  bytes_per_sample : Z;
  frame_size : Z;
  vad : VadUtils.VADAudio;
  audio_queue : list byte_string;
  listening : bool;
  buffer : byte_string;
  thread : option tid;
  speech_detected : bool;
  MAX_BUFFER_LEN : Z
}.

(** [AudioListener.__init__]. [classifier] is what [webrtcvad.Vad(2)]
    returns: the segmenter is made with the default mode. *)
Definition AudioListener_init (classifier : byte_string -> bool)
    (sample_rate frame_duration : Z) : result AudioListener :=
  let bytes_per_sample := 2 in
  samples ← int_truediv (sample_rate * frame_duration) 1000;
  samples ← int_of_float samples;
  let frame_size := samples * bytes_per_sample in
  vad ← VadUtils.VADAudio_init (fun _ => Returned classifier)
          sample_rate frame_duration 2;
  Returned (mkAudioListener sample_rate frame_duration bytes_per_sample
              frame_size vad [] false [] None false (frame_size * 100)).

Definition set_buffer (self : AudioListener) (b : byte_string) : AudioListener :=
  mkAudioListener (sample_rate self) (frame_duration self)
    (bytes_per_sample self) (frame_size self) (vad self) (audio_queue self)
    (listening self) b (thread self) (speech_detected self)
    (MAX_BUFFER_LEN self).

Definition set_audio_queue (self : AudioListener) (q : list byte_string)
    : AudioListener :=
  mkAudioListener (sample_rate self) (frame_duration self)
    (bytes_per_sample self) (frame_size self) (vad self) q
    (listening self) (buffer self) (thread self) (speech_detected self)
    (MAX_BUFFER_LEN self).

Definition set_speech_detected (self : AudioListener) (b : bool)
    : AudioListener :=
  mkAudioListener (sample_rate self) (frame_duration self)
    (bytes_per_sample self) (frame_size self) (vad self) (audio_queue self)
    (listening self) (buffer self) (thread self) b (MAX_BUFFER_LEN self).

Definition set_listening (self : AudioListener) (b : bool) : AudioListener :=
  mkAudioListener (sample_rate self) (frame_duration self)
    (bytes_per_sample self) (frame_size self) (vad self) (audio_queue self)
    b (buffer self) (thread self) (speech_detected self)
    (MAX_BUFFER_LEN self).

Definition set_thread (self : AudioListener) (t : option tid) : AudioListener :=
  mkAudioListener (sample_rate self) (frame_duration self)
    (bytes_per_sample self) (frame_size self) (vad self) (audio_queue self)
    (listening self) (buffer self) t (speech_detected self)
    (MAX_BUFFER_LEN self).

(** [AudioListener._callback], with [audio_bytes = indata.tobytes()]. *)
Definition _callback (self : AudioListener) (audio_bytes : byte_string)
    : AudioListener :=
  let self := set_audio_queue self (audio_queue self ++ [audio_bytes]) in
  let self := set_buffer self (buffer self ++ audio_bytes) in
  let self :=
    if len (buffer self) >? MAX_BUFFER_LEN self
    then set_buffer self (slice_from (- MAX_BUFFER_LEN self) (buffer self))
    else self in
  if len audio_bytes >=? frame_size self then
    let chunk := slice_from (- frame_size self) audio_bytes in
    if VadUtils.is_speech (vad self) chunk
    then set_speech_detected self true
    else set_speech_detected self false
  else self.

(** What the device thread does to a listener over a run of blocks. *)
Definition callbacks (self : AudioListener) (blocks : list byte_string)
    : AudioListener :=
  foldl _callback self blocks.

(** [AudioListener.start_listening]. *)
Definition start_listening (self : AudioListener) (rt : runtime)
    : result unit * AudioListener * runtime :=
  if listening self then (Returned tt, self, rt)
  else
    let self := set_buffer self [] in
    let self := set_listening self true in
    let self := set_speech_detected self false in
    let '(t, rt) := thread_start rt in
    (Returned tt, set_thread self (Some t), rt).

Definition reset_buffer (self : AudioListener) : AudioListener :=
  set_buffer self [].

Definition barge_in_detected (self : AudioListener) : bool :=
  speech_detected self.

(** [AudioListener.get_audio_buffer]. *)
Definition get_audio_buffer (self : AudioListener) : byte_string :=
  buffer self.

(** [t.join()] for a thread that ends: afterwards [t] does not run. *)
Definition thread_join (t : tid) (rt : runtime) : runtime :=
  mkRuntime (next_tid rt) (alive rt ∖ {[t]}).

(** [AudioListener.stop_listening]. The capture thread polls
    [listening] every 10 ms and ends once it is false, so the [join()]
    returns. *)
Definition stop_listening (self : AudioListener) (rt : runtime)
    : AudioListener * runtime :=
  if negb (listening self) then (self, rt)
  else
    let self := set_listening self false in
    let rt :=
      match thread self with
      | Some t => if bool_decide (t ∈ alive rt) then thread_join t rt else rt
      | None => rt
      end in
    let self := set_audio_queue self [] in
    (set_buffer self [], rt).

End AudioListener.

(** ** stt1.py *)

Module Stt.
Import Py.
Local Open Scope string_scope.

(** [transcribe_audio]. [whisper file_path] is what opening the file and
    the call [client.audio.transcriptions.create(...)] come to: the
    answer's [text], or the exception either of them raises. *)
Definition transcribe_audio (whisper : string -> result string)
    (file_path : string) : result string :=
  try_except
    (match whisper file_path with
     | Raised e => Raised e
     | Returned response_text =>
         let text := strip response_text in
         if is_empty text
         then Returned "Sorry, I couldn't hear you clearly."
         else Returned text
     end)
    (fun _ => Returned "Sorry, I couldn't understand the audio.").

End Stt.

(** ** llm.py *)

Module Llm.
Import Py.
Local Open Scope string_scope.

(** [query_llm]. [chat content] is what
    [client.chat.completions.create(...)] comes to for the user message
    [content] (the system message is the constant [TUTOR_PROMPT]): the
    content of the first choice, or the exception raised. *)
Definition query_llm (chat : string -> result string) (prompt : string)
    : result string :=
  try_except
    (match chat (strip prompt) with
     | Raised e => Raised e
     | Returned content => Returned (strip content)
     end)
    (fun _ => Returned
       "I'm sorry, I couldn't generate a response at the moment. Please try again later.").

End Llm.

(** ** tts1.py *)

Module Tts.
Import Py.
Local Open Scope string_scope.

Definition TTS_OUTPUT_DIR : string := "tts_output".

(** The keyword arguments of [generate_speech]. *)
Record speech_options := mkSpeechOptions {
  save_as : option string;
  model : string;
  voice_id : string;
  sample_rate : Z;
  speed : Q;
  consistency : Q;
  similarity : Q;
  enhancement : bool;
  return_metadata : bool;
  playback : bool
}.

Definition default_options : speech_options :=
  mkSpeechOptions None "lightning" "emily" 24000 1 (1 # 2) 0 false false false.

(** [synth_kwargs]; the three optional entries are present for the
    model [lightning-large] only. *)
Record synth_kwargs := mkSynthKwargs {
  kw_text : string;
  kw_save_as : string;
  kw_sample_rate : Z;
  kw_speed : Q;
  kw_voice_id : string;
  kw_model : string;
  kw_large : option (Q * Q * bool)
}.

(** What [generate_speech] returns. *)
Inductive speech_value :=
| PyNone
| OutputPath (path : string)
| Metadata (output_path model voice_id : string) (sample_rate : Z)
           (speed : Q) (enhancement : option bool).

(** What [generate_speech] does to the world outside the process. *)
Inductive tts_effect :=
| ClientInit
| Synthesize (kwargs : synth_kwargs)
| IsFile (path : string).

(** The world [generate_speech] runs in: whether [WavesClient(...)]
    answers, the name [uuid.uuid4().hex] produces, whether
    [client.synthesize] answers, and whether the output file exists
    afterwards. [clean] stands for [clean_text_for_tts], whose regular
    expressions are left to the [re] module. *)
Record tts_env := mkTtsEnv {
  clean : string -> string;
  client_init : result unit;
  uuid_hex : string;
  synthesize : synth_kwargs -> result unit;
  isfile : string -> bool
}.

(** [os.path.join(directory, filename)]. *)
Definition path_join (directory filename : string) : string :=
  if String.prefix "/" filename then filename
  else if is_empty directory then filename
  else if String.eqb (String.substring (String.length directory - 1) 1 directory) "/"
  then directory ++ filename
  else directory ++ "/" ++ filename.

(** [generate_speech]: the value returned and the effects, in order. *)
Definition generate_speech (env : tts_env) (text : string)
    (o : speech_options) : speech_value * list tts_effect :=
  if is_empty (strip text) then (PyNone, [])
  else
    let clean_text := clean env text in
    match client_init env with
    | Raised _ => (PyNone, [ClientInit])
    | Returned _ =>
        let filename :=
          match save_as o with
          | Some name => if is_empty name then uuid_hex env ++ ".wav" else name
          | None => uuid_hex env ++ ".wav"
          end in
        let output_path := path_join TTS_OUTPUT_DIR filename in
        let large := String.eqb (model o) "lightning-large" in
        let kwargs :=
          mkSynthKwargs clean_text output_path (sample_rate o) (speed o)
            (voice_id o) (model o)
            (if large
             then Some (consistency o, similarity o, enhancement o)
             else None) in
        match synthesize env kwargs with
        | Raised _ => (PyNone, [ClientInit; Synthesize kwargs])
        | Returned _ =>
            let effects := [ClientInit; Synthesize kwargs; IsFile output_path] in
            if negb (isfile env output_path) then (PyNone, effects)
            else if return_metadata o then
              (Metadata output_path (model o) (voice_id o) (sample_rate o)
                 (speed o) (if large then Some (enhancement o) else None),
               effects)
            else (OutputPath output_path, effects)
        end
    end.

(** [speak_text = generate_speech]. *)
Definition speak_text := generate_speech.

(** *** [clean_text_for_tts]

    The four substitutions with their regular expressions read as the
    [re] module reads them: matches are looked for from left to right
    and do not overlap; [.] is any character but the line feed; [.*?]
    takes as few characters as the rest of the expression allows; [#+]
    and [\s*] take as many as there are; and [\s] is the whitespace of
    [str.isspace]. *)

(** [s[n:]] and [s[:n]]. *)
Fixpoint string_drop (n : nat) (s : string) : string :=
  match n, s with
  | S n', String _ s' => string_drop n' s'
  | _, _ => s
  end.

Fixpoint string_take (n : nat) (s : string) : string :=
  match n, s with
  | S n', String c s' => String c (string_take n' s')
  | _, _ => EmptyString
  end.

(** Where [(.*?)] followed by the delimiter [d] ends when it starts at
    [s]: the length of the shortest run of characters, none of them a
    line feed, that [d] follows; none when there is no such run. *)
Fixpoint find_close (d s : string) : option nat :=
  if String.prefix d s then Some 0%nat
  else match s with
       | EmptyString => None
       | String c s' =>
           if Ascii.eqb c "010"%char then None else S <$> find_close d s'
       end.

(** [re.sub(d(.*?)d, r"\1", s)] for a delimiter [d] that is not empty.
    At a match the text between the delimiters is kept and the search
    goes on behind the closing one; elsewhere the character is kept and
    the search goes on behind it. The fuel is the number of characters
    of [s]: each step takes at least one. *)
Fixpoint re_sub_delimited_loop (fuel : nat) (d s : string) : string :=
  match fuel, s with
  | S fuel', String c s' =>
      let after := string_drop (String.length d) s in
      match (if String.prefix d s then find_close d after else None) with
      | Some k =>
          string_take k after
          ++ re_sub_delimited_loop fuel' d
               (string_drop (k + String.length d) after)
      | None => String c (re_sub_delimited_loop fuel' d s')
      end
  | _, _ => s
  end.

Definition re_sub_delimited (d s : string) : string :=
  re_sub_delimited_loop (String.length s) d s.

(** What [#+] leaves of [s]. *)
Fixpoint drop_hashes (s : string) : string :=
  match s with
  | String c s' => if Ascii.eqb c "#" then drop_hashes s' else s
  | EmptyString => EmptyString
  end.

(** [re.sub(r"#+\s*", "", s)]: a match starts at a [#] and takes the
    [#]s and then the whitespace that follow. *)
Fixpoint re_sub_headers_loop (fuel : nat) (s : string) : string :=
  match fuel, s with
  | S fuel', String c s' =>
      if Ascii.eqb c "#"
      then re_sub_headers_loop fuel' (lstrip (drop_hashes s'))
      else String c (re_sub_headers_loop fuel' s')
  | _, _ => s
  end.

Definition re_sub_headers (s : string) : string :=
  re_sub_headers_loop (String.length s) s.

(** [clean_text_for_tts]. *)
Definition clean_text_for_tts (text : string) : string :=
  let text := re_sub_delimited "**" text in
  let text := re_sub_delimited "*" text in
  let text := re_sub_delimited "`" text in
  let text := re_sub_headers text in
  strip text.

End Tts.

(** ** conversation_manager.py *)

Module ConversationManager.
Import Py.
Local Open Scope string_scope.

Definition tid := AudioListener.tid.

(** One [{"role": ..., "content": ...}] of a history. *)
Record turn := mkTurn {
  role : string;
  content : string
}.

(** The dictionary [get_session] creates (its [lock] is left to the
    scheduler). *)
Record Session := mkSession {
  history : list turn;
  listener : AudioListener.AudioListener;
  stop_tts_flag : bool;
  sliding_window : deque bool;
  silence_start : option Q;
  playback_thread : option tid
}.

Definition set_history (s : Session) (h : list turn) : Session :=
  mkSession h (listener s) (stop_tts_flag s) (sliding_window s)
            (silence_start s) (playback_thread s).

Definition set_listener (s : Session) (l : AudioListener.AudioListener)
    : Session :=
  mkSession (history s) l (stop_tts_flag s) (sliding_window s)
            (silence_start s) (playback_thread s).

Definition set_sliding_window (s : Session) (w : deque bool) : Session :=
  mkSession (history s) (listener s) (stop_tts_flag s) w
            (silence_start s) (playback_thread s).

Definition set_stop_tts_flag (s : Session) (b : bool) : Session :=
  mkSession (history s) (listener s) b (sliding_window s)
            (silence_start s) (playback_thread s).

Definition set_playback_thread (s : Session) (t : option tid) : Session :=
  mkSession (history s) (listener s) (stop_tts_flag s) (sliding_window s)
            (silence_start s) t.

(** The collaborators of a manager: the classifier every new listener
    gets, the name [_save_audio_buffer_to_file] returns (or the error
    of the write), the transcription service and the chat service. *)
Record manager_env := mkManagerEnv {
  classifier : byte_string -> bool;
  save_file : byte_string -> result string;
  whisper : string -> result string;
  chat : string -> result string
}.

(** [self.sessions]. *)
Abbreviation sessions := (gmap string Session).

(** [ConversationManager.get_session]. *)
Definition get_session (env : manager_env) (self : sessions)
    (session_id : string) : result (sessions * Session) :=
  match self !! session_id with
  | Some s => Returned (self, s)
  | None =>
      l ← AudioListener.AudioListener_init (classifier env) 16000 30;
      let s := mkSession [] l false (mkDeque 10 []) None None in
      Returned (<[session_id := s]> self, s)
  end.

Definition keywords : list string :=
  ["also"; "and"; "by the way"; "what about"; "continue"].

(** [ConversationManager._is_followup]. *)
Definition _is_followup (new_input last_input : string) : bool :=
  if is_empty last_input then false
  else existsb (fun kw => contains kw (lower new_input)) keywords.

(** [history[-1]] and [history.pop()] on a non-empty history. *)
Definition history_last (h : list turn) : option turn := last h.
Definition history_pop (h : list turn) : list turn :=
  take (length h - 1) h.

(** Lines 92 to 118 of [process_turn]: the session and the block under
    its lock. It leaves the sessions and the reply. *)
Definition process_turn_block (env : manager_env) (self : sessions)
    (session_id : string) (audio_bytes : byte_string)
    : result (sessions * string) :=
  '(self, session) ← get_session env self session_id;
  wav_path ← save_file env audio_bytes;
  transcription ← Stt.transcribe_audio (whisper env) wav_path;
  let '(transcription, h) :=
    match history_last (history session) with
    | Some e =>
        if String.eqb (role e) "user" then
          let prev := content e in
          if _is_followup transcription prev
          then (prev ++ " " ++ transcription, history_pop (history session))
          else (transcription, history session)
        else (transcription, history session)
    | None => (transcription, history session)
    end in
  let h := (h ++ [mkTurn "user" transcription])%list in
  response ← Llm.query_llm (chat env) transcription;
  let h := (h ++ [mkTurn "assistant" response])%list in
  Returned (<[session_id := set_history session h]> self, response).

(** Lines 82 to 89 of [_play_response_async] run by a caller that no
    other thread disturbs: a playback thread of the session that still
    runs is told to stop and waited for, and it ends, its [speak_text]
    returning; then the new thread is made, stored in the session and
    started. *)
Definition replace_playback_thread (session : Session)
    (rt : AudioListener.runtime) : Session * AudioListener.runtime :=
  let '(session, rt) :=
    match playback_thread session with
    | Some t =>
        if bool_decide (t ∈ AudioListener.alive rt)
        then (set_stop_tts_flag session true, AudioListener.thread_join t rt)
        else (session, rt)
    | None => (session, rt)
    end in
  let '(t, rt) := AudioListener.thread_start rt in
  (set_playback_thread session (Some t), rt).

(** [_play_response_async] run by such a caller. The new thread runs
    [playback] with [text]; what it does there (it clears the flag,
    starts the monitor, speaks and sets the flag) happens in that
    thread, after the call. *)
Definition _play_response_async (env : manager_env) (self : sessions)
    (rt : AudioListener.runtime) (session_id : string) (text : string)
    : result (sessions * AudioListener.runtime) :=
  '(self, session) ← get_session env self session_id;
  let '(session, rt) := replace_playback_thread session rt in
  Returned (<[session_id := session]> self, rt).

(** [ConversationManager.process_turn]: the block, and then line 120
    outside the lock. The function returns nothing; what is given here
    is the sessions and the threads it leaves, with the text the new
    playback thread has to speak. *)
Definition process_turn (env : manager_env) (self : sessions)
    (rt : AudioListener.runtime) (session_id : string)
    (audio_bytes : byte_string)
    : result (sessions * AudioListener.runtime * string) :=
  '(self, response) ← process_turn_block env self session_id audio_bytes;
  '(self, rt) ← _play_response_async env self rt session_id response;
  Returned (self, rt, response).

(** The variables of [run_loop] that live across iterations. *)
Record loop_vars := mkLoopVars {
  buffer : byte_string;
  loop_silence_start : option Q
}.

(** What an iteration of [run_loop] ends with: nothing more, or the
    call [self.process_turn(session_id, audio_data)]. *)
Inductive loop_action :=
| Continue
| ProcessTurn (audio_data : byte_string).

(** [run_loop] before its loop: the session, the listener started, an
    empty buffer and no silence start. *)
Definition run_loop_enter (env : manager_env) (self : sessions)
    (session_id : string) (rt : AudioListener.runtime)
    : result (sessions * AudioListener.runtime * loop_vars) :=
  '(self, session) ← get_session env self session_id;
  let '(_, l, rt) := AudioListener.start_listening (listener session) rt in
  Returned (<[session_id := set_listener session l]> self, rt,
            mkLoopVars [] None).

(** The body of [while listener.listening] up to the call of
    [process_turn]; [now] is the reading of [time.time()]. An empty
    queue is the [continue] of the timeout. *)
Definition run_loop_body (session : Session) (vars : loop_vars) (now : Q)
    : Session * loop_vars * loop_action :=
  match AudioListener.audio_queue (listener session) with
  | [] => (session, vars, Continue)
  | audio_chunk :: rest =>
      let l := AudioListener.set_audio_queue (listener session) rest in
      let buffer := (buffer vars ++ audio_chunk)%list in
      let is_speech := AudioListener.barge_in_detected l in
      let window := deque_append is_speech (sliding_window session) in
      let session := set_sliding_window (set_listener session l) window in
      if any (items window) then
        (session, mkLoopVars buffer None, Continue)
      else
        match loop_silence_start vars with
        | None => (session, mkLoopVars buffer (Some now), Continue)
        | Some since =>
            if Qle_bool (8 # 10) (now - since) then
              let l := AudioListener.reset_buffer l in
              let session :=
                set_sliding_window (set_listener session l)
                                   (deque_clear window) in
              (session, mkLoopVars [] (Some since), ProcessTurn buffer)
            else (session, mkLoopVars buffer (Some since), Continue)
        end
  end.

(** One iteration of the loop of [run_loop]: the body, then the turn
    when the body asks for one; the text is what the turn hands to
    [_play_response_async]. *)
Definition run_loop_iteration (env : manager_env) (self : sessions)
    (rt : AudioListener.runtime) (session_id : string) (vars : loop_vars)
    (now : Q)
    : result (sessions * AudioListener.runtime * loop_vars * option string) :=
  '(self, session) ← get_session env self session_id;
  let '(session, vars, action) := run_loop_body session vars now in
  let self := <[session_id := session]> self in
  match action with
  | Continue => Returned (self, rt, vars, None)
  | ProcessTurn audio_data =>
      '(self, rt, response) ←
        process_turn env self rt session_id audio_data;
      Returned (self, rt, mkLoopVars (buffer vars) None, Some response)
  end.

(** What happens while [run_loop] runs: the device thread delivers a
    block to the callback of the listener, or the loop comes back from
    [audio_queue.get] and reads the clock. *)
Inductive loop_event :=
| Block (audio_bytes : byte_string)
| Wake (now : Q).

(** The loop of [run_loop] over a run of events: the sessions, the
    threads and the variables it is left with, and the replies handed
    to [_play_response_async], oldest first. The loop ends when it
    finds the listener stopped. *)
Fixpoint run_loop_events (env : manager_env) (self : sessions)
    (rt : AudioListener.runtime) (session_id : string) (vars : loop_vars)
    (events : list loop_event)
    : result (sessions * AudioListener.runtime * loop_vars * list string) :=
  match events with
  | [] => Returned (self, rt, vars, [])
  | Block audio_bytes :: events' =>
      '(self, session) ← get_session env self session_id;
      let l := AudioListener._callback (listener session) audio_bytes in
      run_loop_events env (<[session_id := set_listener session l]> self)
                      rt session_id vars events'
  | Wake now :: events' =>
      '(self, session) ← get_session env self session_id;
      if AudioListener.listening (listener session) then
        '(self, rt, vars, reply) ←
          run_loop_iteration env self rt session_id vars now;
        '(self, rt, vars, replies) ←
          run_loop_events env self rt session_id vars events';
        Returned (self, rt, vars, (option_list reply ++ replies)%list)
      else Returned (self, rt, vars, [])
  end.

(** [run_loop] over a run of events. *)
Definition run_loop (env : manager_env) (self : sessions)
    (session_id : string) (rt : AudioListener.runtime)
    (events : list loop_event)
    : result (sessions * AudioListener.runtime * loop_vars * list string) :=
  '(self, rt, vars) ← run_loop_enter env self session_id rt;
  run_loop_events env self rt session_id vars events.

(** [ConversationManager.reset_history]. *)
Definition reset_history (env : manager_env) (self : sessions)
    (session_id : string) : result sessions :=
  '(self, session) ← get_session env self session_id;
  Returned (<[session_id := set_history session []]> self).

(** [ConversationManager.stop_session]; the playback thread, whose
    call of [speak_text] returns, ends, so its [join()] returns. *)
Definition stop_session (self : sessions) (session_id : string)
    (rt : AudioListener.runtime) : sessions * AudioListener.runtime :=
  match self !! session_id with
  | None => (self, rt)
  | Some session =>
      let '(l, rt) := AudioListener.stop_listening (listener session) rt in
      let session := set_listener session l in
      match playback_thread session with
      | Some t =>
          if bool_decide (t ∈ AudioListener.alive rt) then
            (<[session_id := set_stop_tts_flag session true]> self,
             AudioListener.thread_join t rt)
          else (<[session_id := session]> self, rt)
      | None => (<[session_id := session]> self, rt)
      end
  end.

(** The loop of [run_loop] with its calls of [process_turn] written
    down instead of made: the session and the variables it is left
    with, and the audio of each call, oldest first. A call touches
    neither the listener nor the sliding window nor the variables of the
    loop. *)
Fixpoint run_loop_trace (session : Session) (vars : loop_vars)
    (events : list loop_event) : Session * loop_vars * list byte_string :=
  match events with
  | [] => (session, vars, [])
  | Block audio_bytes :: events' =>
      let l := AudioListener._callback (listener session) audio_bytes in
      run_loop_trace (set_listener session l) vars events'
  | Wake now :: events' =>
      if AudioListener.listening (listener session) then
        let '(session, vars, action) := run_loop_body session vars now in
        match action with
        | Continue => run_loop_trace session vars events'
        | ProcessTurn audio_data =>
            let '(session, vars, calls) :=
              run_loop_trace session (mkLoopVars (buffer vars) None) events' in
            (session, vars, audio_data :: calls)
        end
      else (session, vars, [])
  end.

(** *** [_play_response_async] among the threads of a session

    The coordinator runs lines 82 to 89 one at a time; between any two
    of them a playback thread may end, other threads may start, and the
    playback and monitor threads may set or clear the flag. *)

(** The lines of [_play_response_async] as the coordinator passes
    them: the test of line 82 with what it found, the [set()] of line
    84, the [join()] of line 85, and the start of lines 87 to 89. *)
Inductive line :=
| Tested (found_alive : bool)
| SetFlag
| Join
| Start.

(** Where the coordinator stands. *)
Inductive position :=
| Outside
| AtTest
| AtSetFlag
| AtJoin
| AtStart.

Record play_state := mkPlayState {
  sess : Session;
  rt : AudioListener.runtime;
  playbacks : gset tid;        (* the threads started at line 89 *)
  position_ : position;
  path : list line             (* the lines run in the current call *)
}.

Inductive play_event :=
| Call                         (* [process_turn] reaches line 120 *)
| Next                         (* the coordinator runs its next line *)
| ThreadEnds (t : tid)         (* the function of thread [t] returns *)
| OtherThreadStarts            (* a monitor or a listener thread starts *)
| FlagWritten (b : bool).      (* [stop_tts_flag] set or cleared elsewhere *)

(** The playback threads of the session that are running. *)
Definition active (s : play_state) : gset tid :=
  AudioListener.alive (rt s) ∩ playbacks s.

(** [session["playback_thread"] and session["playback_thread"].is_alive()]. *)
Definition previous_alive (s : play_state) : bool :=
  match playback_thread (sess s) with
  | Some t => bool_decide (t ∈ AudioListener.alive (rt s))
  | None => false
  end.

(** One event; [None] when the event cannot happen in the state (a
    [join()] that has to wait, a thread that is not running). *)
Definition _play_response_async_step (s : play_state) (e : play_event) : option play_state :=
  match e, position_ s with
  | Call, Outside =>
      Some (mkPlayState (sess s) (rt s) (playbacks s) AtTest [])
  | Next, AtTest =>
      if previous_alive s
      then Some (mkPlayState (sess s) (rt s) (playbacks s) AtSetFlag
                             [Tested true])
      else Some (mkPlayState (sess s) (rt s) (playbacks s) AtStart
                             [Tested false])
  | Next, AtSetFlag =>
      Some (mkPlayState (set_stop_tts_flag (sess s) true) (rt s)
                        (playbacks s) AtJoin (path s ++ [SetFlag])%list)
  | Next, AtJoin =>
      if previous_alive s then None
      else Some (mkPlayState (sess s) (rt s) (playbacks s) AtStart
                             (path s ++ [Join])%list)
  | Next, AtStart =>
      let '(t, rt1) := AudioListener.thread_start (rt s) in
      Some (mkPlayState (set_playback_thread (sess s) (Some t)) rt1
                        ({[t]} ∪ playbacks s) Outside
                        (path s ++ [Start])%list)
  | ThreadEnds t, _ =>
      if bool_decide (t ∈ AudioListener.alive (rt s)) then
        Some (mkPlayState (sess s)
                (AudioListener.mkRuntime (AudioListener.next_tid (rt s))
                   (AudioListener.alive (rt s) ∖ {[t]}))
                (playbacks s) (position_ s) (path s))
      else None
  | OtherThreadStarts, _ =>
      Some (mkPlayState (sess s) (AudioListener.thread_start (rt s)).2
                        (playbacks s) (position_ s) (path s))
  | FlagWritten b, _ =>
      Some (mkPlayState (set_stop_tts_flag (sess s) b) (rt s)
                        (playbacks s) (position_ s) (path s))
  | _, _ => None
  end.

Fixpoint play_run (s : play_state) (es : list play_event)
    : option play_state :=
  match es with
  | [] => Some s
  | e :: es' => s1 ← _play_response_async_step s e; play_run s1 es'
  end.

(** A session that has played nothing yet, in a process whose threads
    are [rt0]. *)
Definition play_init (s0 : Session) (rt0 : AudioListener.runtime)
    : play_state :=
  mkPlayState (set_playback_thread s0 None) rt0 ∅ Outside [].

End ConversationManager.

(** ** main.py *)

Module Main.
Import Py.
Local Open Scope string_scope.

Definition ALLOWED_EXTENSIONS : list string := ["wav"; "mp3"; "m4a"].

(** [s.rsplit(".", 1)[-1]]: what follows the last dot of [s], and [s]
    itself when it has no dot. *)
Fixpoint after_last_dot (s : string) : string :=
  match s with
  | EmptyString => EmptyString
  | String c s' =>
      if contains "." s' then after_last_dot s'
      else if Ascii.eqb c "." then s' else s
  end.

(** [allowed_file]. *)
Definition allowed_file (filename : string) : bool :=
  contains "." filename
  && existsb (String.eqb (lower (after_last_dot filename))) ALLOWED_EXTENSIONS.

(** [os.path.basename(path)]: what follows the last slash. *)
Fixpoint basename (path : string) : string :=
  match path with
  | EmptyString => EmptyString
  | String c path' =>
      if contains "/" path' then basename path'
      else if Ascii.eqb c "/" then path' else path
  end.

(** The upload of a request to [/chat]: the name of the file under the
    key [audio], when there is one. *)
Definition upload := option string.

(** What the handler of [/chat] answers. *)
Inductive chat_body :=
| ErrorBody (message : string)
| ReplyBody (transcription response audio_reply_url : string).

(** What the handler asks of the world, in order. *)
Inductive chat_effect :=
| SaveUpload (filepath : string)
| Transcribe (filepath : string)
| QueryLlm (prompt : string)
| Speak (text : string).

(** The world of the handler: [secure_filename], whether the upload is
    written, and the services. *)
Record chat_env := mkChatEnv {
  secure_filename : string -> string;
  save_upload : string -> result unit;
  whisper : string -> result string;
  llm : string -> result string;
  tts : Tts.tts_env
}.

(** [not tts_path]. *)
Definition falsy (v : Tts.speech_value) : bool :=
  match v with
  | Tts.PyNone => true
  | Tts.OutputPath path => is_empty path
  | Tts.Metadata _ _ _ _ _ _ => false
  end.

(** The path of a value [generate_speech] returns without metadata. *)
Definition path_of (v : Tts.speech_value) : string :=
  match v with
  | Tts.OutputPath path => path
  | Tts.Metadata path _ _ _ _ _ => path
  | Tts.PyNone => EmptyString
  end.

(** [chat]: the status and the body of the answer with what was asked
    of the world, or the exception that leaves the handler. *)
Definition chat (env : chat_env) (audio : upload)
    : result (Z * chat_body) * list chat_effect :=
  match audio with
  | None => (Returned (400, ErrorBody "No audio file uploaded"), [])
  | Some name =>
      if is_empty name || negb (allowed_file name)
      then (Returned (400, ErrorBody "Invalid or missing file"), [])
      else
        let filename := secure_filename env name in
        let filepath := Tts.path_join "uploads" filename in
        match save_upload env filepath with
        | Raised e => (Raised e, [SaveUpload filepath])
        | Returned _ =>
            match Stt.transcribe_audio (whisper env) filepath with
            | Raised e => (Raised e, [SaveUpload filepath; Transcribe filepath])
            | Returned transcription =>
                match Llm.query_llm (llm env) transcription with
                | Raised e =>
                    (Raised e, [SaveUpload filepath; Transcribe filepath;
                                QueryLlm transcription])
                | Returned response_text =>
                    let effects := [SaveUpload filepath; Transcribe filepath;
                                    QueryLlm transcription; Speak response_text] in
                    let tts_path :=
                      (Tts.generate_speech (tts env) response_text
                         Tts.default_options).1 in
                    if falsy tts_path
                    then (Returned (500, ErrorBody "TTS generation failed"),
                          effects)
                    else (Returned (200,
                            ReplyBody transcription response_text
                              ("/audio/" ++ basename (path_of tts_path))),
                          effects)
                end
            end
        end
  end.

End Main.

(** ** The design document

    Second definitions, written from the words of the design document and
    not from the source, to compare the source with; and the readings of
    the states of the source that the comparisons go through. *)

Module Design.
Import Py.
Import VadUtils (Frame, bytes).

(** The two states; [Triggered] carries the segment so far. *)
Inductive machine :=
| Idle
| Triggered (segment : list Frame).

Record segmenter := mkSegmenter {
  state : machine;
  lookback : deque (Frame * bool)
}.

Definition speech_entries (d : deque (Frame * bool)) : Z :=
  count_if snd (items d).

Definition silence_entries (d : deque (Frame * bool)) : Z :=
  count_if (fun p => negb (snd p)) (items d).

(** The count that ends a segment: the design compares the silence
    entries with [trigger_ratio * ring_capacity]. *)
Definition stop_reached (trigger_ratio : Q) (d : deque (Frame * bool)) : bool :=
  Qgt_bool (inject_Z (silence_entries d)) (trigger_ratio * inject_Z (maxlen d)).

(** The count that starts one: more than 0.8 of the capacity. *)
Definition start_reached (d : deque (Frame * bool)) : bool :=
  Qgt_bool (inject_Z (speech_entries d)) ((8 # 10) * inject_Z (maxlen d)).

(** The same count as the source takes it: against the integer
    [num_voiced] of line 60. *)
Definition stop_reached_int (num_voiced : Z) (d : deque (Frame * bool)) : bool :=
  silence_entries d >? num_voiced.

Section Machine.
Variable is_speech : byte_string -> bool.
(** The test that ends a segment. *)
Variable stop : deque (Frame * bool) -> bool.

(** One frame: the next state and the segment yielded, if any. *)
Definition collect_step (m : segmenter) (frame : Frame)
    : segmenter * option byte_string :=
  let pushed := deque_append (frame, is_speech (bytes frame)) (lookback m) in
  match state m with
  | Idle =>
      if start_reached pushed
      then (mkSegmenter (Triggered (map fst (items pushed)))
                        (deque_clear pushed), None)
      else (mkSegmenter Idle pushed, None)
  | Triggered segment =>
      let segment := segment ++ [frame] in
      if stop pushed
      then (mkSegmenter Idle (deque_clear pushed),
            Some (join (map bytes segment)))
      else (mkSegmenter (Triggered segment) pushed, None)
  end.

Fixpoint collect_run (m : segmenter) (frames : list Frame)
    : segmenter * list byte_string :=
  match frames with
  | [] => (m, [])
  | frame :: frames' =>
      let '(m1, out1) := collect_step m frame in
      let '(m2, out2) := collect_run m1 frames' in
      (m2, option_list out1 ++ out2)
  end.

(** The segments of a frame sequence, the partial one of an
    exhausted sequence included, and the ring buffer left behind. *)
Definition collect_with (ring : deque (Frame * bool)) (frames : list Frame)
    : list byte_string * deque (Frame * bool) :=
  let '(m, out) := collect_run (mkSegmenter Idle ring) frames in
  let partial :=
    match state m with
    | Triggered (f :: segment) => [join (map bytes (f :: segment))]
    | _ => []
    end in
  (out ++ partial, lookback m).
End Machine.

(** [collect_segments] of the design. *)
Definition collect_segments (is_speech : byte_string -> bool)
    (trigger_ratio : Q) :=
  collect_with is_speech (stop_reached trigger_ratio).

(** [vad_collector] does what the design says on these inputs: it
    yields, the same segments, and leaves the same ring buffer. The
    trigger ratio of the design is the number the float stands for. *)
Definition follows_design (self : VadUtils.VADAudio) (frames : list Frame)
    (ratio : float) : Prop :=
  match VadUtils.vad_collector self frames ratio with
  | Returned (segments, self1) =>
      (segments, VadUtils.ring_buffer self1)
      = collect_segments (VadUtils.is_speech self) (float_value ratio)
          (VadUtils.ring_buffer self) frames
  | Raised _ => False
  end.

(** A state of the loop of [vad_collector] read as a state of the
    machine. *)
Definition machine_of (st : VadUtils.collector) : segmenter :=
  mkSegmenter
    (if VadUtils.triggered st then Triggered (VadUtils.voiced_frames st)
     else Idle)
    (VadUtils.ring st).

(** What the loop keeps true of its variables: no frames are held
    outside a segment, and the ring buffer has the capacity [cap]. *)
Definition tidy (cap : Z) (st : VadUtils.collector) : Prop :=
  (VadUtils.triggered st = false -> VadUtils.voiced_frames st = [])
  /\ maxlen (VadUtils.ring st) = cap.

(** What [VADAudio.__init__] establishes about the ring buffer and no
    method changes: its capacity is the number of padding frames. *)
Definition ring_as_built (self : VadUtils.VADAudio) : Prop :=
  maxlen (VadUtils.ring_buffer self) = VadUtils.num_padding_frames self
  /\ 0 <= VadUtils.num_padding_frames self.


(** [kw] occurs in [s]. *)
Definition occurs_in (kw s : string) : Prop :=
  exists before after, s = (before ++ kw ++ after)%string.

(** The continuation keywords of section 4.3. *)
Definition continuation_keywords : list string :=
  ["also"; "and"; "by the way"; "what about"; "continue"]%string.

Definition has_keyword (text : string) : Prop :=
  exists kw, In kw continuation_keywords /\ occurs_in kw (lower text).

(** A continuation as section 4.3 defines it: the history ends in a
    user turn and the text has a keyword, whatever its case. *)
Definition continuation_stated (h : list ConversationManager.turn)
    (text : string) : Prop :=
  exists h0 prev,
    h = h0 ++ [prev]
    /\ ConversationManager.role prev = "user"%string
    /\ has_keyword text.

(** A continuation as the source takes it: the user turn that ends the
    history has, besides, a content that is not empty. *)
Definition continuation (h : list ConversationManager.turn)
    (text : string) : Prop :=
  exists h0 prev,
    h = h0 ++ [prev]
    /\ ConversationManager.role prev = "user"%string
    /\ ConversationManager.content prev <> ""%string
    /\ has_keyword text.

(** The number of user turns of a history. *)
Definition user_entries (h : list ConversationManager.turn) : nat :=
  length (List.filter
            (fun t => String.eqb (ConversationManager.role t) "user") h).

(** The history [h1] after a turn on the history [h] with the
    transcription [text], where [said] goes to the language model and
    [response] comes back: under [merges] the last turn is replaced
    by the merged one, so that the user turns stay as many, and
    otherwise the text is appended as a new user turn. *)
Definition turn_as_designed
    (merges : list ConversationManager.turn -> string -> Prop)
    (h : list ConversationManager.turn) (text said response : string)
    (h1 : list ConversationManager.turn) : Prop :=
  (merges h text
   /\ exists h0 prev,
        h = h0 ++ [prev]
        /\ said = (ConversationManager.content prev ++ " " ++ text)%string
        /\ h1 = h0 ++ [ConversationManager.mkTurn "user" said;
                        ConversationManager.mkTurn "assistant" response]
        /\ user_entries (h0 ++ [ConversationManager.mkTurn "user" said])
           = user_entries h)
  \/ (~ merges h text
      /\ said = text
      /\ h1 = h ++ [ConversationManager.mkTurn "user" text;
                     ConversationManager.mkTurn "assistant" response]
      /\ user_entries (h ++ [ConversationManager.mkTurn "user" text])
         = S (user_entries h)).

(** The Listening state of the turn coordinator as section 4.3 words
    it: the sliding window, the silence start and the raw buffer. *)
Record coordinator := mkCoordinator {
  window : deque bool;
  silence_since : option Q;
  accumulated : byte_string
}.

Definition silence_threshold : Q := 8 # 10.

(** One capture block while Listening, with the speaking flag and the
    clock read for it; the last argument is the snapshot handed to
    turn processing when the step finalizes. What becomes of the
    silence start on finalizing is not said. *)
Inductive listening_step (speaking : bool) (now : Q) (block : byte_string)
    : coordinator -> coordinator -> option byte_string -> Prop :=
| speech_ongoing c :
    any (items (deque_append speaking (window c))) = true ->
    listening_step speaking now block c
      (mkCoordinator (deque_append speaking (window c)) None
                     (accumulated c ++ block))
      None
| silence_begins c :
    any (items (deque_append speaking (window c))) = false ->
    silence_since c = None ->
    listening_step speaking now block c
      (mkCoordinator (deque_append speaking (window c)) (Some now)
                     (accumulated c ++ block))
      None
| silence_lasts c since :
    any (items (deque_append speaking (window c))) = false ->
    silence_since c = Some since ->
    ~ (silence_threshold <= now - since)%Q ->
    listening_step speaking now block c
      (mkCoordinator (deque_append speaking (window c)) (Some since)
                     (accumulated c ++ block))
      None
| finalizing c since since1 :
    any (items (deque_append speaking (window c))) = false ->
    silence_since c = Some since ->
    (silence_threshold <= now - since)%Q ->
    listening_step speaking now block c
      (mkCoordinator (deque_clear (deque_append speaking (window c)))
                     since1 [])
      (Some (accumulated c ++ block)).

(** The variables of [run_loop] read as a coordinator. *)
Definition coordinator_of (session : ConversationManager.Session)
    (vars : ConversationManager.loop_vars) : coordinator :=
  mkCoordinator (ConversationManager.sliding_window session)
                (ConversationManager.loop_silence_start vars)
                (ConversationManager.buffer vars).

(** The snapshot an iteration hands to turn processing. *)
Definition handed_over (action : ConversationManager.loop_action)
    : option byte_string :=
  match action with
  | ConversationManager.Continue => None
  | ConversationManager.ProcessTurn audio_data => Some audio_data
  end.

(** Thread identifiers are handed out in order: every running thread
    has one below the next. *)
Definition runtime_fresh (rt : AudioListener.runtime) : Prop :=
  forall t, t ∈ AudioListener.alive rt -> (t < AudioListener.next_tid rt)%nat.

(** What holds of the threads of a session whatever the threads do:
    a running playback thread is the one the session holds; thread
    identifiers are fresh; and the coordinator reaches the start of a
    new playback thread only past a test that found none running, or
    past the [set()] and the [join()], with none running then. *)
Definition play_ok (s : ConversationManager.play_state) : Prop :=
  (forall t, t ∈ ConversationManager.active s ->
             ConversationManager.playback_thread (ConversationManager.sess s)
             = Some t)
  /\ runtime_fresh (ConversationManager.rt s)
  /\ (forall t, t ∈ ConversationManager.playbacks s ->
                (t < AudioListener.next_tid (ConversationManager.rt s))%nat)
  /\ match ConversationManager.position_ s with
     | ConversationManager.Outside | ConversationManager.AtTest => True
     | ConversationManager.AtSetFlag =>
         ConversationManager.path s = [ConversationManager.Tested true]
     | ConversationManager.AtJoin =>
         ConversationManager.path s
         = [ConversationManager.Tested true; ConversationManager.SetFlag]
     | ConversationManager.AtStart =>
         ConversationManager.active s = ∅
         /\ (ConversationManager.path s = [ConversationManager.Tested false]
             \/ ConversationManager.path s
                = [ConversationManager.Tested true; ConversationManager.SetFlag;
                   ConversationManager.Join])
     end.

(** [segment] is the joined bytes of a run of consecutive frames of
    [seen] that is not empty. *)
Definition run_of (seen : list Frame) (segment : byte_string) : Prop :=
  exists before run after,
    seen = before ++ run ++ after
    /\ run <> []
    /\ segment = join (map bytes run).

(** What the loop of [vad_collector] keeps true of the frames it has
    seen: the frames in the ring buffer and the frames of the segment
    are each the last frames seen, and no frames are held outside a
    segment. *)
Definition trailing (seen : list Frame) (st : VadUtils.collector) : Prop :=
  map fst (items (VadUtils.ring st)) `suffix_of` seen
  /\ VadUtils.voiced_frames st `suffix_of` seen
  /\ (VadUtils.triggered st = false -> VadUtils.voiced_frames st = []).

(** The last of the blocks that is at least [n] bytes long. *)
Definition last_long (n : Z) (blocks : list byte_string) : option byte_string :=
  last (List.filter (fun block => len block >=? n) blocks).

(** A history of whole turns: a user entry and an assistant entry,
    any number of times. *)
Inductive alternating : list ConversationManager.turn -> Prop :=
| alternating_nil : alternating []
| alternating_turn h said response :
    alternating h ->
    alternating (h ++ [ConversationManager.mkTurn "user" said;
                       ConversationManager.mkTurn "assistant" response]).

(** The blocks the device thread delivers in a run of events. *)
Fixpoint delivered (events : list ConversationManager.loop_event)
    : list byte_string :=
  match events with
  | [] => []
  | ConversationManager.Block audio_bytes :: events' =>
      audio_bytes :: delivered events'
  | ConversationManager.Wake _ :: events' => delivered events'
  end.

(** Two sessions that the loop of [run_loop] cannot tell apart: the
    same listener and the same sliding window. *)
Definition same_for_loop (s t : ConversationManager.Session) : Prop :=
  ConversationManager.listener s = ConversationManager.listener t
  /\ ConversationManager.sliding_window s = ConversationManager.sliding_window t.

(** A text that is empty or made of whitespace only. *)
Definition blank (text : string) : Prop :=
  Forall (fun c => isspace c = true) (list_ascii_of_string text).

(** The speaking flag after a callback as section 4.2 words it: the
    class of the last frame-length bytes of the block, or of the
    rolling buffer followed by the block when the block is shorter
    than a frame. *)
Definition flag_as_designed (self : AudioListener.AudioListener)
    (block : byte_string) : bool :=
  let n := AudioListener.frame_size self in
  if len block >=? n
  then VadUtils.is_speech (AudioListener.vad self) (slice_from (- n) block)
  else VadUtils.is_speech (AudioListener.vad self)
         (slice_from (- n) (AudioListener.buffer self ++ block)).

(** [start()] as section 4.2 words it: an error named
    [AlreadyListening] on a running loop; otherwise the buffer reset,
    the flag cleared and the capture thread launched. *)
Definition start_as_designed (self : AudioListener.AudioListener)
    (rt : AudioListener.runtime)
    : result unit * AudioListener.AudioListener * AudioListener.runtime :=
  if AudioListener.listening self
  then (Raised (NamedError "AlreadyListening"), self, rt)
  else
    let '(t, rt1) := AudioListener.thread_start rt in
    (Returned tt,
     AudioListener.set_thread
       (AudioListener.set_speech_detected
          (AudioListener.set_listening (AudioListener.set_buffer self []) true)
          false)
       (Some t),
     rt1).

(** A text without the characters the cleaning of [tts1.py] looks
    for, a text on one line, and a text made of [#] and whitespace
    only. *)
Definition plain (text : string) : Prop :=
  contains "*" text = false
  /\ contains "`" text = false
  /\ contains "#" text = false.

Definition one_line (text : string) : Prop :=
  contains (String "010"%char "") text = false.

Definition header_only (text : string) : Prop :=
  Forall (fun c => c = "#"%char \/ isspace c = true)
         (list_ascii_of_string text).

End Design.

(** ** Values the examples run on *)

Module Samples.
Import Py.

(** A classifier for the examples: a chunk is speech when one of its
    bytes is not zero. *)
Definition loud (chunk : byte_string) : bool :=
  existsb (fun b => negb (Byte.eqb b x00)) chunk.

(** [webrtcvad.Vad] for the examples: the classifier [loud] for the
    modes 0 to 3, and a refusal of any other. *)
Definition Vad (mode : Z) : result (byte_string -> bool) :=
  if (0 <=? mode) && (mode <=? 3) then Returned loud else Raised ValueError.

(** The floats [0.9], which is the default ratio, [0.7] and [-0.05],
    and [0.03], the seconds of a frame of 30 ms. *)
Definition nine_tenths : float := S754_finite false 8106479329266893 (-53).
Definition seven_tenths : float := S754_finite false 6305039478318694 (-53).
Definition minus_twentieth : float := S754_finite true 7205759403792794 (-57).
Definition three_hundredths : float :=
  S754_finite false 8646911284551352 (-58).

(** [VADAudio()] with its default arguments. *)
Definition vad16k : VadUtils.VADAudio :=
  VadUtils.mkVADAudio loud 16000 30 960 300 10 (mkDeque 10 []).

(** [AudioListener()] with its default arguments. *)
Definition listener16k : AudioListener.AudioListener :=
  AudioListener.mkAudioListener 16000 30 2 960 vad16k [] false [] None
    false 96000.

(** What [frame_generator] yields, for the examples that need frames. *)
Definition frames_of (self : VadUtils.VADAudio) (audio : byte_string)
    : list VadUtils.Frame :=
  match VadUtils.frame_generator self audio with
  | Some (Returned frames) => frames
  | _ => []
  end.

(** Eleven frames of 30 ms of loud audio: nine of them trigger the
    default collector, and two more keep it triggered. *)
Definition eleven_loud : list VadUtils.Frame :=
  frames_of vad16k (repeat x01 (11 * 960)).

(** Twelve frames of silence. *)
Definition twelve_quiet : list VadUtils.Frame :=
  frames_of vad16k (repeat x00 (12 * 960)).

(** A running listener with frames of two bytes (1000 Hz, 1 ms) and so
    a rolling buffer of 200 bytes. *)
Definition listener_1ms : AudioListener.AudioListener :=
  AudioListener.mkAudioListener 1000 1 2 2
    (VadUtils.mkVADAudio loud 1000 1 2 300 300 (mkDeque 300 []))
    [] true [] (Some 0%nat) false 200.

(** A segmenter whose frame size is zero (100 Hz, 5 ms). *)
Definition vad_empty_frames : VadUtils.VADAudio :=
  VadUtils.mkVADAudio loud 100 5 0 300 60 (mkDeque 60 []).

(** A segmenter with frames of half a second, and so a ring buffer of
    capacity zero. *)
Definition vad_no_ring : VadUtils.VADAudio :=
  VadUtils.mkVADAudio loud 16000 500 16000 300 0 (mkDeque 0 []).

(** A segmenter with frames of four bytes (1000 Hz, 2 ms). *)
Definition vad_tiny : VadUtils.VADAudio :=
  VadUtils.mkVADAudio loud 1000 2 4 300 150 (mkDeque 150 []).

(** The default listener while it runs, its flag down, with one frame
    of loud bytes in its rolling buffer. *)
Definition running16k : AudioListener.AudioListener :=
  AudioListener.mkAudioListener 16000 30 2 960 vad16k [] true
    (repeat x01 960) (Some 0%nat) false 96000.

(** A transcription service that is down, and one that hears a
    continuation. *)
Definition whisper_down (file_path : string) : result string :=
  Raised (NamedError "APIError").
Definition whisper_and (file_path : string) : result string :=
  Returned "and"%string.

(** A chat service that echoes, and one that is down. *)
Definition chat_echo (content : string) : result string := Returned content.
Definition chat_down (content : string) : result string :=
  Raised (NamedError "APIError").

(** A manager whose services work: every file is written, every
    utterance is heard as [and], and the chat echoes. *)
Definition small_world : ConversationManager.manager_env :=
  ConversationManager.mkManagerEnv loud
    (fun _ => Returned "turn.wav"%string) whisper_and chat_echo.

(** A session whose history is one user turn of empty content, and a
    manager that has it under the name [s]. *)
Definition empty_user_session : ConversationManager.Session :=
  ConversationManager.mkSession
    [ConversationManager.mkTurn "user" ""] listener16k false
    (mkDeque 10 []) None None.
Definition one_session : gmap string ConversationManager.Session :=
  {[ "s"%string := empty_user_session ]}.

(** The scenario of the design: the history ends in the user turn
    [what is a derivative] and the next utterance is heard as
    [and also explain that]. *)
Definition also_world : ConversationManager.manager_env :=
  ConversationManager.mkManagerEnv loud
    (fun _ => Returned "turn.wav"%string)
    (fun _ => Returned "and also explain that"%string) chat_echo.
Definition derivative_session : ConversationManager.Session :=
  ConversationManager.mkSession
    [ConversationManager.mkTurn "user" "what is a derivative"]
    listener16k false (mkDeque 10 []) None None.
Definition derivative_sessions : gmap string ConversationManager.Session :=
  {[ "s"%string := derivative_session ]}.

(** A session that listens: one block of two bytes waits in the queue
    of its listener. *)
Definition waiting_session : ConversationManager.Session :=
  ConversationManager.mkSession []
    (AudioListener.set_audio_queue running16k [[x00; x00]])
    false (mkDeque 10 []) None None.

Definition waiting_sessions : gmap string ConversationManager.Session :=
  {[ "s"%string := waiting_session ]}.

(** A reply, and a second one while the first is played: its call
    finds the playback thread 1 running, which ends during the
    [join()]. *)
Definition second_reply : list ConversationManager.play_event :=
  [ConversationManager.Call; ConversationManager.Next;
   ConversationManager.Next;
   ConversationManager.FlagWritten false;
   ConversationManager.OtherThreadStarts;
   ConversationManager.Call; ConversationManager.Next;
   ConversationManager.Next;
   ConversationManager.ThreadEnds 1%nat;
   ConversationManager.Next].

(** A session after one whole turn, and a manager that has it under
    the name [s]. *)
Definition turned_session : ConversationManager.Session :=
  ConversationManager.mkSession
    [ConversationManager.mkTurn "user" "hi";
     ConversationManager.mkTurn "assistant" "hello"]
    listener16k false (mkDeque 10 []) None None.
Definition turned_sessions : gmap string ConversationManager.Session :=
  {[ "s"%string := turned_session ]}.

(** A session whose first reply is being played by the thread 1, next
    to the capture thread 0. *)
Definition playing : ConversationManager.play_state :=
  ConversationManager.mkPlayState
    (ConversationManager.set_playback_thread waiting_session (Some 1%nat))
    (AudioListener.mkRuntime 2%nat {[0%nat; 1%nat]}) {[1%nat]}
    ConversationManager.Outside
    [ConversationManager.Tested false; ConversationManager.Start].

(** A synthesis service that works and names its files [0123.wav]. *)
Definition tts_world : Tts.tts_env :=
  Tts.mkTtsEnv (fun text => text) (Returned tt) "0123"
               (fun _ => Returned tt) (fun _ => true).

(** The same service with the cleaning of [tts1.py]. *)
Definition tts_cleaning_world : Tts.tts_env :=
  Tts.mkTtsEnv Tts.clean_text_for_tts (Returned tt) "0123"
               (fun _ => Returned tt) (fun _ => true).

(** The world of a request to [/chat] in which every service works. *)
Definition chat_world : Main.chat_env :=
  Main.mkChatEnv (fun name => name) (fun _ => Returned tt)
                 whisper_and chat_echo tts_world.

(** A process with no thread, a process with the one capture thread,
    and one with a playback thread beside it. *)
Definition no_threads : AudioListener.runtime :=
  AudioListener.mkRuntime 0%nat ∅.
Definition one_thread : AudioListener.runtime :=
  AudioListener.mkRuntime 1%nat {[0%nat]}.
Definition two_threads : AudioListener.runtime :=
  AudioListener.mkRuntime 2%nat {[0%nat; 1%nat]}.

End Samples.

(** * Properties *)

(** ** Python values *)

Section PyFacts.
Import Py.
Context {A : Type}.
Implicit Types l : list A.

Lemma len_nonneg l : 0 <= len l.
Proof. unfold len. lia. Qed.

Lemma len_app l1 l2 : len (l1 ++ l2) = len l1 + len l2.
Proof. unfold len. rewrite length_app. lia. Qed.

Lemma slice_inside i j l :
  0 <= i -> i <= j -> j <= len l ->
  slice i j l = take (Z.to_nat (j - i)) (drop (Z.to_nat i) l).
Proof.
  intros Hi Hij Hj. unfold slice, slice_index.
  destruct (i <? 0) eqn:E1; [apply Z.ltb_lt in E1; lia|].
  destruct (j <? 0) eqn:E2; [apply Z.ltb_lt in E2; lia|].
  rewrite !Z.min_l by lia. reflexivity.
Qed.

Lemma len_slice_inside i j l :
  0 <= i -> i <= j -> j <= len l -> len (slice i j l) = j - i.
Proof.
  intros Hi Hij Hj. rewrite slice_inside by assumption.
  unfold len in *. rewrite length_take, length_drop. lia.
Qed.

(** [l[-n:]] keeps the last [n] entries when [0 < n]. *)
Lemma slice_from_neg n l :
  0 < n -> slice_from (- n) l = drop (length l - Z.to_nat n) l.
Proof.
  intros Hn. unfold slice_from, slice_index.
  destruct (- n <? 0) eqn:E; [|apply Z.ltb_ge in E; lia].
  f_equal. unfold len. lia.
Qed.

(** [l[-0:]] is the whole list. *)
Lemma slice_from_neg_zero l : slice_from (- 0) l = l.
Proof.
  unfold slice_from, slice_index; simpl.
  rewrite Z.min_l by apply len_nonneg. reflexivity.
Qed.

Lemma len_slice_from_neg n l :
  0 < n -> n <= len l -> len (slice_from (- n) l) = n.
Proof.
  intros Hn Hl. rewrite slice_from_neg by assumption.
  unfold len in *. rewrite length_drop. lia.
Qed.

Lemma deque_append_maxlen (x : A) d : maxlen (deque_append x d) = maxlen d.
Proof. reflexivity. Qed.

(** A ring buffer never holds more than its capacity. *)
Lemma deque_append_bounded (x : A) d :
  0 <= maxlen d ->
  len (items (deque_append x d)) <= maxlen (deque_append x d).
Proof.
  intros Hm. unfold deque_append, len; simpl.
  rewrite length_drop, length_app; simpl. lia.
Qed.

(** Below its capacity a ring buffer only grows. *)
Lemma deque_append_room (x : A) d :
  len (items d) < maxlen d ->
  items (deque_append x d) = items d ++ [x].
Proof.
  intros Hm. unfold deque_append, len in *; simpl.
  rewrite length_app; simpl.
  replace (length (items d) + 1 - Z.to_nat (maxlen d))%nat with 0%nat by lia.
  reflexivity.
Qed.

(** At its capacity a ring buffer loses its oldest entry. *)
Lemma deque_append_full (x : A) d :
  0 < maxlen d -> len (items d) = maxlen d ->
  items (deque_append x d) = drop 1 (items d) ++ [x].
Proof.
  intros Hm Hl. unfold deque_append, len in *; simpl.
  rewrite length_app; simpl.
  replace (length (items d) + 1 - Z.to_nat (maxlen d))%nat with 1%nat by lia.
  destruct (items d); simpl in *; [lia|reflexivity].
Qed.

End PyFacts.

(** ** The sample values are what the constructors build *)

Section Constructors.
Import Py.

Example vad16k_built :
  VadUtils.VADAudio_init Samples.Vad 16000 30 2 = Returned Samples.vad16k.
Proof. reflexivity. Qed.

Example listener16k_built :
  AudioListener.AudioListener_init Samples.loud 16000 30
  = Returned Samples.listener16k.
Proof. reflexivity. Qed.

Example vad_tiny_built :
  VadUtils.VADAudio_init Samples.Vad 1000 2 2 = Returned Samples.vad_tiny.
Proof. reflexivity. Qed.

Example listener_1ms_started :
  (fun l => AudioListener.start_listening l Samples.no_threads)
    <$> AudioListener.AudioListener_init Samples.loud 1000 1
  = Returned (Returned tt, Samples.listener_1ms, Samples.one_thread).
Proof. vm_compute. reflexivity. Qed.

(** A duration of zero and a negative duration are refused, and so is
    what [webrtcvad.Vad] refuses. *)
Example vad_zero_duration :
  VadUtils.VADAudio_init Samples.Vad 16000 0 2 = Raised ZeroDivisionError.
Proof. reflexivity. Qed.

Example vad_negative_duration :
  VadUtils.VADAudio_init Samples.Vad 16000 (-30) 2 = Raised ValueError.
Proof. reflexivity. Qed.

Example vad_refused_mode :
  VadUtils.VADAudio_init (fun _ => Raised (NamedError "Error")) 16000 30 7
  = Raised (NamedError "Error").
Proof. reflexivity. Qed.

(** The quotient that gives the frame size is a float: beyond 2^53 it
    is not the exact quotient, and beyond the floats it raises. *)
Example vad_rounded_frame_size :
  VadUtils.frame_size
  <$> VadUtils.VADAudio_init Samples.Vad 18014398509481986 1000 2
  = Returned (18014398509481984 * 2).
Proof. vm_compute. reflexivity. Qed.

Example vad_overflowing_frame_size :
  VadUtils.VADAudio_init Samples.Vad (10 ^ 312) 1 2 = Raised OverflowError.
Proof. vm_compute. reflexivity. Qed.

(** The float literals of the examples are the floats nearest to the
    decimals. *)
Example float_literals :
  int_truediv 9 10 = Returned Samples.nine_tenths
  /\ int_truediv 8 10 = Returned VadUtils.eight_tenths
  /\ int_truediv 7 10 = Returned Samples.seven_tenths
  /\ int_truediv (-1) 20 = Returned Samples.minus_twentieth
  /\ int_truediv 3 100 = Returned Samples.three_hundredths
  /\ VadUtils.frame_seconds Samples.vad16k = Returned Samples.three_hundredths.
Proof. vm_compute. repeat split; reflexivity. Qed.

End Constructors.

(** ** vad_utils.py: [frame_generator] *)

Section FrameGenerator.
Import Py VadUtils.

Lemma frame_generator_loop_spec (n : Z) (dur : float) (audio : byte_string) :
  0 < n ->
  forall (fuel : nat) (offset : Z) (ts : float),
    0 <= offset <= len audio ->
    len audio - offset < Z.of_nat fuel ->
    exists frames,
      frame_generator_loop fuel n dur audio offset ts = Some frames
      /\ Forall (fun f => len (bytes f) = n) frames
      /\ len frames = (len audio - offset) / n
      /\ join (map bytes frames)
         = take (Z.to_nat (n * ((len audio - offset) / n)))
                (drop (Z.to_nat offset) audio).
Proof.
  intros Hn. induction fuel as [|fuel IH]; intros offset ts Ho Hf.
  - lia.
  - simpl. destruct (offset + n <=? len audio) eqn:E.
    + apply Z.leb_le in E.
      destruct (IH (offset + n) (float_add ts dur)) as (rest & -> & Hall & Hlen & Hcat);
        [lia | lia |].
      simpl. eexists. split; [reflexivity|].
      assert (Hdiv : (len audio - offset) / n
                     = (len audio - (offset + n)) / n + 1).
      { replace (len audio - offset) with (len audio - (offset + n) + 1 * n) by lia.
        rewrite Z.div_add by lia. reflexivity. }
      assert (Hq : 0 <= (len audio - (offset + n)) / n)
        by (apply Z.div_pos; lia).
      split; [|split].
      * constructor; [|exact Hall]. simpl.
        rewrite len_slice_inside; lia.
      * unfold len in *. simpl length. rewrite Hdiv. lia.
      * unfold join in *. simpl. rewrite Hcat, Hdiv.
        rewrite slice_inside by lia.
        replace (offset + n - offset) with n by lia.
        replace (Z.to_nat (offset + n)) with (Z.to_nat offset + Z.to_nat n)%nat by lia.
        rewrite <- drop_drop, take_take_drop. f_equal. nia.
    + apply Z.leb_gt in E. exists []. 
      rewrite Z.div_small by lia.
      split; [reflexivity|]. split; [constructor|].
      split; [reflexivity|]. rewrite Z.mul_0_r. reflexivity.
Qed.

(** With a frame size of zero the loop never leaves its first offset:
    no number of iterations is enough. *)
Lemma frame_generator_loop_zero (dur : float) (audio : byte_string) :
  forall (fuel : nat) (ts : float),
    frame_generator_loop fuel 0 dur audio 0 ts = None.
Proof.
  induction fuel as [|fuel IH]; intros ts; [reflexivity|].
  cbn [frame_generator_loop]. change (0 + 0) with 0.
  pose proof (len_nonneg audio).
  destruct (0 <=? len audio) eqn:E; [|apply Z.leb_gt in E; lia].
  rewrite IH. reflexivity.
Qed.

(** What line 41 raises, the generator raises at its first step. *)
Lemma frame_generator_raises (self : VADAudio) (audio : byte_string)
    (fuel : nat) (e : exn) :
  frame_seconds self = Raised e ->
  frame_generator_fuel fuel self audio = Some (Raised e).
Proof. intros H. unfold frame_generator_fuel. rewrite H. reflexivity. Qed.

(** With a sample rate of zero line 41 raises. *)
Lemma frame_seconds_zero_rate (self : VADAudio) :
  sample_rate self = 0 -> exists e, frame_seconds self = Raised e.
Proof.
  intros H. unfold frame_seconds. rewrite H.
  destruct (float_of_int (frame_size self)) as [n|e]; simpl;
    eexists; reflexivity.
Qed.

(** C4: for a positive frame size and a duration that line 41
    computes (the sample rate is not zero, and the frame size and the
    sample rate are within the range of floats), [frame_generator] ends
    and yields frames of exactly [frame_size] bytes; there are [k] of
    them, where [k * frame_size] is the largest multiple of the frame
    size that fits in the input, and their bytes joined in order are
    the first [k * frame_size] bytes of the input. *)
Theorem frame_generator_exact_prefix (self : VADAudio) (audio : byte_string)
    (dur : float) :
  0 < frame_size self ->
  frame_seconds self = Returned dur ->
  exists (frames : list Frame) (k : Z),
    frame_generator self audio = Some (Returned frames)
    /\ Forall (fun f => len (bytes f) = frame_size self) frames
    /\ len frames = k
    /\ k * frame_size self <= len audio < (k + 1) * frame_size self
    /\ join (map bytes frames) = take (Z.to_nat (k * frame_size self)) audio.
Proof.
  intros Hn Hdur. unfold frame_generator, frame_generator_fuel.
  rewrite Hdur.
  pose proof (len_nonneg audio) as Hl.
  destruct (frame_generator_loop_spec (frame_size self) dur
              audio Hn (S (length audio)) 0 float_zero)
    as (frames & Hrun & Hall & Hlen & Hcat).
  { lia. }
  { unfold len. lia. }
  rewrite Z.sub_0_r in *.
  exists frames, (len audio / frame_size self).
  rewrite Hrun. split; [reflexivity|]. split; [exact Hall|].
  split; [exact Hlen|]. split.
  - pose proof (Z.mul_div_le (len audio) (frame_size self) Hn).
    pose proof (Z.mul_succ_div_gt (len audio) (frame_size self) Hn).
    lia.
  - rewrite Hcat. simpl. rewrite drop_0. f_equal. lia.
Qed.

(** Ten bytes in frames of four: two frames, and the last two bytes are
    dropped. *)
Example frame_generator_ten_bytes :
  (fun r => match r with
            | Some (Returned frames) => Some (map bytes frames)
            | _ => None
            end)
    (frame_generator Samples.vad_tiny
       [x01; x02; x03; x04; x05; x06; x07; x08; x09; x0a])
  = Some [[x01; x02; x03; x04]; [x05; x06; x07; x08]].
Proof. reflexivity. Qed.

(** The timestamps are sums of floats: at the default segmenter the
    second frame starts at [0.03], and the eleventh at
    [0.30000000000000004], ten durations added one by one. *)
Example frame_generator_timestamps :
  match frame_generator Samples.vad16k (repeat x01 (11 * 960)) with
  | Some (Returned frames) =>
      map timestamp (take 2 frames)
      = [float_zero; Samples.three_hundredths]
      /\ timestamp <$> frames !! 10%nat
         = Some (S754_finite false 5404319552844596 (-54))
      /\ Forall (fun f => duration f = Samples.three_hundredths) frames
  | _ => False
  end.
Proof.
  vm_compute. split; [reflexivity|]. split; [reflexivity|].
  repeat constructor.
Qed.

(** C4 at the default segmenter and 2000 bytes of audio. *)
Lemma frame_generator_exact_prefix_witness :
  0 < frame_size Samples.vad16k
  /\ frame_seconds Samples.vad16k = Returned Samples.three_hundredths
  /\ exists (frames : list Frame) (k : Z),
       frame_generator Samples.vad16k (repeat x01 2000)
       = Some (Returned frames)
       /\ Forall (fun f => len (bytes f) = frame_size Samples.vad16k) frames
       /\ len frames = k
       /\ k * frame_size Samples.vad16k <= len (repeat x01 2000)
          < (k + 1) * frame_size Samples.vad16k
       /\ join (map bytes frames)
          = take (Z.to_nat (k * frame_size Samples.vad16k)) (repeat x01 2000).
Proof.
  assert (H1 : 0 < frame_size Samples.vad16k) by reflexivity.
  assert (H2 : frame_seconds Samples.vad16k
               = Returned Samples.three_hundredths)
    by (vm_compute; reflexivity).
  split; [exact H1|]. split; [exact H2|].
  exact (frame_generator_exact_prefix Samples.vad16k (repeat x01 2000)
           _ H1 H2).
Defined.

End FrameGenerator.

(** ** vad_utils.py: [vad_collector] *)

Section VadCollector.
Import Py VadUtils Design.

(** When the integer of line 60 is the integer part of the ratio times
    the capacity, the counts that exceed the one are those that exceed
    the other. *)
Lemma stop_tests_agree (num_voiced : Z) (ratio : Q)
    (d : deque (Frame * bool)) :
  (inject_Z num_voiced <= ratio * inject_Z (maxlen d))%Q ->
  (ratio * inject_Z (maxlen d) < inject_Z num_voiced + 1)%Q ->
  stop_reached_int num_voiced d = stop_reached ratio d.
Proof.
  intros Hlo Hhi. unfold stop_reached_int, stop_reached, Qgt_bool.
  generalize (silence_entries d) as n. intros n.
  set (x := (ratio * inject_Z (maxlen d))%Q) in *.
  destruct (Z.gtb_spec n num_voiced) as [Hgt|Hle].
  - symmetry. apply negb_true_iff.
    destruct (Qle_bool (inject_Z n) x) eqn:E; [|reflexivity].
    exfalso. apply Qle_bool_iff in E.
    assert (Hn : (inject_Z (num_voiced + 1) <= inject_Z n)%Q)
      by (rewrite <- Zle_Qle; lia).
    rewrite inject_Z_plus in Hn. change (inject_Z 1) with 1%Q in Hn.
    apply (Qlt_irrefl x).
    apply (Qlt_le_trans _ _ _ Hhi). apply (Qle_trans _ _ _ Hn E).
  - symmetry. apply negb_false_iff, Qle_bool_iff.
    apply (Qle_trans _ (inject_Z num_voiced)); [|exact Hlo].
    rewrite <- Zle_Qle. exact Hle.
Qed.

Variable self : VADAudio.
Variable num_voiced : Z.
Variable stop : deque (Frame * bool) -> bool.
Hypothesis stop_is :
  forall d, maxlen d = maxlen (ring_buffer self) ->
            stop d = (silence_entries d >? num_voiced).

(** One iteration of the source is one step of the machine. *)
Lemma vad_collector_body_step (st : collector) (frame : Frame) :
  tidy (maxlen (ring_buffer self)) st ->
  exists o,
    collect_step (is_speech self) stop (machine_of st) frame
    = (machine_of (vad_collector_body self num_voiced st frame).1, o)
    /\ (vad_collector_body self num_voiced st frame).2 = option_list o
    /\ tidy (maxlen (ring_buffer self)) (vad_collector_body self num_voiced st frame).1.
Proof.
  intros [Hidle Hcap]. destruct st as [trig voiced r]; simpl in *.
  unfold vad_collector_body, collect_step, machine_of; simpl.
  destruct trig; simpl.
  - rewrite stop_is by (simpl; exact Hcap).
    unfold silence_entries.
    destruct (_ >? num_voiced); simpl; eexists; (split; [reflexivity|]);
      (split; [reflexivity|]); split; simpl; auto; discriminate.
  - rewrite (Hidle eq_refl). unfold start_reached, speech_entries. simpl.
    destruct (Qgt_bool _ _); simpl; eexists; (split; [reflexivity|]);
      (split; [reflexivity|]); split; simpl; auto; discriminate.
Qed.

Lemma vad_collector_loop_run (frames : list Frame) :
  forall st, tidy (maxlen (ring_buffer self)) st ->
    collect_run (is_speech self) stop (machine_of st) frames
    = (machine_of (vad_collector_loop self num_voiced st frames).1,
       (vad_collector_loop self num_voiced st frames).2)
    /\ tidy (maxlen (ring_buffer self)) (vad_collector_loop self num_voiced st frames).1.
Proof.
  induction frames as [|frame frames IH]; intros st Hst; simpl.
  - split; [reflexivity|exact Hst].
  - destruct (vad_collector_body_step st frame Hst) as (o & Hstep & Hout & Hst1).
    rewrite Hstep.
    destruct (vad_collector_body self num_voiced st frame) as [st1 out1].
    simpl in *. destruct (IH st1 Hst1) as [Hrun Hst2]. rewrite Hrun.
    destruct (vad_collector_loop self num_voiced st1 frames) as [st2 out2].
    simpl in *. subst out1. split; [reflexivity|exact Hst2].
Qed.

End VadCollector.

Section VadCollectorDesign.
Import Py VadUtils Design.

(** [vad_collector], when line 60 gives an integer, is the machine of
    the design run with any stop test that reads the ring buffer as the
    source does. *)
Lemma vad_collector_as_machine (self : VADAudio) (frames : list Frame)
    (ratio : float) (num_voiced : Z) (stop : deque (Frame * bool) -> bool) :
  stop_threshold (num_padding_frames self) ratio = Returned num_voiced ->
  (forall d, maxlen d = maxlen (ring_buffer self) ->
     stop d = (silence_entries d >? num_voiced)) ->
  exists segments self1,
    vad_collector self frames ratio = Returned (segments, self1)
    /\ (segments, ring_buffer self1)
       = collect_with (is_speech self) stop (ring_buffer self) frames.
Proof.
  intros Hnv Hstop. unfold vad_collector, collect_with. rewrite Hnv. simpl.
  set (st0 := mkCollector false [] (ring_buffer self)).
  assert (Hst0 : tidy (maxlen (ring_buffer self)) st0) by (split; reflexivity).
  destruct (vad_collector_loop_run self num_voiced stop Hstop frames st0 Hst0)
    as [Hrun [Hidle _]].
  change (mkSegmenter Idle (ring_buffer self)) with (machine_of st0).
  rewrite Hrun.
  destruct (vad_collector_loop self num_voiced st0 frames) as [st out].
  simpl in *. eexists _, _. split; [reflexivity|].
  destruct st as [trig voiced r]; simpl in *.
  destruct trig; simpl.
  - destruct voiced; reflexivity.
  - rewrite (Hidle eq_refl). reflexivity.
Qed.

(** Whenever line 60 gives an integer, [vad_collector] is the machine
    of the design with that integer as its stop threshold. *)
Lemma vad_collector_truncating (self : VADAudio) (frames : list Frame)
    (ratio : float) (num_voiced : Z) :
  stop_threshold (num_padding_frames self) ratio = Returned num_voiced ->
  exists segments self1,
    vad_collector self frames ratio = Returned (segments, self1)
    /\ (segments, ring_buffer self1)
       = collect_with (is_speech self) (stop_reached_int num_voiced)
           (ring_buffer self) frames.
Proof.
  intros Hnv. apply (vad_collector_as_machine _ _ _ _ _ Hnv).
  intros d _. reflexivity.
Qed.

(** What [vad_collector] returns is what its loop gives at the integer
    of line 60. *)
Lemma vad_collector_returned (self : VADAudio) (frames : list Frame)
    (ratio : float) (segments : list byte_string) (self1 : VADAudio) :
  vad_collector self frames ratio = Returned (segments, self1) ->
  exists num_voiced,
    stop_threshold (num_padding_frames self) ratio = Returned num_voiced
    /\ let run := vad_collector_loop self num_voiced
                    (mkCollector false [] (ring_buffer self)) frames in
       segments
       = run.2 ++ match voiced_frames run.1 with
                  | [] => []
                  | _ :: _ => [join (map bytes (voiced_frames run.1))]
                  end
       /\ self1
          = mkVADAudio (vad self) (sample_rate self) (frame_duration self)
              (frame_size self) (padding_ms self) (num_padding_frames self)
              (ring run.1).
Proof.
  unfold vad_collector. intros H.
  destruct (stop_threshold (num_padding_frames self) ratio) as [nv|e];
    [|discriminate H].
  exists nv. split; [reflexivity|]. simpl in H.
  destruct (vad_collector_loop self nv _ frames) as [st out].
  inversion H. split; reflexivity.
Qed.

(** What line 60 raises, [vad_collector] raises, and nothing is
    yielded. *)
Lemma vad_collector_raises (self : VADAudio) (frames : list Frame)
    (ratio : float) (e : exn) :
  stop_threshold (num_padding_frames self) ratio = Raised e ->
  vad_collector self frames ratio = Raised e.
Proof. intros H. unfold vad_collector. rewrite H. reflexivity. Qed.

Lemma vad_collector_floor (self : VADAudio) (frames : list Frame)
    (ratio : float) (num_voiced : Z) :
  ring_as_built self ->
  stop_threshold (num_padding_frames self) ratio = Returned num_voiced ->
  (inject_Z num_voiced
   <= float_value ratio * inject_Z (num_padding_frames self))%Q ->
  (float_value ratio * inject_Z (num_padding_frames self)
   < inject_Z num_voiced + 1)%Q ->
  follows_design self frames ratio.
Proof.
  intros [Hcap Hpos] Hnv Hlo Hhi. unfold follows_design.
  destruct (vad_collector_as_machine self frames ratio num_voiced
              (stop_reached (float_value ratio)) Hnv)
    as (segments & self1 & -> & H).
  - intros d Hd. rewrite <- (stop_tests_agree num_voiced).
    + reflexivity.
    + rewrite Hd, Hcap. exact Hlo.
    + rewrite Hd, Hcap. exact Hhi.
  - exact H.
Qed.


(** Eleven loud frames and twelve silent ones at the default ratio: the
    ninth frame triggers, the tenth silent frame in the ring buffer ends
    the segment of 21 frames, and the two frames left stay in the ring
    buffer. *)
Example vad_collector_one_segment :
  match vad_collector Samples.vad16k
          (Samples.eleven_loud ++ Samples.twelve_quiet)
          Samples.nine_tenths with
  | Returned (segments, self1) =>
      map len segments = [21 * 960]
      /\ len (items (ring_buffer self1)) = 2
  | Raised _ => False
  end.
Proof. vm_compute. split; reflexivity. Qed.



(** It fails as well where the product of the floats is rounded up to
    a whole number. Ten times the float [0.7], which is a little below
    seven tenths, is the float 7: line 60 gives 7, so that the eighth
    silent frame ends the segment, where the seventh already exceeds
    the ratio times the capacity. *)
Remark vad_collector_rounded_ratio :
  stop_threshold (num_padding_frames Samples.vad16k) Samples.seven_tenths
  = Returned 7
  /\ (float_value Samples.seven_tenths
      * inject_Z (num_padding_frames Samples.vad16k) < inject_Z 7)%Q
  /\ ~ follows_design Samples.vad16k
         (Samples.eleven_loud ++ Samples.twelve_quiet) Samples.seven_tenths.
Proof.
  split; [vm_compute; reflexivity|]. split; [vm_compute; reflexivity|].
  unfold follows_design. intros H. vm_compute in H. discriminate H.
Qed.

(** And for a ratio that is infinite or not a number, or so large that
    the product is infinite, line 60 raises and nothing is yielded. *)
Remark vad_collector_no_threshold :
  vad_collector Samples.vad16k Samples.eleven_loud (S754_infinity false)
  = Raised OverflowError
  /\ vad_collector Samples.vad16k Samples.eleven_loud S754_nan
     = Raised ValueError
  /\ vad_collector Samples.vad16k Samples.eleven_loud
       (S754_finite false 5010420900022432 971)
     = Raised OverflowError.
Proof. vm_compute. repeat split; reflexivity. Qed.

(** A count is above a number exactly when it is above its integer
    part. *)
Lemma gt_integer_part (n k : Z) (v : Q) :
  (inject_Z k <= v)%Q -> (v < inject_Z k + 1)%Q ->
  Qgt_bool (inject_Z n) v = (n >? k).
Proof.
  intros Hlo Hhi. unfold Qgt_bool.
  destruct (Z.gtb_spec n k) as [Hgt|Hle].
  - apply negb_true_iff.
    destruct (Qle_bool (inject_Z n) v) eqn:E; [|reflexivity].
    exfalso. apply Qle_bool_iff in E.
    assert (Hn : (inject_Z (k + 1) <= inject_Z n)%Q)
      by (rewrite <- Zle_Qle; lia).
    rewrite inject_Z_plus in Hn. change (inject_Z 1) with 1%Q in Hn.
    apply (Qlt_irrefl v).
    apply (Qlt_le_trans _ _ _ Hhi). apply (Qle_trans _ _ _ Hn E).
  - apply negb_false_iff, Qle_bool_iff.
    apply (Qle_trans _ (inject_Z k)); [|exact Hlo].
    rewrite <- Zle_Qle. exact Hle.
Qed.

(** The test of line 68 with its product of floats is the test with
    the product itself, for every capacity from 0 to 300 and every
    count. *)
Lemma start_test_exact (num_voiced_frames capacity : Z) :
  0 <= capacity <= 300 ->
  start_test num_voiced_frames capacity
  = Returned (Qgt_bool (inject_Z num_voiced_frames)
                       ((8 # 10) * inject_Z capacity)).
Proof.
  intros Hc.
  set (within := fun (k : Z) (v : Q) =>
    Qle_bool (inject_Z k) v && negb (Qle_bool (inject_Z k + 1) v)).
  set (ok := fun c : Z =>
    match float_of_int c with
    | Returned m =>
        match float_mul eight_tenths m with
        | S754_nan | S754_infinity _ => false
        | r => within (8 * c / 10) (float_value r)
               && within (8 * c / 10) ((8 # 10) * inject_Z c)%Q
        end
    | Raised _ => false
    end).
  assert (Hall : forallb ok (map Z.of_nat (seq 0 301)) = true)
    by (vm_compute; reflexivity).
  assert (Hin : In capacity (map Z.of_nat (seq 0 301))).
  { apply in_map_iff. exists (Z.to_nat capacity). split; [lia|].
    apply in_seq. lia. }
  pose proof (proj1 (forallb_forall ok _) Hall capacity Hin) as Hok.
  assert (Hwithin : forall k v, within k v = true ->
            forall n, Qgt_bool (inject_Z n) v = (n >? k)).
  { intros k v Hw n. unfold within in Hw.
    apply andb_true_iff in Hw. destruct Hw as [Hlo Hhi].
    apply gt_integer_part; [apply Qle_bool_iff, Hlo|].
    apply negb_true_iff in Hhi. apply Qnot_le_lt. intros Hle.
    apply Qle_bool_iff in Hle. rewrite Hle in Hhi. discriminate Hhi. }
  unfold ok in Hok. unfold start_test.
  destruct (float_of_int capacity) as [m|e]; [|discriminate Hok].
  cbn -[float_mul int_gt_float]. unfold int_gt_float.
  destruct (float_mul eight_tenths m) as [z|i| |sg mant ex];
    try discriminate Hok;
    apply andb_true_iff in Hok; destruct Hok as [Hr Hx];
    rewrite (Hwithin _ _ Hr), (Hwithin _ _ Hx); reflexivity.
Qed.

(** At the default ratio line 60 gives the integer part of the ratio
    times the capacity for every capacity from 0 to 300. *)
Lemma default_ratio_floor (capacity : Z) :
  0 <= capacity <= 300 ->
  exists num_voiced,
    stop_threshold capacity Samples.nine_tenths = Returned num_voiced
    /\ (inject_Z num_voiced
        <= float_value Samples.nine_tenths * inject_Z capacity)%Q
    /\ (float_value Samples.nine_tenths * inject_Z capacity
        < inject_Z num_voiced + 1)%Q.
Proof.
  intros Hc.
  set (ok := fun c : Z =>
    match stop_threshold c Samples.nine_tenths with
    | Returned nv =>
        Qle_bool (inject_Z nv) (float_value Samples.nine_tenths * inject_Z c)
        && negb (Qle_bool (inject_Z nv + 1)
                   (float_value Samples.nine_tenths * inject_Z c))
    | Raised _ => false
    end).
  assert (Hall : forallb ok (map Z.of_nat (seq 0 301)) = true)
    by (vm_compute; reflexivity).
  assert (Hin : In capacity (map Z.of_nat (seq 0 301))).
  { apply in_map_iff. exists (Z.to_nat capacity). split; [lia|].
    apply in_seq. lia. }
  pose proof (proj1 (forallb_forall ok _) Hall capacity Hin) as Hok.
  unfold ok in Hok.
  destruct (stop_threshold capacity Samples.nine_tenths) as [nv|e];
    [|discriminate Hok].
  apply andb_true_iff in Hok. destruct Hok as [Hlo Hhi].
  exists nv. split; [reflexivity|]. split.
  - apply Qle_bool_iff, Hlo.
  - apply negb_true_iff in Hhi. apply Qnot_le_lt. intros Hle.
    apply Qle_bool_iff in Hle. rewrite Hle in Hhi. discriminate Hhi.
Qed.

(** So at the default ratio every segmenter with a ring buffer as
    [__init__] builds it is the machine of the design. *)
Lemma vad_collector_default_ratio (self : VADAudio) (frames : list Frame) :
  ring_as_built self ->
  num_padding_frames self <= 300 ->
  follows_design self frames Samples.nine_tenths.
Proof.
  intros Hbuilt Hmax. pose proof Hbuilt as [_ Hpos].
  destruct (default_ratio_floor (num_padding_frames self))
    as (nv & Hnv & Hlo & Hhi); [lia|].
  exact (vad_collector_floor self frames _ nv Hbuilt Hnv Hlo Hhi).
Qed.

End VadCollectorDesign.

(** ** audio_listener.py: the rolling buffer *)

Section RollingBuffer.
Import Py AudioListener.

Lemma drop_drop_app {A} (l b : list A) (k n : nat) :
  (k <= length l)%nat -> drop n (drop k l ++ b) = drop (k + n) (l ++ b).
Proof.
  intros Hk. rewrite <- (drop_app_le l b k) by exact Hk.
  apply drop_drop.
Qed.

(** One callback leaves the capacity alone and keeps the newest
    [MAX_BUFFER_LEN] bytes of the buffer extended by the block. *)
Lemma callback_buffer (self : AudioListener) (block : byte_string) :
  0 < MAX_BUFFER_LEN self ->
  MAX_BUFFER_LEN (_callback self block) = MAX_BUFFER_LEN self
  /\ buffer (_callback self block)
     = drop (length (buffer self ++ block) - Z.to_nat (MAX_BUFFER_LEN self))
            (buffer self ++ block).
Proof.
  intros Hmax. unfold _callback. simpl.
  set (longer := buffer self ++ block).
  destruct (len longer >? MAX_BUFFER_LEN self) eqn:E; simpl.
  - rewrite (slice_from_neg (MAX_BUFFER_LEN self)) by exact Hmax.
    destruct (len block >=? frame_size self); simpl;
      [destruct (VadUtils.is_speech _ _)|]; simpl; split; reflexivity.
  - assert (Hle : len longer <= MAX_BUFFER_LEN self).
    { destruct (Z.gtb_spec (len longer) (MAX_BUFFER_LEN self)); [discriminate|lia]. }
    unfold len in Hle.
    replace (length longer - Z.to_nat (MAX_BUFFER_LEN self))%nat with 0%nat by lia.
    rewrite drop_0.
    destruct (len block >=? frame_size self); simpl;
      [destruct (VadUtils.is_speech _ _)|]; simpl; split; reflexivity.
Qed.

(** With a capacity of zero the slice [buffer[-0:]] is the whole
    buffer, and nothing is dropped. *)
Remark callback_buffer_zero_capacity (self : AudioListener) (block : byte_string) :
  MAX_BUFFER_LEN self = 0 ->
  buffer (_callback self block) = buffer self ++ block.
Proof.
  intros Hmax. unfold _callback. simpl. rewrite Hmax.
  destruct (len (buffer self ++ block) >? 0); simpl;
    rewrite ?slice_from_neg_zero;
    destruct (len block >=? frame_size self); simpl;
    try destruct (VadUtils.is_speech _ _); reflexivity.
Qed.

Lemma callbacks_buffer (blocks : list byte_string) :
  forall self : AudioListener,
    0 < MAX_BUFFER_LEN self ->
    len (buffer self) <= MAX_BUFFER_LEN self ->
    MAX_BUFFER_LEN (callbacks self blocks) = MAX_BUFFER_LEN self
    /\ buffer (callbacks self blocks)
       = drop (length (buffer self ++ concat blocks)
               - Z.to_nat (MAX_BUFFER_LEN self))
              (buffer self ++ concat blocks).
Proof.
  induction blocks as [|block blocks IH]; intros self Hmax Hlen; simpl.
  - split; [reflexivity|]. rewrite app_nil_r. unfold len in Hlen.
    replace (length (buffer self) - Z.to_nat (MAX_BUFFER_LEN self))%nat
      with 0%nat by lia.
    reflexivity.
  - destruct (callback_buffer self block Hmax) as [Hcap Hbuf].
    destruct (IH (_callback self block)) as [Hcap' Hbuf'].
    { rewrite Hcap. exact Hmax. }
    { rewrite Hcap, Hbuf. unfold len. rewrite length_drop. lia. }
    unfold callbacks in *. split; [congruence|].
    rewrite Hbuf', Hcap, Hbuf.
    set (m := Z.to_nat (MAX_BUFFER_LEN self)).
    set (k := (length (buffer self ++ block) - m)%nat).
    rewrite drop_drop_app by (subst k; lia).
    rewrite <- app_assoc. f_equal.
    rewrite !length_app, length_drop, !length_app. subst k.
    rewrite !length_app. lia.
Qed.

(** C5: from a buffer within its capacity, after any sequence of
    blocks appended by the callback the rolling buffer is no longer
    than [MAX_BUFFER_LEN], it is a suffix of all the bytes appended, and
    it is the longest such suffix: only the oldest bytes are dropped.
    The capacity is taken positive, as every frame size the classifier
    accepts makes it. *)
Theorem callback_buffer_bounded_suffix (self : AudioListener)
    (blocks : list byte_string) :
  0 < MAX_BUFFER_LEN self ->
  len (buffer self) <= MAX_BUFFER_LEN self ->
  let appended := buffer self ++ concat blocks in
  len (buffer (callbacks self blocks)) <= MAX_BUFFER_LEN self
  /\ buffer (callbacks self blocks) `suffix_of` appended
  /\ len (buffer (callbacks self blocks))
     = Z.min (len appended) (MAX_BUFFER_LEN self).
Proof.
  intros Hmax Hlen appended.
  destruct (callbacks_buffer blocks self Hmax Hlen) as [_ Hbuf].
  fold appended in Hbuf. rewrite Hbuf.
  split; [|split].
  - unfold len. rewrite length_drop. lia.
  - apply suffix_drop.
  - unfold len. rewrite length_drop. lia.
Qed.

(** A capacity of 200 bytes (frames of two bytes): after a block of 200
    bytes and a block of four, the buffer is the last 196 bytes of the
    first followed by the second. *)
Example callbacks_drop_oldest :
  buffer (callbacks Samples.listener_1ms
            [repeat x01 200; [x02; x03; x04; x05]])
  = repeat x01 196 ++ [x02; x03; x04; x05].
Proof. vm_compute. reflexivity. Qed.

(** C5 at the running default listener and two blocks. *)
Lemma callback_buffer_bounded_suffix_witness :
  0 < MAX_BUFFER_LEN Samples.running16k
  /\ len (buffer Samples.running16k) <= MAX_BUFFER_LEN Samples.running16k
  /\ (let appended :=
         buffer Samples.running16k ++ concat [[x01; x02]; [x03; x04]] in
       len (buffer (callbacks Samples.running16k [[x01; x02]; [x03; x04]]))
       <= MAX_BUFFER_LEN Samples.running16k
       /\ buffer (callbacks Samples.running16k [[x01; x02]; [x03; x04]])
          `suffix_of` appended
       /\ len (buffer (callbacks Samples.running16k [[x01; x02]; [x03; x04]]))
          = Z.min (len appended) (MAX_BUFFER_LEN Samples.running16k)).
Proof.
  assert (H1 : 0 < MAX_BUFFER_LEN Samples.running16k) by reflexivity.
  assert (H2 : len (buffer Samples.running16k)
               <= MAX_BUFFER_LEN Samples.running16k)
    by (vm_compute; discriminate).
  split; [exact H1|]. split; [exact H2|].
  exact (callback_buffer_bounded_suffix Samples.running16k
           [[x01; x02]; [x03; x04]] H1 H2).
Defined.

End RollingBuffer.

(** ** audio_listener.py: the speaking flag and [start_listening] *)

Section SpeakingFlag.
Import Py AudioListener.

(** C9, amended: a callback whose block is at least one frame long
    sets the speaking flag to the class of the last [frame_size] bytes
    of the block, a chunk of exactly one frame; a callback whose block
    is shorter leaves the flag as it was. *)
Theorem callback_speaking_flag (self : AudioListener) (block : byte_string) :
  0 < frame_size self ->
  (frame_size self <= len block ->
     let chunk := drop (length block - Z.to_nat (frame_size self)) block in
     len chunk = frame_size self
     /\ speech_detected (_callback self block)
        = VadUtils.is_speech (vad self) chunk)
  /\ (len block < frame_size self ->
        speech_detected (_callback self block) = speech_detected self).
Proof.
  intros Hn. split.
  - intros Hlen chunk. unfold _callback.
    split; [subst chunk; unfold len in *; rewrite length_drop; lia|].
    destruct (len (buffer _) >? MAX_BUFFER_LEN _); simpl;
      (destruct (len block >=? frame_size self) eqn:E;
       [|rewrite Z.geb_leb in E; apply Z.leb_gt in E; lia]);
      rewrite slice_from_neg by exact Hn; fold chunk;
      destruct (VadUtils.is_speech (vad self) chunk); reflexivity.
  - intros Hlen. unfold _callback.
    destruct (len (buffer _) >? MAX_BUFFER_LEN _); simpl;
      (destruct (len block >=? frame_size self) eqn:E;
       [rewrite Z.geb_leb in E; apply Z.leb_le in E; lia|]); reflexivity.
Qed.

(** The amended C9 at the running default listener: a block of one
    sample leaves the flag down. *)
Lemma callback_speaking_flag_witness :
  0 < frame_size Samples.running16k
  /\ len [x00; x00] < frame_size Samples.running16k
  /\ speech_detected (_callback Samples.running16k [x00; x00])
     = speech_detected Samples.running16k.
Proof.
  assert (H1 : 0 < frame_size Samples.running16k) by reflexivity.
  assert (H2 : len [x00; x00] < frame_size Samples.running16k) by reflexivity.
  split; [exact H1|]. split; [exact H2|].
  exact (proj2 (callback_speaking_flag Samples.running16k [x00; x00] H1) H2).
Defined.

(** C9 as stated fails on a block shorter than a frame. The running
    listener has a frame of loud bytes in its buffer and its flag
    down; after a block of one silent sample the last 960 bytes of
    buffer and block are loud, so the design has the flag up, and the
    source, which skips the classifier for such a block, leaves it
    down. *)
Lemma callback_short_block_keeps_flag :
  len [x00; x00] < frame_size Samples.running16k
  /\ Design.flag_as_designed Samples.running16k [x00; x00] = true
  /\ speech_detected (_callback Samples.running16k [x00; x00]) = false.
Proof. split; [reflexivity|]. split; vm_compute; reflexivity. Qed.

(** C7, amended: on a running loop [start_listening] returns without
    an error and changes nothing, so no second thread is started; on a
    stopped loop it returns with the buffer empty, the flag cleared,
    the loop marked as listening and a new thread started and kept in
    [thread]. *)
Theorem start_listening_guarded (self : AudioListener) (rt : runtime) :
  (listening self = true ->
     start_listening self rt = (Returned tt, self, rt))
  /\ (listening self = false ->
        exists self1 rt1,
          start_listening self rt = (Returned tt, self1, rt1)
          /\ buffer self1 = []
          /\ speech_detected self1 = false
          /\ listening self1 = true
          /\ thread self1 = Some (next_tid rt)
          /\ rt1 = (thread_start rt).2
          /\ alive rt1 = {[next_tid rt]} ∪ alive rt).
Proof.
  unfold start_listening. split; intros ->.
  - reflexivity.
  - simpl. eexists _, _. repeat split; reflexivity.
Qed.

(** The amended C7 at the running default listener. *)
Lemma start_listening_guarded_witness :
  listening Samples.running16k = true
  /\ start_listening Samples.running16k Samples.one_thread
     = (Returned tt, Samples.running16k, Samples.one_thread).
Proof.
  split; [reflexivity|].
  exact (proj1 (start_listening_guarded Samples.running16k Samples.one_thread)
               eq_refl).
Defined.

(** C7 as stated fails on a running loop: the design has the call end
    in the error [AlreadyListening], the source has it return. *)
Lemma start_listening_running_returns :
  listening Samples.running16k = true
  /\ start_listening Samples.running16k Samples.one_thread
     <> Design.start_as_designed Samples.running16k Samples.one_thread.
Proof. split; [reflexivity|]. intros H. vm_compute in H. discriminate H. Qed.

End SpeakingFlag.

(** ** stt1.py, llm.py and tts1.py *)

Section Collaborators.
Import Py.
Local Open Scope string_scope.

Lemma is_empty_true (s : string) : is_empty s = true <-> s = "".
Proof. unfold is_empty. apply String.eqb_eq. Qed.

Lemma is_empty_false (s : string) : is_empty s = false <-> s <> "".
Proof. unfold is_empty. apply String.eqb_neq. Qed.

Lemma lstrip_blank (s : string) : Design.blank s -> lstrip s = "".
Proof.
  unfold Design.blank. induction s as [|c s IH]; simpl; intros H.
  - reflexivity.
  - inversion H as [|? ? Hc Hs]; subst. rewrite Hc. exact (IH Hs).
Qed.

Lemma strip_blank (s : string) : Design.blank s -> strip s = "".
Proof. intros H. unfold strip. rewrite (lstrip_blank s H). reflexivity. Qed.

Lemma lstrip_head (s : string) :
  lstrip s = "" \/ exists c r, lstrip s = String c r /\ isspace c = false.
Proof.
  induction s as [|c s IH]; simpl.
  - left. reflexivity.
  - destruct (isspace c) eqn:E; [exact IH|].
    right. exists c, s. split; [reflexivity|exact E].
Qed.

Lemma lstrip_empty_blank (s : string) : lstrip s = "" -> Design.blank s.
Proof.
  unfold Design.blank. induction s as [|c s IH]; simpl; intros H.
  - constructor.
  - destruct (isspace c) eqn:E; [|discriminate].
    constructor; [exact E|exact (IH H)].
Qed.

(** [text.strip()] is empty for the blank texts and for no other. *)
Lemma strip_empty_iff (s : string) : strip s = "" <-> Design.blank s.
Proof.
  split; [|apply strip_blank]. unfold strip. intros H.
  destruct (lstrip_head s) as [He|(c & r & He & Hc)].
  - apply lstrip_empty_blank, He.
  - rewrite He in H. simpl in H. rewrite Hc in H. discriminate.
Qed.

Lemma get_session_returns (env : ConversationManager.manager_env)
    (self : gmap string ConversationManager.Session) (session_id : string) :
  exists self1 session,
    ConversationManager.get_session env self session_id
    = Returned (self1, session)
    /\ self1 !! session_id = Some session.
Proof.
  unfold ConversationManager.get_session.
  destruct (self !! session_id) as [session|] eqn:E.
  - exists self, session. split; [reflexivity|exact E].
  - simpl. eexists _, _. split; [reflexivity|].
    apply lookup_insert_eq.
Qed.

Lemma transcribe_audio_returns (whisper : string -> result string)
    (file_path : string) :
  exists text, Stt.transcribe_audio whisper file_path = Returned text.
Proof.
  unfold Stt.transcribe_audio, try_except.
  destruct (whisper file_path) as [answer|e]; [|eexists; reflexivity].
  destruct (is_empty (strip answer)); eexists; reflexivity.
Qed.

Lemma query_llm_returns (chat : string -> result string) (prompt : string) :
  exists reply, Llm.query_llm chat prompt = Returned reply.
Proof.
  unfold Llm.query_llm, try_except.
  destruct (chat (strip prompt)); eexists; reflexivity.
Qed.

(** The block of [process_turn] under the lock returns once the audio
    is written to its file, and leaves the session in the dictionary. *)
Lemma process_turn_block_returns (env : ConversationManager.manager_env)
    (self : gmap string ConversationManager.Session) (session_id : string)
    (audio_bytes : byte_string) (wav_path : string) :
  ConversationManager.save_file env audio_bytes = Returned wav_path ->
  exists self1 response session1,
    ConversationManager.process_turn_block env self session_id audio_bytes
    = Returned (self1, response)
    /\ self1 !! session_id = Some session1.
Proof.
  intros Hsave. unfold ConversationManager.process_turn_block.
  destruct (get_session_returns env self session_id)
    as (self1 & session & -> & _).
  simpl. rewrite Hsave. simpl.
  destruct (transcribe_audio_returns (ConversationManager.whisper env)
              wav_path) as [text ->]. simpl.
  match goal with
  | |- context [let '(_, _) := ?m in _] => destruct m as [text1 h]
  end.
  destruct (query_llm_returns (ConversationManager.chat env) text1)
    as [reply ->]. simpl.
  eexists _, _, _. split; [reflexivity|]. apply lookup_insert_eq.
Qed.

(** Lines 82 to 89 change the playback thread and the flag of the
    session, and nothing else of it. *)
Lemma replace_playback_thread_history (session : ConversationManager.Session)
    (rt : AudioListener.runtime) :
  ConversationManager.history
    (ConversationManager.replace_playback_thread session rt).1
  = ConversationManager.history session.
Proof.
  unfold ConversationManager.replace_playback_thread.
  destruct (ConversationManager.playback_thread session) as [t|];
    [destruct (bool_decide _)|]; reflexivity.
Qed.

Lemma replace_playback_thread_effects (session : ConversationManager.Session)
    (rt : AudioListener.runtime) :
  let session1 := (ConversationManager.replace_playback_thread session rt).1 in
  let rt1 := (ConversationManager.replace_playback_thread session rt).2 in
  ConversationManager.listener session1 = ConversationManager.listener session
  /\ ConversationManager.sliding_window session1
     = ConversationManager.sliding_window session
  /\ ConversationManager.playback_thread session1
     = Some (AudioListener.next_tid rt)
  /\ AudioListener.next_tid rt1 = S (AudioListener.next_tid rt)
  /\ AudioListener.alive rt1
     = {[AudioListener.next_tid rt]}
       ∪ (AudioListener.alive rt
          ∖ match ConversationManager.playback_thread session with
            | Some t => {[t]}
            | None => ∅
            end).
Proof.
  unfold ConversationManager.replace_playback_thread.
  destruct (ConversationManager.playback_thread session) as [t|].
  - destruct (bool_decide (t ∈ AudioListener.alive rt)) eqn:Hd; simpl;
      (do 4 (split; [reflexivity|])).
    + reflexivity.
    + apply bool_decide_eq_false in Hd. apply leibniz_equiv. set_solver.
  - simpl. do 4 (split; [reflexivity|]). apply leibniz_equiv. set_solver.
Qed.

(** [_play_response_async] for a session that exists. *)
Lemma play_response_async_known (env : ConversationManager.manager_env)
    (self : gmap string ConversationManager.Session)
    (rt : AudioListener.runtime) (session_id text : string)
    (session : ConversationManager.Session) :
  self !! session_id = Some session ->
  ConversationManager._play_response_async env self rt session_id text
  = Returned
      (<[session_id :=
           (ConversationManager.replace_playback_thread session rt).1]> self,
       (ConversationManager.replace_playback_thread session rt).2).
Proof.
  intros Hs.
  unfold ConversationManager._play_response_async,
    ConversationManager.get_session.
  rewrite Hs. simpl.
  destruct (ConversationManager.replace_playback_thread session rt).
  reflexivity.
Qed.

(** [process_turn] after its block: line 120 on the session the block
    left. *)
Lemma process_turn_after_block (env : ConversationManager.manager_env)
    (self self1 : gmap string ConversationManager.Session)
    (rt : AudioListener.runtime) (session_id : string)
    (audio_bytes : byte_string) (response : string)
    (session1 : ConversationManager.Session) :
  ConversationManager.process_turn_block env self session_id audio_bytes
  = Returned (self1, response) ->
  self1 !! session_id = Some session1 ->
  ConversationManager.process_turn env self rt session_id audio_bytes
  = Returned
      (<[session_id :=
           (ConversationManager.replace_playback_thread session1 rt).1]> self1,
       (ConversationManager.replace_playback_thread session1 rt).2,
       response).
Proof.
  intros Hb Hs. unfold ConversationManager.process_turn.
  rewrite Hb. simpl.
  rewrite (play_response_async_known env self1 rt session_id response
             session1 Hs).
  reflexivity.
Qed.

(** A failure of the block is the failure of [process_turn]. *)
Lemma process_turn_block_raises (env : ConversationManager.manager_env)
    (self : gmap string ConversationManager.Session)
    (rt : AudioListener.runtime) (session_id : string)
    (audio_bytes : byte_string) (e : exn) :
  ConversationManager.process_turn_block env self session_id audio_bytes
  = Raised e ->
  ConversationManager.process_turn env self rt session_id audio_bytes
  = Raised e.
Proof.
  intros Hb. unfold ConversationManager.process_turn. rewrite Hb.
  reflexivity.
Qed.

(** C6: [transcribe_audio] and [query_llm] return for every behaviour
    of their service. [transcribe_audio] returns a text that is not
    empty: one fixed sentence when the service raises, another when it
    answers a blank text, the stripped answer otherwise. [query_llm]
    returns its fixed sentence when the service raises. So
    [process_turn], once the audio is written to its file, returns
    with a reply. *)
Theorem collaborators_never_raise
    (whisper chat : string -> result string) (file_path prompt : string) :
  (exists text,
     Stt.transcribe_audio whisper file_path = Returned text
     /\ text <> ""
     /\ (forall e, whisper file_path = Raised e ->
           text = "Sorry, I couldn't understand the audio.")
     /\ (forall answer, whisper file_path = Returned answer ->
           strip answer = "" -> text = "Sorry, I couldn't hear you clearly.")
     /\ (forall answer, whisper file_path = Returned answer ->
           strip answer <> "" -> text = strip answer))
  /\ (exists reply,
        Llm.query_llm chat prompt = Returned reply
        /\ (forall e, chat (strip prompt) = Raised e ->
              reply = "I'm sorry, I couldn't generate a response at the moment. Please try again later.")
        /\ (forall answer, chat (strip prompt) = Returned answer ->
              reply = strip answer))
  /\ (forall classifier save_file self rt session_id audio_bytes wav_path,
        let env := ConversationManager.mkManagerEnv
                     classifier save_file whisper chat in
        save_file audio_bytes = Returned wav_path ->
        exists self1 rt1 response,
          ConversationManager.process_turn env self rt session_id audio_bytes
          = Returned (self1, rt1, response)).
Proof.
  pose proof (transcribe_audio_returns whisper) as Htr.
  pose proof (query_llm_returns chat) as Hq.
  split; [|split].
  - unfold Stt.transcribe_audio, try_except.
    destruct (whisper file_path) as [answer|e].
    + destruct (is_empty (strip answer)) eqn:E.
      * apply is_empty_true in E. eexists. split; [reflexivity|].
        split; [discriminate|]. split; [discriminate|].
        split; [reflexivity|]. intros a Ha Hne. inversion Ha; subst.
        contradiction.
      * apply is_empty_false in E. eexists. split; [reflexivity|].
        split; [exact E|]. split; [discriminate|].
        split; intros a Ha Hs; inversion Ha; subst;
          [contradiction|reflexivity].
    + eexists. split; [reflexivity|]. split; [discriminate|].
      split; [reflexivity|]. split; discriminate.
  - unfold Llm.query_llm, try_except.
    destruct (chat (strip prompt)) as [answer|e]; eexists;
      (split; [reflexivity|]); split; try discriminate;
      try reflexivity; intros a Ha; inversion Ha; reflexivity.
  - intros classifier save_file self rt session_id audio_bytes wav_path env
      Hsave.
    destruct (process_turn_block_returns env self session_id audio_bytes
                wav_path Hsave) as (self1 & response & session1 & Hb & Hs).
    rewrite (process_turn_after_block env self self1 rt session_id
               audio_bytes response session1 Hb Hs).
    eexists _, _, _. reflexivity.
Qed.

(** An answer of spaces only is not heard; an answer is stripped. *)
Example transcribe_audio_blank_answer :
  Stt.transcribe_audio (fun _ => Returned "   ") "turn.wav"
  = Returned "Sorry, I couldn't hear you clearly.".
Proof. reflexivity. Qed.

Example transcribe_audio_strips :
  Stt.transcribe_audio (fun _ => Returned "  What is a limit? ") "turn.wav"
  = Returned "What is a limit?".
Proof. reflexivity. Qed.

Example query_llm_down :
  Llm.query_llm Samples.chat_down "What is a limit?"
  = Returned "I'm sorry, I couldn't generate a response at the moment. Please try again later.".
Proof. reflexivity. Qed.

(** The fallback of a failed transcription reads as a continuation: it
    has [and] in [understand]. *)
Example fallback_is_followup :
  ConversationManager._is_followup
    "Sorry, I couldn't understand the audio." "what is a derivative" = true.
Proof. reflexivity. Qed.

(** C6 at a transcription service that is down. *)
Lemma collaborators_never_raise_witness :
  Samples.whisper_down "turn.wav" = Raised (NamedError "APIError")
  /\ Stt.transcribe_audio Samples.whisper_down "turn.wav"
     = Returned "Sorry, I couldn't understand the audio.".
Proof.
  split; [reflexivity|].
  destruct (proj1 (collaborators_never_raise Samples.whisper_down
                     Samples.chat_echo "turn.wav" ""))
    as (text & Heq & _ & Hdown & _).
  rewrite Heq. f_equal. exact (Hdown _ eq_refl).
Defined.

(** C10: for a text that is empty or made of whitespace only,
    [generate_speech] returns [None] and does nothing else: no client
    is created, nothing is synthesized and no file is looked for. *)
Theorem generate_speech_skips_blank (env : Tts.tts_env) (text : string)
    (o : Tts.speech_options) :
  Design.blank text ->
  Tts.generate_speech env text o = (Tts.PyNone, []).
Proof.
  intros H. unfold Tts.generate_speech.
  rewrite (strip_blank text H). reflexivity.
Qed.

(** C10 at a text of three spaces. *)
Lemma generate_speech_skips_blank_witness :
  Design.blank "   "
  /\ Tts.generate_speech Samples.tts_world "   " Tts.default_options
     = (Tts.PyNone, []).
Proof.
  assert (H : Design.blank "   ") by (repeat constructor).
  split; [exact H|].
  exact (generate_speech_skips_blank Samples.tts_world "   "
           Tts.default_options H).
Defined.

(** Any other text reaches the client. *)
Lemma generate_speech_reaches_client (env : Tts.tts_env) (text : string)
    (o : Tts.speech_options) :
  ~ Design.blank text ->
  exists rest, (Tts.generate_speech env text o).2 = Tts.ClientInit :: rest.
Proof.
  intros H. unfold Tts.generate_speech.
  destruct (is_empty (strip text)) eqn:E.
  - apply is_empty_true, strip_empty_iff in E. contradiction.
  - destruct (Tts.client_init env); [|eexists; reflexivity].
    destruct (Tts.synthesize env _); [|eexists; reflexivity].
    destruct (negb _); [eexists; reflexivity|].
    destruct (Tts.return_metadata o); eexists; reflexivity.
Qed.

End Collaborators.

(** ** conversation_manager.py: merging a follow-up *)

Section FollowUp.
Import Py ConversationManager.
Local Open Scope string_scope.

Lemma prefix_occurs (kw s : string) :
  String.prefix kw s = true <-> exists after, s = kw ++ after.
Proof.
  revert s. induction kw as [|a kw IH]; intros s.
  - destruct s; simpl; (split; [intros _; eexists; reflexivity|reflexivity]).
  - destruct s as [|b s]; simpl.
    + split; [discriminate|intros [after H]; discriminate].
    + destruct (ascii_dec a b) as [->|Hne].
      * rewrite IH. split; intros [after H]; exists after.
        -- rewrite H. reflexivity.
        -- inversion H. reflexivity.
      * split; [discriminate|]. intros [after H]. inversion H. congruence.
Qed.

Lemma contains_unfold (kw s : string) :
  contains kw s
  = if String.prefix kw s then true
    else match s with
         | EmptyString => false
         | String _ s' => contains kw s'
         end.
Proof. destruct s; reflexivity. Qed.

(** [kw in s] holds exactly when [kw] occurs in [s]. *)
Lemma contains_occurs (kw s : string) :
  contains kw s = true <-> Design.occurs_in kw s.
Proof.
  unfold Design.occurs_in. induction s as [|c s IH]; rewrite contains_unfold.
  - destruct (String.prefix kw "") eqn:E.
    + apply prefix_occurs in E. destruct E as [after E].
      split; [intros _; exists "", after; exact E|reflexivity].
    + split; [discriminate|]. intros (before & after & H).
      destruct before; [|discriminate]. simpl in H.
      assert (String.prefix kw "" = true)
        by (apply prefix_occurs; exists after; exact H).
      congruence.
  - destruct (String.prefix kw (String c s)) eqn:E.
    + apply prefix_occurs in E. destruct E as [after E].
      split; [intros _; exists "", after; exact E|reflexivity].
    + rewrite IH. split.
      * intros (before & after & H). exists (String c before), after.
        simpl. rewrite H. reflexivity.
      * intros (before & after & H). destruct before as [|b before].
        -- simpl in H.
           assert (String.prefix kw (String c s) = true)
             by (apply prefix_occurs; exists after; exact H).
           congruence.
        -- inversion H. exists before, after. reflexivity.
Qed.

(** The keyword test of [_is_followup] is the keyword condition of the
    design. *)
Lemma keyword_test (text : string) :
  existsb (fun kw => contains kw (lower text)) keywords = true
  <-> Design.has_keyword text.
Proof.
  unfold Design.has_keyword. rewrite existsb_exists.
  split; intros (kw & Hin & H); exists kw; (split; [exact Hin|]);
    apply contains_occurs; exact H.
Qed.

Lemma _is_followup_spec (new_input last_input : string) :
  _is_followup new_input last_input = true
  <-> last_input <> "" /\ Design.has_keyword new_input.
Proof.
  unfold _is_followup, is_empty.
  destruct (String.eqb_spec last_input "") as [->|Hne].
  - split; [discriminate|]. intros [H _]. contradiction.
  - rewrite keyword_test. tauto.
Qed.

Lemma history_pop_snoc (h : list turn) (e : turn) :
  history_pop (h ++ [e]) = h.
Proof.
  unfold history_pop. rewrite length_app. simpl.
  apply take_app_length'. lia.
Qed.

Lemma user_entries_snoc (h : list turn) (e : turn) :
  Design.user_entries (h ++ [e])
  = (Design.user_entries h + if String.eqb (role e) "user" then 1 else 0)%nat.
Proof.
  unfold Design.user_entries. rewrite List.filter_app, length_app. simpl.
  destruct (String.eqb (role e) "user"); reflexivity.
Qed.

(** The block of [process_turn] under the lock, on a session that
    exists: what is transcribed, what goes to the language model, and
    the history it leaves. *)
Lemma process_turn_block_turn (env : manager_env)
    (self : gmap string Session) (session_id : string)
    (audio_bytes : byte_string) (session : Session) (wav_path : string) :
  self !! session_id = Some session ->
  save_file env audio_bytes = Returned wav_path ->
  exists text said response h1,
    Stt.transcribe_audio (whisper env) wav_path = Returned text
    /\ Llm.query_llm (chat env) said = Returned response
    /\ process_turn_block env self session_id audio_bytes
       = Returned (<[session_id := set_history session h1]> self, response)
    /\ Design.turn_as_designed Design.continuation (history session)
         text said response h1.
Proof.
  intros Hs Hsave. unfold process_turn_block, get_session. rewrite Hs. simpl.
  rewrite Hsave. simpl.
  destruct (transcribe_audio_returns (whisper env) wav_path) as [text Htext].
  rewrite Htext. simpl. exists text.
  unfold history_last.
  destruct (last (history session)) as [e|] eqn:Hlast.
  - apply last_Some in Hlast. destruct Hlast as [h0 Hh].
    destruct (String.eqb_spec (role e) "user") as [Hrole|Hrole].
    + destruct (_is_followup text (content e)) eqn:Hf.
      * apply _is_followup_spec in Hf. destruct Hf as [Hne Hkw].
        destruct (query_llm_returns (chat env) (content e ++ " " ++ text))
          as [response Hr].
        rewrite Hr. simpl. rewrite Hh, history_pop_snoc, <- app_assoc. simpl.
        eexists _, response, _. split; [reflexivity|]. split; [exact Hr|].
        split; [reflexivity|]. left. split.
        -- exists h0, e. auto.
        -- exists h0, e. split; [reflexivity|]. split; [reflexivity|].
           split; [reflexivity|].
           rewrite !user_entries_snoc. simpl. rewrite Hrole. reflexivity.
      * destruct (query_llm_returns (chat env) text) as [response Hr].
        rewrite Hr. simpl. rewrite <- app_assoc. simpl.
        eexists _, response, _. split; [reflexivity|]. split; [exact Hr|].
        split; [reflexivity|]. right. split; [|split; [reflexivity|split]].
        -- intros (h0' & prev & Hh' & _ & Hne & Hkw).
           rewrite Hh in Hh'. apply app_inj_tail in Hh'.
           destruct Hh' as [_ <-].
           assert (_is_followup text (content e) = true)
             by (apply _is_followup_spec; auto).
           congruence.
        -- reflexivity.
        -- rewrite user_entries_snoc. simpl. lia.
    + destruct (query_llm_returns (chat env) text) as [response Hr].
      rewrite Hr. simpl. rewrite <- app_assoc. simpl.
      eexists _, response, _. split; [reflexivity|]. split; [exact Hr|].
      split; [reflexivity|]. right. split; [|split; [reflexivity|split]].
      * intros (h0' & prev & Hh' & Hu & _).
        rewrite Hh in Hh'. apply app_inj_tail in Hh'.
        destruct Hh' as [_ <-]. contradiction.
      * reflexivity.
      * rewrite user_entries_snoc. simpl. lia.
  - apply last_None in Hlast.
    destruct (query_llm_returns (chat env) text) as [response Hr].
    rewrite Hr. simpl. rewrite <- app_assoc. simpl.
    eexists _, response, _. split; [reflexivity|]. split; [exact Hr|].
    split; [reflexivity|]. right. split; [|split; [reflexivity|split]].
    + intros (h0' & prev & Hh' & _). rewrite Hlast in Hh'.
      destruct h0'; discriminate.
    + reflexivity.
    + rewrite user_entries_snoc. simpl. lia.
Qed.

(** C3, amended: in [process_turn] the new transcription is merged
    into the last history entry exactly when that entry exists, has
    the role [user] and a content that is not empty, and the lowered
    text contains one of the keywords [also], [and], [by the way],
    [what about], [continue]. Merging replaces the last entry by one
    whose content is the previous text, a space and the new text, so
    the user entries stay as many; in every other case the text is
    appended as a new user entry. The reply of the language model to
    what was said follows as an assistant entry. *)
Theorem process_turn_merges_followup (env : manager_env)
    (self : gmap string Session) (rt : AudioListener.runtime)
    (session_id : string) (audio_bytes : byte_string) (session : Session)
    (wav_path : string) :
  self !! session_id = Some session ->
  save_file env audio_bytes = Returned wav_path ->
  exists text said response h1,
    Stt.transcribe_audio (whisper env) wav_path = Returned text
    /\ Llm.query_llm (chat env) said = Returned response
    /\ process_turn env self rt session_id audio_bytes
       = Returned
           (<[session_id :=
                (replace_playback_thread (set_history session h1) rt).1]> self,
            (replace_playback_thread (set_history session h1) rt).2,
            response)
    /\ history (replace_playback_thread (set_history session h1) rt).1 = h1
    /\ Design.turn_as_designed Design.continuation (history session)
         text said response h1.
Proof.
  intros Hs Hsave.
  destruct (process_turn_block_turn env self session_id audio_bytes session
              wav_path Hs Hsave) as (text & said & response & h1 & Ht & Hr
                                       & Hb & Hd).
  exists text, said, response, h1.
  split; [exact Ht|]. split; [exact Hr|]. split; [|split; [|exact Hd]].
  - rewrite (process_turn_after_block env self _ rt session_id audio_bytes
               response (set_history session h1) Hb
               (lookup_insert_eq _ _ _)).
    rewrite insert_insert_eq. reflexivity.
  - apply replace_playback_thread_history.
Qed.

(** The amended C3 on the scenario of the design: after the user
    turn [what is a derivative], the text [and also explain that]. *)
Lemma process_turn_merges_followup_witness :
  Samples.derivative_sessions !! "s" = Some Samples.derivative_session
  /\ save_file Samples.also_world [x01] = Returned "turn.wav"
  /\ exists text said response h1,
       Stt.transcribe_audio (whisper Samples.also_world) "turn.wav"
       = Returned text
       /\ Llm.query_llm (chat Samples.also_world) said = Returned response
       /\ process_turn Samples.also_world Samples.derivative_sessions
            Samples.no_threads "s" [x01]
          = Returned
              (<["s" := (replace_playback_thread
                           (set_history Samples.derivative_session h1)
                           Samples.no_threads).1]>
                 Samples.derivative_sessions,
               (replace_playback_thread
                  (set_history Samples.derivative_session h1)
                  Samples.no_threads).2,
               response)
       /\ history (replace_playback_thread
                     (set_history Samples.derivative_session h1)
                     Samples.no_threads).1 = h1
       /\ Design.turn_as_designed Design.continuation
            (history Samples.derivative_session) text said response h1.
Proof.
  assert (H1 : Samples.derivative_sessions !! "s"
               = Some Samples.derivative_session)
    by apply lookup_singleton_eq.
  assert (H2 : save_file Samples.also_world [x01] = Returned "turn.wav")
    by reflexivity.
  split; [exact H1|]. split; [exact H2|].
  exact (process_turn_merges_followup Samples.also_world
           Samples.derivative_sessions Samples.no_threads "s" [x01]
           Samples.derivative_session "turn.wav" H1 H2).
Defined.

(** The scenario of the design, run: the merged entry is
    [what is a derivative and also explain that], and it replaces the
    entry before it. *)
Example process_turn_derivative :
  exists self1 rt1 response,
    process_turn Samples.also_world Samples.derivative_sessions
      Samples.no_threads "s" [x01]
    = Returned (self1, rt1, response)
    /\ history <$> self1 !! "s"
       = Some [mkTurn "user" "what is a derivative and also explain that";
               mkTurn "assistant" response]
    /\ playback_thread <$> self1 !! "s" = Some (Some 0%nat)
    /\ rt1 = (AudioListener.thread_start Samples.no_threads).2.
Proof.
  assert (Hb : exists response,
             process_turn_block Samples.also_world
               Samples.derivative_sessions "s" [x01]
             = Returned
                 (<["s" := set_history Samples.derivative_session
                             [mkTurn "user"
                                "what is a derivative and also explain that";
                              mkTurn "assistant" response]]>
                    Samples.derivative_sessions, response)).
  { unfold process_turn_block, get_session.
    replace (Samples.derivative_sessions !! "s")
      with (Some Samples.derivative_session)
      by (symmetry; apply lookup_singleton_eq).
    simpl. eexists. reflexivity. }
  destruct Hb as [response Hb].
  rewrite (process_turn_after_block _ _ _ Samples.no_threads _ _ _ _ Hb
             (lookup_insert_eq _ _ _)).
  eexists _, _, response. split; [reflexivity|].
  rewrite lookup_insert_eq.
  split; [reflexivity|]. split; reflexivity.
Qed.

(** C3 as stated fails when the user turn that ends the history has an
    empty content: the text [and] has a keyword, so the design merges,
    but [_is_followup] answers [False] for an empty [last_input] and
    the source appends. *)
Lemma process_turn_empty_previous :
  let h1 := [mkTurn "user" ""; mkTurn "user" "and"; mkTurn "assistant" "and"] in
  Samples.one_session !! "s" = Some Samples.empty_user_session
  /\ process_turn Samples.small_world Samples.one_session
       Samples.no_threads "s" [x01]
     = Returned
         (<["s" := (replace_playback_thread
                      (set_history Samples.empty_user_session h1)
                      Samples.no_threads).1]> Samples.one_session,
          (replace_playback_thread
             (set_history Samples.empty_user_session h1)
             Samples.no_threads).2,
          "and")
  /\ ~ Design.turn_as_designed Design.continuation_stated
         (history Samples.empty_user_session) "and" "and" "and" h1.
Proof.
  intros h1. split; [apply lookup_singleton_eq|]. split.
  - assert (Hb : process_turn_block Samples.small_world Samples.one_session
                   "s" [x01]
                 = Returned (<["s" := set_history Samples.empty_user_session
                                        h1]> Samples.one_session, "and")).
    { unfold process_turn_block, get_session.
      replace (Samples.one_session !! "s")
        with (Some Samples.empty_user_session)
        by (symmetry; apply lookup_singleton_eq).
      reflexivity. }
    rewrite (process_turn_after_block _ _ _ Samples.no_threads _ _ _
               (set_history Samples.empty_user_session h1) Hb
               (lookup_insert_eq _ _ _)).
    rewrite insert_insert_eq. reflexivity.
  - intros [[_ (h0 & prev & Hh & _ & Hh1 & _)]|[Hn _]].
    + change (history Samples.empty_user_session)
        with ([] ++ [mkTurn "user" ""])%list in Hh.
      apply app_inj_tail in Hh. destruct Hh as [<- _]. discriminate Hh1.
    + apply Hn. exists []%list, (mkTurn "user" ""). split; [reflexivity|].
      split; [reflexivity|]. exists "and". split; [simpl; auto|].
      exists "", "". reflexivity.
Qed.

End FollowUp.

(** ** conversation_manager.py: the end of an utterance *)

Section EndOfUtterance.
Import Py ConversationManager.

(** C2: an iteration of [run_loop] that gets a block pushes the
    current speaking flag into the sliding window of the session and
    then, if an entry of the window is true, unsets the silence start;
    otherwise sets an unset silence start to the current time, and,
    when the silence start is set and the current time is at least 0.8
    seconds past it, finalizes: the accumulated buffer is taken and
    cleared, the sliding window is cleared, and the snapshot is the
    argument of [process_turn]. *)
Theorem run_loop_listening (session : Session) (vars : loop_vars) (now : Q)
    (audio_chunk : byte_string) (rest : list byte_string) :
  AudioListener.audio_queue (listener session) = audio_chunk :: rest ->
  exists session1 vars1 action,
    run_loop_body session vars now = (session1, vars1, action)
    /\ Design.listening_step
         (AudioListener.barge_in_detected (listener session)) now audio_chunk
         (Design.coordinator_of session vars)
         (Design.coordinator_of session1 vars1)
         (Design.handed_over action)
    /\ forall env (self : gmap string Session) rt session_id,
         self !! session_id = Some session ->
         run_loop_iteration env self rt session_id vars now
         = match action with
           | Continue =>
               Returned (<[session_id := session1]> self, rt, vars1, None)
           | ProcessTurn audio_data =>
               '(self1, rt1, response) ←
                 process_turn env (<[session_id := session1]> self) rt
                              session_id audio_data;
               Returned (self1, rt1, mkLoopVars (buffer vars1) None,
                         Some response)
           end.
Proof.
  intros Hq.
  destruct (run_loop_body session vars now) as [[session1 vars1] action] eqn:Hbody.
  exists session1, vars1, action. split; [reflexivity|]. split.
  - unfold run_loop_body in Hbody. rewrite Hq in Hbody.
    unfold Design.coordinator_of. cbv zeta in Hbody.
    change (AudioListener.barge_in_detected
              (AudioListener.set_audio_queue (listener session) rest))
      with (AudioListener.barge_in_detected (listener session)) in Hbody.
    set (w := deque_append _ (sliding_window session)) in *.
    destruct (any (items w)) eqn:Hany.
    + inversion Hbody; subst; simpl. fold w.
      apply (Design.speech_ongoing _ _ _
               (Design.mkCoordinator _ _ _)). exact Hany.
    + destruct (loop_silence_start vars) as [since|] eqn:Hsince.
      * destruct (Qle_bool (8 # 10) (now - since)) eqn:Hle.
        -- inversion Hbody; subst; simpl. fold w.
           apply (Design.finalizing _ _ _ (Design.mkCoordinator _ _ _) since);
             [exact Hany|reflexivity|].
           apply Qle_bool_iff. exact Hle.
        -- inversion Hbody; subst; simpl. fold w.
           apply (Design.silence_lasts _ _ _ (Design.mkCoordinator _ _ _));
             [exact Hany|reflexivity|].
           intros H. apply Qle_bool_iff in H.
           unfold Design.silence_threshold in H. congruence.
      * inversion Hbody; subst; simpl. fold w.
        apply (Design.silence_begins _ _ _ (Design.mkCoordinator _ _ _));
          [exact Hany|reflexivity].
  - intros env self rt session_id Hs.
    unfold run_loop_iteration, get_session. rewrite Hs. simpl.
    rewrite Hbody. destruct action; reflexivity.
Qed.

(** C2 at a session with one block waiting. *)
Lemma run_loop_listening_witness :
  AudioListener.audio_queue (listener Samples.waiting_session)
  = [x00; x00] :: []
  /\ exists session1 vars1 action,
       run_loop_body Samples.waiting_session (mkLoopVars [] None) 5
       = (session1, vars1, action)
       /\ Design.listening_step
            (AudioListener.barge_in_detected (listener Samples.waiting_session))
            5 [x00; x00]
            (Design.coordinator_of Samples.waiting_session (mkLoopVars [] None))
            (Design.coordinator_of session1 vars1)
            (Design.handed_over action).
Proof.
  split; [reflexivity|].
  destruct (run_loop_listening Samples.waiting_session (mkLoopVars [] None)
              5 [x00; x00] [] eq_refl)
    as (session1 & vars1 & action & H1 & H2 & _).
  exists session1, vars1, action. split; [exact H1|exact H2].
Defined.

(** A silence that lasts: the flag stays down over three blocks read
    at the times 0, 1/2 and 1; the first sets the silence start, the
    second leaves it, the third finalizes with the three blocks. *)
Example run_loop_silence_finalizes :
  let s0 := set_listener Samples.waiting_session
              (AudioListener.set_audio_queue Samples.running16k
                 [[x01]; [x02]; [x03]]) in
  let '(s1, v1, a1) := run_loop_body s0 (mkLoopVars [] None) 0 in
  let '(s2, v2, a2) := run_loop_body s1 v1 (1 # 2) in
  let '(s3, v3, a3) := run_loop_body s2 v2 1 in
  (a1, a2, a3) = (Continue, Continue, ProcessTurn [x01; x02; x03])
  /\ items (sliding_window s3) = []
  /\ buffer v3 = [].
Proof. vm_compute. repeat split; reflexivity. Qed.

(** A whole turn: a new session hears three blocks of silence, read at
    the times 0, 1/2 and 1; the third reading ends the utterance, the
    six bytes go to [process_turn], the history has the two entries of
    the turn, and the playback thread of the reply is started beside
    the capture thread. *)
Example run_loop_one_turn :
  match run_loop Samples.small_world ∅ "s" Samples.no_threads
          [Block [x00; x00]; Wake 0; Block [x00; x00]; Wake (1 # 2);
           Block [x00; x00]; Wake 1] with
  | Returned (self, rt, vars, replies) =>
      history <$> self !! "s"%string
      = Some [mkTurn "user" "and"; mkTurn "assistant" "and"]
      /\ replies = ["and"%string]
      /\ buffer vars = []
      /\ loop_silence_start vars = None
      /\ playback_thread <$> self !! "s"%string = Some (Some 1%nat)
      /\ rt = Samples.two_threads
  | Raised _ => False
  end.
Proof. vm_compute. repeat split; reflexivity. Qed.

End EndOfUtterance.

(** ** conversation_manager.py: one playback thread at a time *)

Section Playback.
Import Py ConversationManager.
Import AudioListener (alive, next_tid, thread_start, mkRuntime).

Lemma previous_alive_false (s : play_state) :
  (forall t, t ∈ active s -> playback_thread (sess s) = Some t) ->
  previous_alive s = false -> active s = ∅.
Proof.
  intros Hreg Hprev. apply leibniz_equiv. apply elem_of_equiv_empty.
  intros t Ht. pose proof (Hreg t Ht) as Hpt.
  unfold previous_alive in Hprev. rewrite Hpt in Hprev.
  apply bool_decide_eq_false in Hprev. apply Hprev.
  unfold active in Ht. set_solver.
Qed.

Lemma previous_alive_true (s : play_state) :
  (forall t, t ∈ active s -> playback_thread (sess s) = Some t) ->
  active s <> ∅ -> previous_alive s = true.
Proof.
  intros Hreg Hne. destruct (previous_alive s) eqn:E; [reflexivity|].
  exfalso. apply Hne. apply previous_alive_false; assumption.
Qed.

(** Every event keeps [play_ok]. *)
Lemma play_step_ok (s s1 : play_state) (e : play_event) :
  Design.play_ok s -> _play_response_async_step s e = Some s1 -> Design.play_ok s1.
Proof.
  intros (Hreg & Hfresh & Hpb & Hpos) Hstep.
  unfold Design.play_ok, Design.runtime_fresh in *.
  destruct s as [ss r pbs pos pth]; simpl in *.
  destruct e; simpl in Hstep.
  - (* Call *)
    destruct pos; inversion Hstep; subst; clear Hstep; simpl.
    repeat split; auto.
  - (* Next *)
    destruct pos; try discriminate.
    + destruct (previous_alive _) eqn:Hprev;
        inversion Hstep; subst; clear Hstep; simpl;
        (split; [exact Hreg|]); (split; [exact Hfresh|]);
        (split; [exact Hpb|]); [reflexivity|].
      split; [|left; reflexivity].
      apply (previous_alive_false (mkPlayState ss r pbs AtTest pth));
        assumption.
    + inversion Hstep; subst; clear Hstep; simpl.
      (split; [exact Hreg|]); (split; [exact Hfresh|]);
        (split; [exact Hpb|]). reflexivity.
    + destruct (previous_alive _) eqn:Hprev; [discriminate|].
      inversion Hstep; subst; clear Hstep; simpl.
      (split; [exact Hreg|]); (split; [exact Hfresh|]);
        (split; [exact Hpb|]).
      split; [|right; reflexivity].
      apply (previous_alive_false
               (mkPlayState ss r pbs AtJoin [Tested true; SetFlag]));
        assumption.
    + inversion Hstep; subst; clear Hstep; simpl.
      destruct Hpos as [Hnone _]. unfold active in *; simpl in *.
      split; [|split; [|split; [|exact I]]].
      * intros t Ht. f_equal.
        apply elem_of_intersection in Ht. destruct Ht as [Ha Hp].
        apply elem_of_union in Ha. apply elem_of_union in Hp.
        destruct Ha as [Ha|Ha]; [set_solver|].
        destruct Hp as [Hp|Hp]; [set_solver|].
        exfalso. set_solver.
      * intros t Ht. apply elem_of_union in Ht.
        destruct Ht as [Ht|Ht]; [apply elem_of_singleton in Ht; lia|].
        specialize (Hfresh t Ht). lia.
      * intros t Ht. apply elem_of_union in Ht.
        destruct Ht as [Ht|Ht]; [apply elem_of_singleton in Ht; lia|].
        specialize (Hpb t Ht). lia.
  - (* ThreadEnds *)
    destruct (bool_decide (t ∈ alive r)); [|discriminate].
    assert (Hs1 : s1 = mkPlayState ss (mkRuntime (next_tid r) (alive r ∖ {[t]}))
                         pbs pos pth)
      by (destruct pos; inversion Hstep; reflexivity).
    subst s1. clear Hstep. unfold active in *; simpl in *.
    split; [|split; [|split; [exact Hpb|]]].
    + intros t' Ht'. apply Hreg. set_solver.
    + intros t' Ht'. apply Hfresh. set_solver.
    + destruct pos; auto. destruct Hpos as [Hnone Hpath].
      split; [set_solver|exact Hpath].
  - (* OtherThreadStarts *)
    assert (Hs1 : s1 = mkPlayState ss (thread_start r).2 pbs pos pth)
      by (destruct pos; inversion Hstep; reflexivity).
    subst s1. clear Hstep. unfold active in *; simpl in *.
    assert (Hnew : next_tid r ∉ pbs).
    { intros Hin. specialize (Hpb _ Hin). lia. }
    split; [|split; [|split]].
    + intros t' Ht'. apply Hreg. set_solver.
    + intros t' Ht'. apply elem_of_union in Ht'.
      destruct Ht' as [Ht'|Ht']; [apply elem_of_singleton in Ht'; lia|].
      specialize (Hfresh t' Ht'). lia.
    + intros t' Ht'. specialize (Hpb t' Ht'). lia.
    + destruct pos; auto. destruct Hpos as [Hnone Hpath].
      split; [set_solver|exact Hpath].
  - (* FlagWritten *)
    assert (Hs1 : s1 = mkPlayState (set_stop_tts_flag ss b) r pbs pos pth)
      by (destruct pos; inversion Hstep; reflexivity).
    subst s1. clear Hstep. unfold active in *; simpl in *.
    repeat split; auto; destruct pos; tauto.
Qed.

Lemma play_run_ok (es : list play_event) :
  forall s s1, Design.play_ok s -> play_run s es = Some s1 -> Design.play_ok s1.
Proof.
  induction es as [|e es IH]; intros s s1 Hok Hrun; simpl in Hrun.
  - inversion Hrun; subst. exact Hok.
  - destruct (_play_response_async_step s e) as [s2|] eqn:Hstep; [|discriminate].
    simpl in Hrun. eapply IH; [|exact Hrun].
    eapply play_step_ok; eassumption.
Qed.

Lemma play_init_ok (s0 : Session) (rt0 : AudioListener.runtime) :
  Design.runtime_fresh rt0 -> Design.play_ok (play_init s0 rt0).
Proof.
  intros Hfresh. unfold Design.play_ok, play_init, active; simpl.
  repeat split; auto; set_solver.
Qed.

(** When a running playback thread is always the one thread the
    session holds, at most one runs. *)
Lemma registered_at_most_one (s : play_state) :
  (forall t, t ∈ active s -> playback_thread (sess s) = Some t) ->
  (size (active s) <= 1)%nat.
Proof.
  intros Hreg. destruct (playback_thread (sess s)) as [t|] eqn:Hpt.
  - assert (Hsub : active s ⊆ {[t]}).
    { intros t' Ht'. specialize (Hreg t' Ht'). set_solver. }
    apply subseteq_size in Hsub. rewrite size_singleton in Hsub. lia.
  - assert (He : active s = ∅).
    { apply leibniz_equiv, elem_of_equiv_empty. intros t' Ht'.
      specialize (Hreg t' Ht'). discriminate. }
    rewrite He, size_empty. lia.
Qed.

(** C8: whatever the threads of a session do between the lines of
    [_play_response_async], at most one playback thread of the session
    runs at any time. When the coordinator finds the previous playback
    thread running, it goes on to set the cancellation flag and then
    to the [join()], which returns only once that thread has ended; so
    when the new playback thread is started none runs, and exactly one
    runs afterwards: the new one, which the session holds. The calls
    of [_play_response_async] for a session come one after the other,
    as those of one [run_loop] do. *)
Theorem one_playback_at_a_time (s0 : Session) (rt0 : AudioListener.runtime)
    (es : list play_event) (s : play_state) :
  Design.runtime_fresh rt0 ->
  play_run (play_init s0 rt0) es = Some s ->
  (size (active s) <= 1)%nat
  /\ (position_ s = AtTest -> active s <> ∅ ->
        exists s1, _play_response_async_step s Next = Some s1 /\ position_ s1 = AtSetFlag)
  /\ (position_ s = AtSetFlag ->
        exists s1, _play_response_async_step s Next = Some s1
                   /\ stop_tts_flag (sess s1) = true
                   /\ position_ s1 = AtJoin)
  /\ (position_ s = AtJoin ->
        forall s1, _play_response_async_step s Next = Some s1 ->
                   active s1 = ∅ /\ position_ s1 = AtStart)
  /\ (position_ s = AtStart ->
        active s = ∅
        /\ (path s = [Tested false] \/ path s = [Tested true; SetFlag; Join])
        /\ exists s1, _play_response_async_step s Next = Some s1
                      /\ active s1 = {[next_tid (rt s)]}
                      /\ playback_thread (sess s1) = Some (next_tid (rt s))
                      /\ size (active s1) = 1%nat).
Proof.
  intros Hfresh Hrun.
  pose proof (play_run_ok es _ _ (play_init_ok s0 rt0 Hfresh) Hrun) as Hok.
  pose proof Hok as (Hreg & Hfr & Hpb & Hpos).
  split; [apply registered_at_most_one, Hreg|].
  split; [|split; [|split]].
  - intros Hat Hne. unfold _play_response_async_step. rewrite Hat.
    rewrite (previous_alive_true s Hreg Hne). eexists. split; reflexivity.
  - intros Hat. unfold _play_response_async_step. rewrite Hat. eexists.
    repeat split; reflexivity.
  - intros Hat s1 Hstep.
    pose proof (play_step_ok _ _ _ Hok Hstep) as (_ & _ & _ & Hpos1).
    unfold _play_response_async_step in Hstep. rewrite Hat in Hstep.
    destruct (previous_alive s); [discriminate|].
    inversion Hstep; subst; simpl in *. split; [apply Hpos1|reflexivity].
  - intros Hat. rewrite Hat in Hpos. destruct Hpos as [Hnone Hpath].
    split; [exact Hnone|]. split; [exact Hpath|].
    unfold _play_response_async_step. rewrite Hat. simpl. eexists.
    split; [reflexivity|]. unfold active in *; simpl.
    assert (Hnew : next_tid (rt s) ∉ playbacks s).
    { intros Hin. specialize (Hpb _ Hin). lia. }
    assert (Hone : (({[next_tid (rt s)]} ∪ alive (rt s))
                    ∩ ({[next_tid (rt s)]} ∪ playbacks s) : gset tid)
                   = {[next_tid (rt s)]}).
    { apply leibniz_equiv. set_solver. }
    rewrite Hone. split; [reflexivity|]. split; [reflexivity|].
    apply size_singleton.
Qed.

(** C8 on a second reply that comes while the first is played: the
    first call starts the playback thread 1; the second call finds it
    running, sets the flag and waits in [join()] until the thread
    ends; the coordinator then stands before the start of the new
    thread, with no playback thread running. *)
Lemma one_playback_at_a_time_witness :
  Design.runtime_fresh Samples.one_thread
  /\ exists s,
       play_run (play_init Samples.waiting_session Samples.one_thread)
                Samples.second_reply = Some s
       /\ position_ s = AtStart
       /\ (size (active s) <= 1)%nat
       /\ active s = ∅
       /\ path s = [Tested true; SetFlag; Join].
Proof.
  assert (Hfresh : Design.runtime_fresh Samples.one_thread).
  { intros t Ht. simpl in Ht. apply elem_of_singleton in Ht. subst t.
    simpl. constructor. }
  split; [exact Hfresh|].
  destruct (play_run (play_init Samples.waiting_session Samples.one_thread)
              Samples.second_reply) as [s|] eqn:Hrun;
    [|vm_compute in Hrun; discriminate Hrun].
  exists s. split; [reflexivity|].
  assert (Hat : position_ s = AtStart)
    by (vm_compute in Hrun; inversion Hrun; reflexivity).
  assert (Hpath : path s = [Tested true; SetFlag; Join])
    by (vm_compute in Hrun; inversion Hrun; reflexivity).
  destruct (one_playback_at_a_time Samples.waiting_session Samples.one_thread
              Samples.second_reply s Hfresh Hrun)
    as (Hone & _ & _ & _ & Hstart).
  destruct (Hstart Hat) as (Hnone & _ & _).
  repeat split; assumption.
Defined.

End Playback.

(** * Further properties of the sources *)

(** ** vad_utils.py: the frames of [frame_generator] *)

Section FramePositions.
Import Py VadUtils.




Lemma frame_generator_loop_stuck (n : Z) (dur : float) (audio : byte_string) :
  n <= 0 ->
  forall (fuel : nat) (offset : Z) (ts : float),
    offset <= len audio ->
    frame_generator_loop fuel n dur audio offset ts = None.
Proof.
  intros Hn. induction fuel as [|fuel IH]; intros offset ts Ho; [reflexivity|].
  simpl. destruct (offset + n <=? len audio) eqn:E;
    [|apply Z.leb_gt in E; lia].
  rewrite IH by lia. reflexivity.
Qed.

(** X2: With a frame size that is not positive the loop of
    [frame_generator] never ends: once line 41 has given the duration,
    whatever the number of iterations allowed, the generator has not
    finished. It ends only where line 41 raises, before the loop. *)
Theorem frame_generator_never_ends (self : VADAudio) (audio : byte_string)
    (fuel : nat) :
  frame_size self <= 0 ->
  frame_generator_fuel fuel self audio
  = match frame_seconds self with
    | Returned _ => None
    | Raised e => Some (Raised e)
    end.
Proof.
  intros Hn. unfold frame_generator_fuel.
  destruct (frame_seconds self) as [dur|e]; [|reflexivity].
  rewrite frame_generator_loop_stuck; [reflexivity|exact Hn|apply len_nonneg].
Qed.

(** A sample rate of 100 Hz with frames of 5 ms gives a frame size of
    zero, and the generator does not end on one byte. *)
Lemma frame_generator_never_ends_witness :
  frame_size Samples.vad_empty_frames <= 0
  /\ frame_seconds Samples.vad_empty_frames = Returned float_zero
  /\ frame_generator_fuel 1000 Samples.vad_empty_frames [x01] = None.
Proof.
  assert (H1 : frame_size Samples.vad_empty_frames <= 0) by discriminate.
  assert (H2 : frame_seconds Samples.vad_empty_frames = Returned float_zero)
    by (vm_compute; reflexivity).
  split; [exact H1|]. split; [exact H2|].
  rewrite (frame_generator_never_ends Samples.vad_empty_frames [x01] 1000 H1).
  rewrite H2. reflexivity.
Defined.

End FramePositions.

(** ** vad_utils.py: what [vad_collector] yields and keeps *)

Section CollectorFacts.
Import Py VadUtils.

Lemma map_fst_deque_append (frame : Frame) (speech : bool)
    (d : deque (Frame * bool)) :
  map fst (items (deque_append (frame, speech) d))
  `suffix_of` map fst (items d) ++ [frame].
Proof.
  unfold deque_append; simpl.
  rewrite <- List.skipn_map, List.map_app. simpl. apply suffix_drop.
Qed.

Lemma join_run_nonempty (run : list Frame) :
  run <> [] -> Forall (fun f => bytes f <> []) run ->
  join (map bytes run) <> [].
Proof.
  intros Hne Hall. destruct run as [|f run]; [contradiction|].
  inversion Hall as [|? ? Hf _]; subst. unfold join. simpl.
  destruct (bytes f); [contradiction|discriminate].
Qed.

(** One iteration keeps [trailing], and what it yields is the joined
    bytes of the last frames seen. *)
Lemma vad_collector_body_trailing (self : VADAudio) (num_voiced : Z)
    (seen : list Frame) (st : collector) (frame : Frame) :
  Design.trailing seen st ->
  Design.trailing (seen ++ [frame])
    (vad_collector_body self num_voiced st frame).1
  /\ Forall (fun segment =>
               exists run, run <> []
                           /\ run `suffix_of` seen ++ [frame]
                           /\ segment = join (map bytes run))
            (vad_collector_body self num_voiced st frame).2.
Proof.
  intros (Hring & Hvoiced & Hidle).
  assert (Hring1 : forall speech,
             map fst (items (deque_append (frame, speech) (ring st)))
             `suffix_of` seen ++ [frame]).
  { intros speech. etransitivity; [apply map_fst_deque_append|].
    apply suffix_app, Hring. }
  unfold vad_collector_body, Design.trailing.
  destruct (triggered st) eqn:Htrig; simpl.
  - destruct (_ >? num_voiced); simpl.
    + split.
      * split; [apply suffix_nil|]. split; [apply suffix_nil|reflexivity].
      * constructor; [|constructor].
        exists (voiced_frames st ++ [frame]).
        split; [destruct (voiced_frames st); discriminate|].
        split; [apply suffix_app, Hvoiced|reflexivity].
    + split; [|constructor].
      split; [apply Hring1|]. split; [apply suffix_app, Hvoiced|discriminate].
  - rewrite (Hidle eq_refl). simpl.
    destruct (Qgt_bool _ _); simpl; (split; [|constructor]).
    + split; [apply suffix_nil|]. split; [apply Hring1|discriminate].
    + split; [apply Hring1|]. split; [apply suffix_nil|reflexivity].
Qed.

Lemma vad_collector_loop_trailing (self : VADAudio) (num_voiced : Z)
    (frames : list Frame) :
  forall (seen : list Frame) (st : collector),
    Design.trailing seen st ->
    Design.trailing (seen ++ frames)
      (vad_collector_loop self num_voiced st frames).1
    /\ Forall (Design.run_of (seen ++ frames))
              (vad_collector_loop self num_voiced st frames).2.
Proof.
  induction frames as [|frame frames IH]; intros seen st Hst; simpl.
  - rewrite app_nil_r. split; [exact Hst|constructor].
  - destruct (vad_collector_body_trailing self num_voiced seen st frame Hst)
      as [Hst1 Hout1].
    destruct (vad_collector_body self num_voiced st frame) as [st1 out1].
    simpl in *. destruct (IH (seen ++ [frame]) st1 Hst1) as [Hst2 Hout2].
    destruct (vad_collector_loop self num_voiced st1 frames) as [st2 out2].
    simpl in *. rewrite <- app_assoc in Hst2, Hout2. simpl in Hst2, Hout2.
    split; [exact Hst2|]. apply Forall_app. split; [|exact Hout2].
    eapply Forall_impl; [exact Hout1|].
    intros segment (run & Hne & [before Hsuf] & Hseg).
    exists before, run, frames. split; [|split; assumption].
    rewrite app_assoc, <- Hsuf, <- app_assoc. reflexivity.
Qed.

(** Every segment of [vad_collector] is the joined bytes of a run of
    consecutive frames, not empty, of the frames the ring buffer
    held followed by the frames of the call. *)
Lemma vad_collector_runs (self : VADAudio) (frames : list Frame)
    (ratio : float) (segments : list byte_string) (self1 : VADAudio) :
  vad_collector self frames ratio = Returned (segments, self1) ->
  Forall (Design.run_of (map fst (items (ring_buffer self)) ++ frames))
         segments.
Proof.
  intros Hret.
  destruct (vad_collector_returned self frames ratio segments self1 Hret)
    as (nv & _ & Hseg & _).
  cbv zeta in Hseg. subst segments.
  set (st0 := mkCollector false [] (ring_buffer self)).
  assert (Hst0 : Design.trailing (map fst (items (ring_buffer self))) st0).
  { split; [reflexivity|]. split; [apply suffix_nil|reflexivity]. }
  destruct (vad_collector_loop_trailing self nv frames _ st0 Hst0)
    as [(_ & [before Hvoiced] & _) Hout].
  destruct (vad_collector_loop self nv st0 frames) as [st out]. simpl in *.
  apply Forall_app. split; [exact Hout|].
  destruct (voiced_frames st) as [|f voiced] eqn:Hv; constructor; [|constructor].
  exists before, (f :: voiced), []. rewrite app_nil_r.
  split; [exact Hvoiced|]. split; [discriminate|reflexivity].
Qed.

(** X3: A segment is always cut out of the frames in one piece: it is the
    joined bytes of consecutive frames, in their order, of the frames
    left in the ring buffer followed by the frames of the call. *)
Theorem vad_collector_segments_contiguous (self : VADAudio)
    (frames : list Frame) (ratio : float) (segments : list byte_string)
    (self1 : VADAudio) (segment : byte_string) :
  vad_collector self frames ratio = Returned (segments, self1) ->
  segment ∈ segments ->
  Design.run_of (map fst (items (ring_buffer self)) ++ frames) segment.
Proof.
  intros Hret Hin.
  pose proof (vad_collector_runs self frames ratio segments self1 Hret) as H.
  rewrite Forall_forall in H. apply H. exact Hin.
Qed.

(** Eleven loud frames at the default ratio give one segment, cut out
    of them in one piece. *)
Lemma vad_collector_segments_contiguous_witness :
  exists segments self1 segment,
    vad_collector Samples.vad16k Samples.eleven_loud Samples.nine_tenths
    = Returned (segments, self1)
    /\ segment ∈ segments
    /\ Design.run_of
         (map fst (items (ring_buffer Samples.vad16k)) ++ Samples.eleven_loud)
         segment.
Proof.
  destruct (vad_collector Samples.vad16k Samples.eleven_loud
              Samples.nine_tenths) as [[segments self1]|e] eqn:Hret;
    [|vm_compute in Hret; discriminate Hret].
  destruct segments as [|segment rest] eqn:Hout;
    [vm_compute in Hret; discriminate Hret|].
  exists (segment :: rest), self1, segment.
  split; [reflexivity|]. split; [apply list_elem_of_here|].
  exact (vad_collector_segments_contiguous Samples.vad16k Samples.eleven_loud
           Samples.nine_tenths _ self1 segment Hret (list_elem_of_here _ _)).
Defined.

(** X4: [vad_collector] never yields an empty segment when no frame it
    works on is empty. *)
Theorem vad_collector_segments_nonempty (self : VADAudio)
    (frames : list Frame) (ratio : float) (segments : list byte_string)
    (self1 : VADAudio) :
  Forall (fun f => bytes f <> []) frames ->
  Forall (fun p => bytes p.1 <> []) (items (ring_buffer self)) ->
  vad_collector self frames ratio = Returned (segments, self1) ->
  Forall (fun segment => segment <> []) segments.
Proof.
  intros Hframes Hring Hret.
  eapply Forall_impl; [exact (vad_collector_runs _ _ _ _ _ Hret)|].
  intros segment (before & run & after & Hseen & Hne & ->).
  apply join_run_nonempty; [exact Hne|].
  assert (Hall : Forall (fun f => bytes f <> [])
                   (map fst (items (ring_buffer self)) ++ frames)).
  { apply Forall_app. split; [|exact Hframes].
    apply Forall_forall. intros f Hf.
    apply list_elem_of_In, List.in_map_iff in Hf. destruct Hf as (p & <- & Hp).
    rewrite Forall_forall in Hring. apply Hring, list_elem_of_In, Hp. }
  rewrite Hseen in Hall. apply Forall_app in Hall. destruct Hall as [_ Hall].
  apply Forall_app in Hall. apply Hall.
Qed.

(** Eleven loud frames of 960 bytes and twelve silent ones at the
    default segmenter: one segment is yielded, of 21 frames, and it is
    not empty. *)
Lemma vad_collector_segments_nonempty_witness :
  Forall (fun f => bytes f <> []) (Samples.eleven_loud ++ Samples.twelve_quiet)
  /\ Forall (fun p : Frame * bool => bytes p.1 <> [])
            (items (ring_buffer Samples.vad16k))
  /\ exists segments self1,
       vad_collector Samples.vad16k
         (Samples.eleven_loud ++ Samples.twelve_quiet) Samples.nine_tenths
       = Returned (segments, self1)
       /\ map len segments = [21 * 960]
       /\ Forall (fun segment => segment <> []) segments.
Proof.
  assert (H1 : Forall (fun f => bytes f <> [])
                 (Samples.eleven_loud ++ Samples.twelve_quiet)).
  { apply List.Forall_forall. intros f Hf.
    assert (Hb : negb (len (bytes f) =? 0) = true).
    { apply (proj1 (List.forallb_forall
                      (fun f => negb (len (bytes f) =? 0))
                      (Samples.eleven_loud ++ Samples.twelve_quiet)));
        [vm_compute; reflexivity|exact Hf]. }
    intros Hnil. rewrite Hnil in Hb. discriminate Hb. }
  assert (H2 : Forall (fun p : Frame * bool => bytes p.1 <> [])
                 (items (ring_buffer Samples.vad16k))) by constructor.
  split; [exact H1|]. split; [exact H2|].
  destruct (vad_collector Samples.vad16k
              (Samples.eleven_loud ++ Samples.twelve_quiet)
              Samples.nine_tenths) as [[segments self1]|e] eqn:Hret;
    [|vm_compute in Hret; discriminate Hret].
  exists segments, self1. split; [reflexivity|]. split.
  - assert (Hlen : match vad_collector Samples.vad16k
                           (Samples.eleven_loud ++ Samples.twelve_quiet)
                           Samples.nine_tenths with
                   | Returned (segments, _) => map len segments = [21 * 960]
                   | Raised _ => False
                   end) by (vm_compute; reflexivity).
    rewrite Hret in Hlen. exact Hlen.
  - exact (vad_collector_segments_nonempty Samples.vad16k _
             Samples.nine_tenths segments self1 H1 H2 Hret).
Defined.

End CollectorFacts.

Section CollectorRing.
Import Py VadUtils.

Lemma vad_collector_body_ring (self : VADAudio) (num_voiced : Z)
    (st : collector) (frame : Frame) :
  0 <= maxlen (ring st) ->
  maxlen (ring (vad_collector_body self num_voiced st frame).1)
  = maxlen (ring st)
  /\ len (items (ring (vad_collector_body self num_voiced st frame).1))
     <= maxlen (ring st).
Proof.
  intros Hcap.
  pose proof (deque_append_bounded (frame, is_speech self (bytes frame))
                (ring st) Hcap) as Hb.
  rewrite deque_append_maxlen in Hb.
  unfold vad_collector_body.
  destruct (triggered st); simpl.
  - destruct (_ >? num_voiced); simpl; (split; [reflexivity|]);
      [unfold len; simpl; lia|exact Hb].
  - destruct (Qgt_bool _ _); simpl; (split; [reflexivity|]);
      [unfold len; simpl; lia|exact Hb].
Qed.

Lemma vad_collector_loop_ring (self : VADAudio) (num_voiced : Z)
    (frames : list Frame) :
  forall st : collector,
    0 <= maxlen (ring st) ->
    len (items (ring st)) <= maxlen (ring st) ->
    maxlen (ring (vad_collector_loop self num_voiced st frames).1)
    = maxlen (ring st)
    /\ len (items (ring (vad_collector_loop self num_voiced st frames).1))
       <= maxlen (ring st).
Proof.
  induction frames as [|frame frames IH]; intros st Hcap Hlen; simpl.
  - split; [reflexivity|exact Hlen].
  - destruct (vad_collector_body_ring self num_voiced st frame Hcap) as [Hm Hb].
    destruct (vad_collector_body self num_voiced st frame) as [st1 out1].
    simpl in *. destruct (IH st1) as [Hm2 Hb2]; [lia|lia|].
    destruct (vad_collector_loop self num_voiced st1 frames) as [st2 out2].
    simpl in *. split; [congruence|]. rewrite <- Hm. exact Hb2.
Qed.

(** X5: A call of [vad_collector] changes nothing of the segmenter but the
    entries of its ring buffer, and these never exceed the capacity: a
    segmenter as [__init__] builds it stays so over any number of
    calls. *)
Theorem vad_collector_keeps_ring (self : VADAudio) (frames : list Frame)
    (ratio : float) (segments : list byte_string) (self1 : VADAudio) :
  Design.ring_as_built self ->
  len (items (ring_buffer self)) <= maxlen (ring_buffer self) ->
  vad_collector self frames ratio = Returned (segments, self1) ->
  Design.ring_as_built self1
  /\ len (items (ring_buffer self1)) <= maxlen (ring_buffer self1)
  /\ maxlen (ring_buffer self1) = maxlen (ring_buffer self)
  /\ frame_size self1 = frame_size self
  /\ sample_rate self1 = sample_rate self
  /\ num_padding_frames self1 = num_padding_frames self.
Proof.
  intros [Hcap Hpos] Hlen Hret.
  destruct (vad_collector_returned self frames ratio segments self1 Hret)
    as (nv & _ & _ & Hself).
  cbv zeta in Hself. subst self1.
  set (st0 := mkCollector false [] (ring_buffer self)).
  destruct (vad_collector_loop_ring self nv frames st0) as [Hm Hb];
    [simpl; lia|exact Hlen|].
  destruct (vad_collector_loop self nv st0 frames) as [st out].
  simpl in *. unfold Design.ring_as_built; simpl.
  repeat split; try lia; congruence.
Qed.

(** The ring buffer of the default segmenter after eleven loud frames. *)
Lemma vad_collector_keeps_ring_witness :
  Design.ring_as_built Samples.vad16k
  /\ len (items (ring_buffer Samples.vad16k))
     <= maxlen (ring_buffer Samples.vad16k)
  /\ exists segments self1,
       vad_collector Samples.vad16k Samples.eleven_loud Samples.nine_tenths
       = Returned (segments, self1)
       /\ len (items (ring_buffer self1)) <= maxlen (ring_buffer self1).
Proof.
  assert (H1 : Design.ring_as_built Samples.vad16k)
    by (split; [reflexivity|discriminate]).
  assert (H2 : len (items (ring_buffer Samples.vad16k))
               <= maxlen (ring_buffer Samples.vad16k)) by discriminate.
  split; [exact H1|]. split; [exact H2|].
  destruct (vad_collector Samples.vad16k Samples.eleven_loud
              Samples.nine_tenths) as [[segments self1]|e] eqn:Hret;
    [|vm_compute in Hret; discriminate Hret].
  exists segments, self1. split; [reflexivity|].
  exact (proj1 (proj2 (vad_collector_keeps_ring Samples.vad16k
                         Samples.eleven_loud Samples.nine_tenths
                         segments self1 H1 H2 Hret))).
Defined.

Lemma count_if_none {A} (p : A -> bool) (l : list A) :
  Forall (fun x => p x = false) l -> count_if p l = 0.
Proof.
  induction 1 as [|x l Hx _ IH]; simpl; [reflexivity|]. rewrite Hx, IH.
  reflexivity.
Qed.

Lemma start_not_reached (n : Z) : 0 <= n ->
  Qgt_bool (inject_Z 0) ((8 # 10) * inject_Z n) = false.
Proof.
  intros Hn. unfold Qgt_bool. apply negb_false_iff, Qle_bool_iff.
  unfold Qle. simpl. lia.
Qed.

(** Idle with no speech entry in the ring buffer, the loop stays so
    over frames that are not speech, and yields nothing. *)
Lemma vad_collector_loop_silent (self : VADAudio) (num_voiced : Z)
    (frames : list Frame) :
  Forall (fun f => is_speech self (bytes f) = false) frames ->
  forall r : deque (Frame * bool),
    0 <= maxlen r ->
    Forall (fun p => p.2 = false) (items r) ->
    exists r1,
      vad_collector_loop self num_voiced (mkCollector false [] r) frames
      = (mkCollector false [] r1, []).
Proof.
  induction 1 as [|frame frames Hf _ IH]; intros r Hcap Hr; simpl.
  - exists r. reflexivity.
  - assert (Hr1 : Forall (fun p : Frame * bool => p.2 = false)
                    (items (deque_append (frame, false) r))).
    { unfold deque_append; simpl. apply Forall_drop, Forall_app.
      split; [exact Hr|]. repeat constructor. }
    assert (Hbody : vad_collector_body self num_voiced
                      (mkCollector false [] r) frame
                    = (mkCollector false [] (deque_append (frame, false) r), [])).
    { unfold vad_collector_body. cbn [triggered negb ring voiced_frames].
      rewrite Hf. rewrite (count_if_none snd _ Hr1).
      change (maxlen (deque_append (frame, false) r)) with (maxlen r).
      rewrite (start_not_reached _ Hcap). reflexivity. }
    rewrite Hbody.
    destruct (IH (deque_append (frame, false) r) Hcap Hr1) as [r1 ->].
    exists r1. reflexivity.
Qed.

(** X6: Frames the classifier does not take for speech give no segment,
    when the ring buffer holds no speech entry from an earlier call:
    the call yields nothing, or raises what line 60 raises. *)
Theorem vad_collector_silence (self : VADAudio) (frames : list Frame)
    (ratio : float) :
  0 <= maxlen (ring_buffer self) ->
  Forall (fun p => p.2 = false) (items (ring_buffer self)) ->
  Forall (fun f => is_speech self (bytes f) = false) frames ->
  match vad_collector self frames ratio with
  | Returned (segments, _) => segments = []
  | Raised e => stop_threshold (num_padding_frames self) ratio = Raised e
  end.
Proof.
  intros Hcap Hring Hframes. unfold vad_collector.
  destruct (stop_threshold (num_padding_frames self) ratio) as [nv|e];
    [|reflexivity].
  simpl.
  destruct (vad_collector_loop_silent self nv frames Hframes
              (ring_buffer self) Hcap Hring) as [r1 ->].
  reflexivity.
Qed.

(** Twelve silent frames give no segment. *)
Lemma vad_collector_silence_witness :
  0 <= maxlen (ring_buffer Samples.vad16k)
  /\ Forall (fun p : Frame * bool => p.2 = false)
            (items (ring_buffer Samples.vad16k))
  /\ Forall (fun f => is_speech Samples.vad16k (bytes f) = false)
            Samples.twelve_quiet
  /\ exists self1,
       vad_collector Samples.vad16k Samples.twelve_quiet Samples.nine_tenths
       = Returned ([], self1).
Proof.
  assert (H1 : 0 <= maxlen (ring_buffer Samples.vad16k)) by discriminate.
  assert (H2 : Forall (fun p : Frame * bool => p.2 = false)
                 (items (ring_buffer Samples.vad16k))) by constructor.
  assert (H3 : Forall (fun f => is_speech Samples.vad16k (bytes f) = false)
                 Samples.twelve_quiet)
    by (apply List.Forall_forall; intros f Hf;
        apply negb_true_iff;
        apply (proj1 (List.forallb_forall
                        (fun f => negb (is_speech Samples.vad16k (bytes f)))
                        Samples.twelve_quiet));
        [vm_compute; reflexivity|exact Hf]).
  split; [exact H1|]. split; [exact H2|]. split; [exact H3|].
  pose proof (vad_collector_silence Samples.vad16k Samples.twelve_quiet
                Samples.nine_tenths H1 H2 H3) as H.
  destruct (vad_collector Samples.vad16k Samples.twelve_quiet
              Samples.nine_tenths) as [[segments self1]|e] eqn:Hret.
  - exists self1. rewrite H. reflexivity.
  - vm_compute in H. discriminate H.
Defined.

(** With a ring buffer of capacity zero the loop never leaves Idle. *)
Lemma vad_collector_loop_no_ring (self : VADAudio) (num_voiced : Z)
    (frames : list Frame) :
  forall r : deque (Frame * bool),
    maxlen r = 0 ->
    vad_collector_loop self num_voiced (mkCollector false [] r) frames
    = (mkCollector false [] (if frames is [] then r else mkDeque 0 []), []).
Proof.
  induction frames as [|frame frames IH]; intros r Hcap; simpl.
  - reflexivity.
  - assert (Hr1 : deque_append (frame, is_speech self (bytes frame)) r
                  = mkDeque 0 []).
    { unfold deque_append. rewrite Hcap. simpl. rewrite Nat.sub_0_r.
      rewrite drop_all. reflexivity. }
    assert (Hbody : vad_collector_body self num_voiced
                      (mkCollector false [] r) frame
                    = (mkCollector false [] (mkDeque 0 []), [])).
    { unfold vad_collector_body. cbn [triggered negb ring voiced_frames].
      rewrite Hr1. reflexivity. }
    rewrite Hbody, (IH (mkDeque 0 []) eq_refl).
    destruct frames; reflexivity.
Qed.

(** X7: A segmenter whose padding window is shorter than a frame (a frame
    duration above 300 ms) has a ring buffer of capacity zero, and
    never yields a segment, whatever the frames are: the call yields
    nothing, or raises what line 60 raises. *)
Theorem vad_collector_no_ring (self : VADAudio) (frames : list Frame)
    (ratio : float) :
  maxlen (ring_buffer self) = 0 ->
  match vad_collector self frames ratio with
  | Returned (segments, _) => segments = []
  | Raised e => stop_threshold (num_padding_frames self) ratio = Raised e
  end.
Proof.
  intros Hcap. unfold vad_collector.
  destruct (stop_threshold (num_padding_frames self) ratio) as [nv|e];
    [|reflexivity].
  simpl.
  rewrite (vad_collector_loop_no_ring self _ frames (ring_buffer self) Hcap).
  reflexivity.
Qed.

(** Frames of half a second: eleven loud frames give no segment. *)
Lemma vad_collector_no_ring_witness :
  maxlen (ring_buffer Samples.vad_no_ring) = 0
  /\ exists self1,
       vad_collector Samples.vad_no_ring Samples.eleven_loud
         Samples.nine_tenths
       = Returned ([], self1).
Proof.
  split; [reflexivity|].
  pose proof (vad_collector_no_ring Samples.vad_no_ring Samples.eleven_loud
                Samples.nine_tenths eq_refl) as H.
  destruct (vad_collector Samples.vad_no_ring Samples.eleven_loud
              Samples.nine_tenths) as [[segments self1]|e] eqn:Hret.
  - exists self1. rewrite H. reflexivity.
  - vm_compute in H. discriminate H.
Defined.

(** What [VADAudio.__init__] returns has the classifier [Vad] gave for
    the mode, and an empty ring buffer whose capacity is the number of
    padding frames. *)
Lemma VADAudio_init_built (Vad : Z -> result (byte_string -> bool))
    (sample_rate frame_duration aggressiveness : Z) (self : VADAudio) :
  VADAudio_init Vad sample_rate frame_duration aggressiveness = Returned self ->
  Vad aggressiveness = Returned (vad self)
  /\ Design.ring_as_built self
  /\ items (ring_buffer self) = [].
Proof.
  unfold VADAudio_init. intros H.
  destruct (Vad aggressiveness) as [c|e]; [|discriminate H]. simpl in H.
  destruct (int_truediv (sample_rate * frame_duration) 1000) as [x|e];
    [|discriminate H]. simpl in H.
  destruct (int_of_float x) as [samples|e]; [|discriminate H]. simpl in H.
  destruct (int_truediv 300 frame_duration) as [y|e]; [|discriminate H].
  simpl in H.
  destruct (int_of_float y) as [n|e]; [|discriminate H]. simpl in H.
  destruct (Z.ltb_spec n 0) as [Hneg|Hpos]; [discriminate H|].
  inversion H; subst self; clear H. unfold Design.ring_as_built. simpl.
  split; [reflexivity|]. split; [split; [reflexivity|exact Hpos]|reflexivity].
Qed.

End CollectorRing.

(** ** audio_listener.py: segments collected from a byte buffer *)

Section BufferSegments.
Import Py VadUtils.

Lemma len_join_frames (n : Z) (l : list Frame) :
  Forall (fun f => len (bytes f) = n) l ->
  len (join (map bytes l)) = len l * n.
Proof.
  unfold join. induction 1 as [|f l Hf _ IH]; simpl; [reflexivity|].
  rewrite len_app, IH, Hf. unfold len. simpl length. lia.
Qed.

Lemma join_app (l1 l2 : list Frame) :
  join (map bytes (l1 ++ l2)) = join (map bytes l1) ++ join (map bytes l2).
Proof. unfold join. rewrite List.map_app, concat_app. reflexivity. Qed.

(** X9: What [listen_until_silence] does with its buffer, lines 122 and
    123: the buffer is cut into frames and the frames are collected.
    With an empty ring buffer every segment collected is a slice of the
    buffer that starts and ends on a frame boundary and is at least one
    frame long. *)
Theorem buffer_segments_are_slices (self : VADAudio) (audio : byte_string)
    (frames : list Frame) (ratio : float) (segments : list byte_string)
    (self1 : VADAudio) (segment : byte_string) :
  0 < frame_size self ->
  items (ring_buffer self) = [] ->
  frame_generator self audio = Some (Returned frames) ->
  vad_collector self frames ratio = Returned (segments, self1) ->
  segment ∈ segments ->
  exists i k : Z,
    0 <= i /\ 0 < k
    /\ (i + k) * frame_size self <= len audio
    /\ segment = slice (i * frame_size self) ((i + k) * frame_size self) audio.
Proof.
  intros Hn Hring Hgen Hret Hin. set (n := frame_size self) in *.
  pose proof (vad_collector_runs self frames ratio segments self1 Hret)
    as Hruns.
  rewrite Forall_forall in Hruns. specialize (Hruns segment Hin).
  rewrite Hring in Hruns. simpl in Hruns.
  destruct Hruns as (before & run & after & Hframes & Hne & Hseg).
  unfold frame_generator, frame_generator_fuel in Hgen. fold n in Hgen.
  destruct (frame_seconds self) as [dur|e]; [|discriminate].
  pose proof (len_nonneg audio) as Hlen.
  destruct (frame_generator_loop_spec n dur audio Hn
              (S (length audio)) 0 float_zero ltac:(lia)
              ltac:(unfold len; lia))
    as (fs & Hrun & Hall & Hcount & Hcat).
  rewrite Hrun in Hgen. simpl in Hgen. inversion Hgen; subst fs; clear Hgen.
  rewrite Z.sub_0_r in *. simpl in Hcat. rewrite drop_0 in Hcat.
  rewrite Hframes in Hall, Hcount, Hcat.
  apply Forall_app in Hall. destruct Hall as [Hbefore Hall].
  apply Forall_app in Hall. destruct Hall as [Hrun' Hafter].
  pose proof (len_join_frames n before Hbefore) as Lb.
  pose proof (len_join_frames n run Hrun') as Lr.
  rewrite !join_app in Hcat.
  set (B := join (map bytes before)) in *. set (R := join (map bytes run)) in *.
  set (A := join (map bytes after)) in *.
  assert (Hk : 0 < len run) by (unfold len; destruct run; [contradiction|simpl; lia]).
  assert (Hfit : (len before + len run) * n <= len audio).
  { pose proof (Z.mul_div_le (len audio) n Hn) as Hd.
    rewrite !len_app in Hcount. pose proof (len_nonneg after). nia. }
  exists (len before), (len run).
  split; [apply len_nonneg|]. split; [exact Hk|]. split; [exact Hfit|].
  pose proof (len_nonneg before) as Hb0.
  rewrite slice_inside by nia.
  replace ((len before + len run) * n - len before * n) with (len R) by lia.
  rewrite <- Lb. unfold len. rewrite !Nat2Z.id.
  assert (HR : R = take (length R) (drop (length B) (B ++ R ++ A))).
  { rewrite drop_app_length, take_app_length. reflexivity. }
  rewrite Hcat in HR. rewrite Hseg. fold R. rewrite HR at 1.
  rewrite !take_drop_commute, take_take. do 2 f_equal.
  apply Nat.min_l. apply (f_equal length) in Hcat.
  rewrite length_take, !length_app in Hcat. lia.
Qed.

(** The segment the default segmenter collects from eleven frames of
    loud audio is a slice of that audio. *)
Lemma buffer_segments_are_slices_witness :
  0 < frame_size Samples.vad16k
  /\ items (ring_buffer Samples.vad16k) = []
  /\ frame_generator Samples.vad16k (repeat x01 (11 * 960))
     = Some (Returned Samples.eleven_loud)
  /\ exists segments self1 segment i k,
       vad_collector Samples.vad16k Samples.eleven_loud Samples.nine_tenths
       = Returned (segments, self1)
       /\ segment ∈ segments
       /\ 0 <= i /\ 0 < k
       /\ (i + k) * frame_size Samples.vad16k <= len (repeat x01 (11 * 960))
       /\ segment = slice (i * frame_size Samples.vad16k)
                          ((i + k) * frame_size Samples.vad16k)
                          (repeat x01 (11 * 960)).
Proof.
  assert (H1 : 0 < frame_size Samples.vad16k) by reflexivity.
  assert (H2 : items (ring_buffer Samples.vad16k) = []) by reflexivity.
  assert (H3 : frame_generator Samples.vad16k (repeat x01 (11 * 960))
               = Some (Returned Samples.eleven_loud))
    by (vm_compute; reflexivity).
  split; [exact H1|]. split; [exact H2|]. split; [exact H3|].
  destruct (vad_collector Samples.vad16k Samples.eleven_loud
              Samples.nine_tenths) as [[segments self1]|e] eqn:Hret;
    [|vm_compute in Hret; discriminate Hret].
  destruct segments as [|segment rest];
    [vm_compute in Hret; discriminate Hret|].
  destruct (buffer_segments_are_slices Samples.vad16k
              (repeat x01 (11 * 960)) Samples.eleven_loud Samples.nine_tenths
              (segment :: rest) self1 segment H1 H2 H3 Hret
              (list_elem_of_here _ _)) as (i & k & Hi).
  exists (segment :: rest), self1, segment, i, k.
  split; [reflexivity|]. split; [apply list_elem_of_here|exact Hi].
Defined.

End BufferSegments.

(** ** audio_listener.py: the queue, the flag and the life of a listener *)

Section ListenerFacts.
Import Py AudioListener.

(** A callback changes the queue, the buffer and the flag, and nothing
    else. *)
Lemma callback_config (self : AudioListener) (block : byte_string) :
  frame_size (_callback self block) = frame_size self
  /\ vad (_callback self block) = vad self
  /\ listening (_callback self block) = listening self
  /\ thread (_callback self block) = thread self
  /\ MAX_BUFFER_LEN (_callback self block) = MAX_BUFFER_LEN self
  /\ audio_queue (_callback self block) = audio_queue self ++ [block].
Proof.
  unfold _callback. simpl.
  destruct (len (buffer self ++ block) >? MAX_BUFFER_LEN self); simpl;
    (destruct (len block >=? frame_size self); simpl;
     [destruct (VadUtils.is_speech _ _)|]); simpl; repeat split; reflexivity.
Qed.

Lemma callbacks_snoc (self : AudioListener) (blocks : list byte_string)
    (block : byte_string) :
  callbacks self (blocks ++ [block]) = _callback (callbacks self blocks) block.
Proof. unfold callbacks. apply foldl_snoc. Qed.

Lemma callbacks_config (self : AudioListener) (blocks : list byte_string) :
  frame_size (callbacks self blocks) = frame_size self
  /\ vad (callbacks self blocks) = vad self
  /\ listening (callbacks self blocks) = listening self
  /\ thread (callbacks self blocks) = thread self
  /\ MAX_BUFFER_LEN (callbacks self blocks) = MAX_BUFFER_LEN self
  /\ audio_queue (callbacks self blocks) = audio_queue self ++ blocks.
Proof.
  induction blocks as [|block blocks IH] using rev_ind.
  - unfold callbacks; simpl. rewrite app_nil_r. repeat split; reflexivity.
  - rewrite callbacks_snoc.
    destruct (callback_config (callbacks self blocks) block)
      as (H1 & H2 & H3 & H4 & H5 & H6).
    destruct IH as (I1 & I2 & I3 & I4 & I5 & I6).
    rewrite H1, H2, H3, H4, H5, H6, I1, I2, I3, I4, I5, I6, app_assoc.
    repeat split; reflexivity.
Qed.

(** The callback queues every block it is given, in the order of
    arrival and behind what the queue held: no block is dropped or
    reordered, whatever the rolling buffer does, and the callbacks
    neither start nor stop the listener. *)
Lemma callbacks_queue_in_order (self : AudioListener)
    (blocks : list byte_string) :
  audio_queue (callbacks self blocks) = audio_queue self ++ blocks
  /\ listening (callbacks self blocks) = listening self
  /\ thread (callbacks self blocks) = thread self.
Proof.
  destruct (callbacks_config self blocks) as (_ & _ & H3 & H4 & _ & H6).
  auto.
Qed.

(** X10: After any run of callbacks the speaking flag is the class of the
    tail of the last block that was at least a frame long, and the flag
    the listener had when there was no such block. *)
Theorem callbacks_speaking_flag (self : AudioListener)
    (blocks : list byte_string) :
  speech_detected (callbacks self blocks)
  = match Design.last_long (frame_size self) blocks with
    | Some block =>
        VadUtils.is_speech (vad self) (slice_from (- frame_size self) block)
    | None => speech_detected self
    end.
Proof.
  unfold Design.last_long.
  induction blocks as [|block blocks IH] using rev_ind; [reflexivity|].
  rewrite callbacks_snoc, List.filter_app. simpl.
  destruct (callbacks_config self blocks) as (Hn & Hv & _).
  unfold _callback at 1. 
  destruct (len (buffer _) >? MAX_BUFFER_LEN _); simpl; rewrite Hn, Hv;
    (destruct (len block >=? frame_size self); simpl;
     [rewrite last_snoc; destruct (VadUtils.is_speech _ _); reflexivity
     |rewrite app_nil_r; exact IH]).
Qed.

(** Two long loud blocks and a short silent one: the flag is that of the
    second loud block. *)
Example callbacks_flag_last_long :
  speech_detected
    (callbacks Samples.listener_1ms [[x01; x01]; [x00; x00; x00; x01]; [x00]])
  = true.
Proof. reflexivity. Qed.

Lemma stop_listening_stopped (self : AudioListener) (rt : runtime) :
  listening self = false -> stop_listening self rt = (self, rt).
Proof. intros H. unfold stop_listening. rewrite H. reflexivity. Qed.

(** The thread of a listener that is stopped has ended, and stopping
    starts no thread. *)
Lemma stop_listening_joined (self : AudioListener) (rt : runtime) :
  let '(self1, rt1) := stop_listening self rt in
  listening self1 = false
  /\ (forall t, thread self1 = Some t -> listening self = true ->
                t ∉ alive rt1)
  /\ thread self1 = thread self
  /\ alive rt1 ⊆ alive rt
  /\ next_tid rt1 = next_tid rt.
Proof.
  unfold stop_listening. destruct (listening self) eqn:Hl; simpl.
  - destruct (thread self) as [t|] eqn:Ht; simpl.
    + destruct (bool_decide (t ∈ alive rt)) eqn:Hd; simpl.
      * split; [reflexivity|]. split.
        { intros t' Ht' _. inversion Ht'; subst t'.
          apply not_elem_of_difference. right. apply elem_of_singleton.
          reflexivity. }
        split; [reflexivity|].
        split; [apply subseteq_difference_l; reflexivity|reflexivity].
      * apply bool_decide_eq_false in Hd.
        split; [reflexivity|]. split.
        { intros t' Ht' _. inversion Ht'; subst t'. exact Hd. }
        repeat split; reflexivity.
    + split; [reflexivity|]. split; [discriminate|].
      repeat split; reflexivity.
  - split; [exact Hl|]. split; [discriminate|]. repeat split; reflexivity.
Qed.

(** X11: [stop_listening] leaves a listener that does not listen, with its
    queue and its rolling buffer empty when it was listening, and whose
    thread has ended; the speaking flag keeps its last value, no thread
    is started, and stopping twice is stopping once. *)
Theorem stop_listening_stops (self : AudioListener) (rt : runtime) :
  let '(self1, rt1) := stop_listening self rt in
  listening self1 = false
  /\ (listening self = true -> audio_queue self1 = [] /\ buffer self1 = [])
  /\ (forall t, thread self1 = Some t -> listening self = true ->
                t ∉ alive rt1)
  /\ speech_detected self1 = speech_detected self
  /\ thread self1 = thread self
  /\ alive rt1 ⊆ alive rt
  /\ next_tid rt1 = next_tid rt
  /\ stop_listening self1 rt1 = (self1, rt1).
Proof.
  unfold stop_listening. destruct (listening self) eqn:Hl; simpl.
  - destruct (thread self) as [t|] eqn:Ht; simpl.
    + destruct (bool_decide (t ∈ alive rt)) eqn:Hd; simpl.
      * split; [reflexivity|]. split; [auto|]. split.
        { intros t' Ht' _. inversion Ht'; subst t'.
          apply not_elem_of_difference. right. apply elem_of_singleton.
          reflexivity. }
        split; [reflexivity|]. split; [reflexivity|].
        split; [apply subseteq_difference_l; reflexivity|].
        split; reflexivity.
      * apply bool_decide_eq_false in Hd.
        split; [reflexivity|]. split; [auto|]. split.
        { intros t' Ht' _. inversion Ht'; subst t'. exact Hd. }
        split; [reflexivity|]. split; [reflexivity|].
        split; [reflexivity|]. split; reflexivity.
    + split; [reflexivity|]. split; [auto|]. split; [discriminate|].
      split; [reflexivity|]. split; [reflexivity|].
      split; [reflexivity|]. split; reflexivity.
  - rewrite Hl. simpl. split; [reflexivity|]. split; [discriminate|].
    split; [discriminate|]. repeat split; reflexivity.
Qed.

(** Stopping the running default listener. *)
Lemma stop_listening_stops_witness :
  listening Samples.running16k = true
  /\ audio_queue (stop_listening Samples.running16k Samples.one_thread).1 = []
  /\ buffer (stop_listening Samples.running16k Samples.one_thread).1 = [].
Proof.
  split; [reflexivity|].
  pose proof (stop_listening_stops Samples.running16k Samples.one_thread) as H.
  destruct (stop_listening Samples.running16k Samples.one_thread)
    as [self1 rt1].
  destruct H as (_ & H & _). exact (H eq_refl).
Defined.

(** X12: A stopped listener that is started and then stopped has run one
    thread, which has ended: the threads that run are those that ran
    before. A second start gets a thread of its own, and each start
    begins with an empty buffer and the flag down. *)
Theorem start_stop_round_trip (self : AudioListener) (rt : runtime) :
  listening self = false ->
  Design.runtime_fresh rt ->
  let '(_, self1, rt1) := start_listening self rt in
  let '(self2, rt2) := stop_listening self1 rt1 in
  let '(_, self3, rt3) := start_listening self2 rt2 in
  listening self1 = true
  /\ listening self2 = false
  /\ alive rt2 = alive rt
  /\ buffer self2 = [] /\ audio_queue self2 = []
  /\ listening self3 = true
  /\ thread self1 = Some (next_tid rt)
  /\ thread self3 = Some (S (next_tid rt))
  /\ alive rt3 = {[S (next_tid rt)]} ∪ alive rt
  /\ buffer self3 = [] /\ speech_detected self3 = false.
Proof.
  intros Hl Hfresh. unfold start_listening. rewrite Hl. simpl.
  unfold stop_listening. simpl.
  assert (Hin : next_tid rt ∈ ({[next_tid rt]} ∪ alive rt : gset tid))
    by set_solver.
  rewrite (bool_decide_eq_true_2 _ Hin). simpl.
  assert (Hnew : next_tid rt ∉ alive rt).
  { intros H. specialize (Hfresh _ H). lia. }
  assert (Hback : (({[next_tid rt]} ∪ alive rt) ∖ {[next_tid rt]} : gset tid)
                  = alive rt) by (apply leibniz_equiv; set_solver).
  rewrite Hback. repeat split; reflexivity.
Qed.

(** The round trip at the default listener in a process without
    threads. *)
Lemma start_stop_round_trip_witness :
  listening Samples.listener16k = false
  /\ Design.runtime_fresh Samples.no_threads
  /\ alive (stop_listening
              (start_listening Samples.listener16k Samples.no_threads).1.2
              (start_listening Samples.listener16k Samples.no_threads).2).2
     = alive Samples.no_threads.
Proof.
  assert (H1 : listening Samples.listener16k = false) by reflexivity.
  assert (H2 : Design.runtime_fresh Samples.no_threads).
  { intros t Ht. simpl in Ht. apply elem_of_empty in Ht. contradiction. }
  split; [exact H1|]. split; [exact H2|].
  pose proof (start_stop_round_trip Samples.listener16k Samples.no_threads
                H1 H2) as H.
  destruct (start_listening Samples.listener16k Samples.no_threads)
    as [[r self1] rt1].
  simpl. destruct (stop_listening self1 rt1) as [self2 rt2].
  destruct (start_listening self2 rt2) as [[r3 self3] rt3].
  simpl. exact (proj1 (proj2 (proj2 H))).
Defined.

(** A listener as [__init__] builds it is stopped and empty, has the
    frame size and the sample rate of its segmenter, and a rolling
    buffer of a hundred frames; [__init__] fails exactly when that of
    the segmenter does. *)
Lemma AudioListener_init_outcome (classifier : byte_string -> bool)
    (sr fd : Z) :
  match AudioListener_init classifier sr fd with
  | Returned self =>
      VadUtils.VADAudio_init (fun _ => Returned classifier) sr fd 2
      = Returned (vad self)
      /\ frame_size self = VadUtils.frame_size (vad self)
      /\ sample_rate self = VadUtils.sample_rate (vad self)
      /\ MAX_BUFFER_LEN self = frame_size self * 100
      /\ listening self = false
      /\ buffer self = [] /\ audio_queue self = []
      /\ speech_detected self = false /\ thread self = None
  | Raised e =>
      VadUtils.VADAudio_init (fun _ => Returned classifier) sr fd 2 = Raised e
  end.
Proof.
  unfold AudioListener_init, VadUtils.VADAudio_init. simpl.
  destruct (int_truediv (sr * fd) 1000) as [x|e]; [|reflexivity]. simpl.
  destruct (int_of_float x) as [samples|e]; [|reflexivity]. simpl.
  destruct (int_truediv 300 fd) as [y|e]; [|reflexivity]. simpl.
  destruct (int_of_float y) as [n|e]; [|reflexivity]. simpl.
  destruct (n <? 0); [reflexivity|]. simpl.
  repeat split; reflexivity.
Qed.

End ListenerFacts.

(** ** conversation_manager.py: sessions and histories *)

Section Sessions.
Import Py ConversationManager.
Local Open Scope string_scope.
Local Open Scope list_scope.

(** X13: [get_session] always returns. It creates a session on the first
    reference only, with an empty history, a stopped default listener,
    an empty window of ten flags and no playback thread; a session that
    exists is returned as it is; the other sessions are never touched;
    and a second call returns the same session and changes nothing. *)
Theorem get_session_creates_once (env : manager_env)
    (self : gmap string Session) (session_id : string) :
  exists self1 session,
    get_session env self session_id = Returned (self1, session)
    /\ self1 !! session_id = Some session
    /\ (forall other, other <> session_id -> self1 !! other = self !! other)
    /\ (forall s, self !! session_id = Some s -> self1 = self /\ session = s)
    /\ (self !! session_id = None ->
          history session = []
          /\ AudioListener.listening (listener session) = false
          /\ AudioListener.frame_size (listener session) = 960
          /\ sliding_window session = mkDeque 10 []
          /\ stop_tts_flag session = false
          /\ playback_thread session = None)
    /\ get_session env self1 session_id = Returned (self1, session).
Proof.
  unfold get_session. destruct (self !! session_id) as [s|] eqn:Hs.
  - exists self, s. rewrite Hs. split; [reflexivity|]. split; [reflexivity|].
    split; [reflexivity|]. split; [|split; [discriminate|reflexivity]].
    intros s' Hs'. inversion Hs'. split; reflexivity.
  - simpl. eexists _, _. split; [reflexivity|].
    rewrite lookup_insert_eq. split; [reflexivity|].
    split; [intros other Hne; apply lookup_insert_ne; congruence|].
    split; [discriminate|]. split; [|reflexivity].
    intros _. repeat split; reflexivity.
Qed.

Lemma get_session_known (env : manager_env) (self : gmap string Session)
    (session_id : string) (s : Session) :
  self !! session_id = Some s ->
  get_session env self session_id = Returned (self, s).
Proof. intros H. unfold get_session. rewrite H. reflexivity. Qed.

Lemma get_session_lookup (env : manager_env) (self : gmap string Session)
    (session_id : string) :
  exists self1 session,
    get_session env self session_id = Returned (self1, session)
    /\ self1 !! session_id = Some session
    /\ (forall other, other <> session_id -> self1 !! other = self !! other)
    /\ (forall s, self !! session_id = Some s -> self1 = self /\ session = s).
Proof.
  unfold get_session. destruct (self !! session_id) as [s|] eqn:Hs.
  - exists self, s. rewrite Hs. split; [reflexivity|]. split; [reflexivity|].
    split; [reflexivity|]. intros s' Hs'. inversion Hs'. split; reflexivity.
  - simpl. eexists _, _. split; [reflexivity|].
    rewrite lookup_insert_eq. split; [reflexivity|].
    split; [intros other Hne; apply lookup_insert_ne; congruence|].
    discriminate.
Qed.

(** What the block of a turn does to the sessions, whatever the
    history. *)
Lemma process_turn_block_result (env : manager_env)
    (self : gmap string Session)
    (session_id : string) (audio_bytes : byte_string)
    (self1 : gmap string Session) (response : string) :
  process_turn_block env self session_id audio_bytes
  = Returned (self1, response) ->
  exists self0 session h said,
    get_session env self session_id = Returned (self0, session)
    /\ self1 = <[session_id := set_history session
                                 (h ++ [mkTurn "user" said;
                                        mkTurn "assistant" response])]> self0
    /\ (h = history session \/ exists e, history session = h ++ [e]).
Proof.
  unfold process_turn_block.
  destruct (get_session_lookup env self session_id)
    as (self0 & session & Hget & _). rewrite Hget. simpl.
  destruct (save_file env audio_bytes) as [wav_path|e]; [|discriminate]. simpl.
  destruct (Stt.transcribe_audio (whisper env) wav_path) as [text|e];
    [|discriminate]. simpl.
  unfold history_last.
  destruct (last (history session)) as [e|] eqn:Hlast.
  - apply last_Some in Hlast. destruct Hlast as [h0 Hh].
    destruct (String.eqb (role e) "user").
    + destruct (_is_followup text (content e)).
      * destruct (Llm.query_llm (chat env) _) as [reply|e']; [|discriminate].
        simpl. intros H. inversion H; subst.
        exists self0, session, h0, (content e ++ " " ++ text)%string.
        split; [reflexivity|]. rewrite Hh at 1.
        unfold history_pop. rewrite length_app. simpl.
        rewrite take_app_length' by lia. rewrite <- app_assoc.
        split; [reflexivity|]. right. exists e. exact Hh.
      * destruct (Llm.query_llm (chat env) _) as [reply|e']; [|discriminate].
        simpl. intros H. inversion H; subst.
        exists self0, session, (history session), text.
        split; [reflexivity|]. rewrite <- app_assoc.
        split; [reflexivity|left; reflexivity].
    + destruct (Llm.query_llm (chat env) _) as [reply|e']; [|discriminate].
      simpl. intros H. inversion H; subst.
      exists self0, session, (history session), text.
      split; [reflexivity|]. rewrite <- app_assoc.
      split; [reflexivity|left; reflexivity].
  - destruct (Llm.query_llm (chat env) _) as [reply|e']; [|discriminate].
    simpl. intros H. inversion H; subst.
    exists self0, session, (history session), text.
    split; [reflexivity|]. rewrite <- app_assoc.
    split; [reflexivity|left; reflexivity].
Qed.

(** A turn that returns: its block returned, and line 120 replaced the
    playback thread of the session the block left. *)
Lemma process_turn_returned (env : manager_env) (self : gmap string Session)
    (rt : AudioListener.runtime) (session_id : string)
    (audio_bytes : byte_string) (self1 : gmap string Session)
    (rt1 : AudioListener.runtime) (response : string) :
  process_turn env self rt session_id audio_bytes
  = Returned (self1, rt1, response) ->
  exists self0 session0,
    process_turn_block env self session_id audio_bytes
    = Returned (self0, response)
    /\ self0 !! session_id = Some session0
    /\ self1 = <[session_id := (replace_playback_thread session0 rt).1]> self0
    /\ rt1 = (replace_playback_thread session0 rt).2.
Proof.
  intros Hturn.
  destruct (process_turn_block env self session_id audio_bytes)
    as [[self0 reply]|e] eqn:Hb;
    [|rewrite (process_turn_block_raises env self rt session_id audio_bytes
                 e Hb) in Hturn; discriminate Hturn].
  destruct (process_turn_block_result _ _ _ _ _ _ Hb)
    as (self00 & session & h & said & _ & Hself0 & _).
  assert (Hs : self0 !! session_id
               = Some (set_history session
                         (h ++ [mkTurn "user" said;
                                mkTurn "assistant" reply])))
    by (rewrite Hself0; apply lookup_insert_eq).
  rewrite (process_turn_after_block env self self0 rt session_id audio_bytes
             reply _ Hb Hs) in Hturn.
  inversion Hturn; subst. eexists _, _. split; [reflexivity|].
  split; [exact Hs|]. split; reflexivity.
Qed.

(** X14: What a turn changes: in its session the history, which ends in
    the user entry of the turn followed by the reply as an assistant
    entry, and the playback thread, which is the thread the turn
    started; the listener and the window of the session stay, and so
    does every other session. The playback thread the session had
    does not run any more, and no other thread is started or ended.
    The flag, which line 84 and the thread started write, is left
    out. *)
Theorem process_turn_effects (env : manager_env)
    (self : gmap string Session) (rt : AudioListener.runtime)
    (session_id : string) (audio_bytes : byte_string)
    (self1 : gmap string Session) (rt1 : AudioListener.runtime)
    (response : string) :
  process_turn env self rt session_id audio_bytes
  = Returned (self1, rt1, response) ->
  (forall other, other <> session_id -> self1 !! other = self !! other)
  /\ exists self0 session session1 h said,
       get_session env self session_id = Returned (self0, session)
       /\ self1 !! session_id = Some session1
       /\ listener session1 = listener session
       /\ sliding_window session1 = sliding_window session
       /\ history session1 = (h ++ [mkTurn "user" said;
                                    mkTurn "assistant" response])%list
       /\ playback_thread session1 = Some (AudioListener.next_tid rt)
       /\ AudioListener.next_tid rt1 = S (AudioListener.next_tid rt)
       /\ AudioListener.alive rt1
          = {[AudioListener.next_tid rt]}
            ∪ (AudioListener.alive rt
               ∖ match playback_thread session with
                 | Some t => {[t]}
                 | None => ∅
                 end).
Proof.
  intros Hturn.
  destruct (process_turn_returned _ _ _ _ _ _ _ _ Hturn)
    as (self0' & session0 & Hb & Hs0 & -> & ->).
  destruct (process_turn_block_result _ _ _ _ _ _ Hb)
    as (self0 & session & h & said & Hget & -> & _).
  rewrite lookup_insert_eq in Hs0. inversion Hs0; subst session0; clear Hs0.
  destruct (get_session_lookup env self session_id)
    as (self0' & session' & Hget' & _ & Hother & _).
  rewrite Hget in Hget'. inversion Hget'; subst self0' session'. split.
  - intros other Hne. rewrite !lookup_insert_ne by congruence.
    apply Hother, Hne.
  - pose proof (replace_playback_thread_effects
                  (set_history session
                     (h ++ [mkTurn "user" said; mkTurn "assistant" response]))
                  rt) as (Hl & Hw & Hp & Hn & Ha).
    pose proof (replace_playback_thread_history
                  (set_history session
                     (h ++ [mkTurn "user" said; mkTurn "assistant" response]))
                  rt) as Hh.
    eexists self0, session, _, h, said. split; [exact Hget|].
    rewrite lookup_insert_eq. split; [reflexivity|].
    split; [exact Hl|]. split; [exact Hw|]. split; [exact Hh|].
    split; [exact Hp|]. split; [exact Hn|exact Ha].
Qed.

(** A turn at the session of one empty user entry, in a process with
    the capture thread only: the playback thread is the thread 1. *)
Lemma process_turn_effects_witness :
  exists self1 rt1 session1,
    process_turn Samples.small_world Samples.one_session Samples.one_thread
      "s" [x01]
    = Returned (self1, rt1, "and")
    /\ (forall other, other <> "s" ->
          self1 !! other = Samples.one_session !! other)
    /\ self1 !! "s" = Some session1
    /\ playback_thread session1 = Some 1%nat
    /\ AudioListener.next_tid rt1 = 2%nat.
Proof.
  destruct (process_turn Samples.small_world Samples.one_session
              Samples.one_thread "s" [x01])
    as [[[self1 rt1] response]|e] eqn:Hturn;
    [|exfalso;
      destruct (process_turn_block_returns Samples.small_world
                  Samples.one_session "s" [x01] "turn.wav" eq_refl)
        as (self0 & reply & session0 & Hb & Hs0);
      rewrite (process_turn_after_block _ _ _ Samples.one_thread _ _ _ _
                 Hb Hs0) in Hturn; discriminate Hturn].
  assert (Hresp : response = "and").
  { destruct (process_turn_returned _ _ _ _ _ _ _ _ Hturn)
      as (self0 & session0 & Hb & _).
    unfold process_turn_block, get_session in Hb.
    replace (Samples.one_session !! "s")
      with (Some Samples.empty_user_session) in Hb
      by (symmetry; apply lookup_singleton_eq).
    simpl in Hb. inversion Hb. reflexivity. }
  subst response.
  destruct (process_turn_effects _ _ _ _ _ _ _ _ Hturn)
    as (Hother & self0 & session & session1 & h & said & _ & Hs1 & _ & _
          & _ & Hp & Hn & _).
  exists self1, rt1, session1. split; [reflexivity|].
  split; [exact Hother|]. split; [exact Hs1|]. split; [exact Hp|exact Hn].
Defined.

(** X15: The only way for a turn to fail is the write of its temporary file:
    [process_turn] raises exactly when [_save_audio_buffer_to_file]
    does, and the same exception; line 120 does not raise. *)
Theorem process_turn_fails_with_save (env : manager_env)
    (self : gmap string Session) (rt : AudioListener.runtime)
    (session_id : string) (audio_bytes : byte_string) (e : exn) :
  process_turn env self rt session_id audio_bytes = Raised e
  <-> save_file env audio_bytes = Raised e.
Proof.
  destruct (save_file env audio_bytes) as [wav_path|e'] eqn:Hsave.
  - destruct (process_turn_block_returns env self session_id audio_bytes
                wav_path Hsave) as (self1 & response & session1 & Hb & Hs).
    rewrite (process_turn_after_block env self self1 rt session_id
               audio_bytes response session1 Hb Hs).
    split; discriminate.
  - assert (Hb : process_turn_block env self session_id audio_bytes
                 = Raised e').
    { unfold process_turn_block.
      destruct (get_session_lookup env self session_id)
        as (self0 & session & Hget & _). rewrite Hget. simpl.
      rewrite Hsave. reflexivity. }
    rewrite (process_turn_block_raises env self rt session_id audio_bytes
               e' Hb).
    split; intros H; inversion H; reflexivity.
Qed.

End Sessions.

Section Histories.
Import Py ConversationManager.
Local Open Scope string_scope.
Local Open Scope list_scope.

Lemma alternating_last (h : list turn) :
  Design.alternating h ->
  forall e, last h = Some e -> role e = "assistant".
Proof.
  intros Halt e Hlast. destruct Halt as [|h said response _].
  - discriminate.
  - replace (h ++ [mkTurn "user" said; mkTurn "assistant" response])
      with ((h ++ [mkTurn "user" said]) ++ [mkTurn "assistant" response])
      in Hlast by (rewrite <- app_assoc; reflexivity).
    rewrite last_snoc in Hlast. inversion Hlast. reflexivity.
Qed.

(** A turn on a history that does not end in a user entry appends. *)
Lemma process_turn_block_appends (env : manager_env)
    (self : gmap string Session)
    (session_id : string) (audio_bytes : byte_string) (session : Session)
    (self1 : gmap string Session) (response : string) :
  self !! session_id = Some session ->
  (forall e, last (history session) = Some e -> role e <> "user") ->
  process_turn_block env self session_id audio_bytes
  = Returned (self1, response) ->
  exists wav_path text,
    save_file env audio_bytes = Returned wav_path
    /\ Stt.transcribe_audio (whisper env) wav_path = Returned text
    /\ Llm.query_llm (chat env) text = Returned response
    /\ self1 = <[session_id := set_history session
                   (history session ++ [mkTurn "user" text;
                                        mkTurn "assistant" response])]> self.
Proof.
  intros Hs Hlast. unfold process_turn_block.
  rewrite (get_session_known env self session_id session Hs). simpl.
  destruct (save_file env audio_bytes) as [wav_path|e] eqn:Hsave;
    [|discriminate]. simpl.
  destruct (Stt.transcribe_audio (whisper env) wav_path) as [text|e] eqn:Htext;
    [|discriminate]. simpl.
  unfold history_last.
  assert (Hm : match last (history session) with
               | Some e =>
                   if String.eqb (role e) "user"
                   then if _is_followup text (content e)
                        then ((content e ++ " " ++ text)%string,
                              history_pop (history session))
                        else (text, history session)
                   else (text, history session)
               | None => (text, history session)
               end = (text, history session)).
  { destruct (last (history session)) as [e|] eqn:He; [|reflexivity].
    destruct (String.eqb_spec (role e) "user") as [Hu|_]; [|reflexivity].
    exfalso. exact (Hlast e eq_refl Hu). }
  rewrite Hm.
  destruct (Llm.query_llm (chat env) text) as [reply|e] eqn:Hq; [|discriminate].
  simpl. intros H. inversion H; subst. exists wav_path, text.
  split; [reflexivity|]. split; [exact Htext|]. split; [exact Hq|].
  do 2 f_equal. rewrite <- app_assoc. reflexivity.
Qed.

(** X16: A history of whole turns stays one: on such a history a turn never
    merges, it appends the transcription as a user entry and the reply
    as an assistant entry. Every history [process_turn] builds from an
    empty one is of this kind, so between two turns of a session the
    merge of a follow-up never applies. *)
Theorem process_turn_keeps_alternating (env : manager_env)
    (self : gmap string Session) (rt : AudioListener.runtime)
    (session_id : string) (audio_bytes : byte_string) (session : Session)
    (self1 : gmap string Session) (rt1 : AudioListener.runtime)
    (response : string) :
  self !! session_id = Some session ->
  Design.alternating (history session) ->
  process_turn env self rt session_id audio_bytes
  = Returned (self1, rt1, response) ->
  exists wav_path text session1,
    save_file env audio_bytes = Returned wav_path
    /\ Stt.transcribe_audio (whisper env) wav_path = Returned text
    /\ self1 !! session_id = Some session1
    /\ history session1
       = history session ++ [mkTurn "user" text; mkTurn "assistant" response]
    /\ Design.alternating (history session1).
Proof.
  intros Hs Halt Hturn.
  destruct (process_turn_returned _ _ _ _ _ _ _ _ Hturn)
    as (self0 & session0 & Hb & Hs0 & -> & _).
  destruct (process_turn_block_appends env self session_id audio_bytes session
              self0 response Hs) as (wav_path & text & H1 & H2 & _ & ->);
    [|exact Hb|].
  { intros e He Hu. rewrite (alternating_last _ Halt e He) in Hu.
    discriminate. }
  rewrite lookup_insert_eq in Hs0. inversion Hs0; subst session0; clear Hs0.
  eexists wav_path, text, _. split; [exact H1|]. split; [exact H2|].
  rewrite lookup_insert_eq. split; [reflexivity|].
  rewrite replace_playback_thread_history. simpl.
  split; [reflexivity|]. constructor. exact Halt.
Qed.

(** After a whole turn the next utterance is heard as [and], a
    continuation keyword, and is appended all the same. *)
Lemma process_turn_keeps_alternating_witness :
  Samples.turned_sessions !! "s" = Some Samples.turned_session
  /\ Design.alternating (history Samples.turned_session)
  /\ exists self1 rt1 session1,
       process_turn Samples.small_world Samples.turned_sessions
         Samples.one_thread "s" [x01]
       = Returned (self1, rt1, "and")
       /\ self1 !! "s" = Some session1
       /\ history session1
          = history Samples.turned_session
            ++ [mkTurn "user" "and"; mkTurn "assistant" "and"].
Proof.
  assert (H1 : Samples.turned_sessions !! "s" = Some Samples.turned_session)
    by apply lookup_singleton_eq.
  assert (H2 : Design.alternating (history Samples.turned_session))
    by (apply (Design.alternating_turn [] "hi" "hello"); constructor).
  split; [exact H1|]. split; [exact H2|].
  assert (Hb : process_turn_block Samples.small_world Samples.turned_sessions
                 "s" [x01]
               = Returned (<["s" := set_history Samples.turned_session
                               (history Samples.turned_session
                                ++ [mkTurn "user" "and";
                                    mkTurn "assistant" "and"])]>
                             Samples.turned_sessions, "and")).
  { unfold process_turn_block. rewrite (get_session_known _ _ _ _ H1).
    reflexivity. }
  pose proof (process_turn_after_block _ _ _ Samples.one_thread _ _ _ _ Hb
                (lookup_insert_eq _ _ _)) as H3.
  destruct (process_turn_keeps_alternating Samples.small_world
              Samples.turned_sessions Samples.one_thread "s" [x01]
              Samples.turned_session _ _ _ H1 H2 H3)
    as (wav_path & text & session1 & _ & Htext & Hs1 & Hh1 & _).
  inversion Htext; subst text.
  eexists _, _, session1. split; [exact H3|]. split; [exact Hs1|exact Hh1].
Defined.

(** X17: [reset_history] always returns; the session has an empty history
    afterwards and is otherwise as it was, or new when it did not
    exist; the other sessions are untouched; and resetting twice is
    resetting once. *)
Theorem reset_history_empties (env : manager_env)
    (self : gmap string Session) (session_id : string) :
  exists self1 session1,
    reset_history env self session_id = Returned self1
    /\ self1 !! session_id = Some session1
    /\ history session1 = []
    /\ (forall s, self !! session_id = Some s -> session1 = set_history s [])
    /\ (forall other, other <> session_id -> self1 !! other = self !! other)
    /\ reset_history env self1 session_id = Returned self1.
Proof.
  unfold reset_history.
  destruct (get_session_lookup env self session_id)
    as (self0 & session & Hget & _ & Hother & Hknown).
  rewrite Hget. simpl. eexists _, _. split; [reflexivity|].
  rewrite lookup_insert_eq. split; [reflexivity|]. split; [reflexivity|].
  split; [|split].
  - intros s Hs. destruct (Hknown s Hs) as [_ ->]. reflexivity.
  - intros other Hne. rewrite lookup_insert_ne by congruence.
    apply Hother, Hne.
  - rewrite (get_session_known env _ session_id (set_history session []))
      by apply lookup_insert_eq.
    simpl. rewrite insert_insert_eq. reflexivity.
Qed.

(** X18: [stop_session] on a name that has no session does nothing: it does
    not create one. On a session it stops the listener and waits for
    the playback thread, so that neither the capture thread nor the
    playback thread of the session runs afterwards; the history stays,
    no thread is started, and the other sessions are untouched. *)
Theorem stop_session_stops (self : gmap string Session)
    (session_id : string) (rt : AudioListener.runtime) :
  let '(self1, rt1) := stop_session self session_id rt in
  (self !! session_id = None -> self1 = self /\ rt1 = rt)
  /\ (forall other, other <> session_id -> self1 !! other = self !! other)
  /\ AudioListener.alive rt1 ⊆ AudioListener.alive rt
  /\ AudioListener.next_tid rt1 = AudioListener.next_tid rt
  /\ forall session, self !! session_id = Some session ->
       exists session1,
         self1 !! session_id = Some session1
         /\ AudioListener.listening (listener session1) = false
         /\ history session1 = history session
         /\ playback_thread session1 = playback_thread session
         /\ (forall t, playback_thread session = Some t ->
                       t ∉ AudioListener.alive rt1)
         /\ (forall t, AudioListener.thread (listener session) = Some t ->
                       AudioListener.listening (listener session) = true ->
                       t ∉ AudioListener.alive rt1).
Proof.
  unfold stop_session. destruct (self !! session_id) as [session|] eqn:Hs.
  - pose proof (stop_listening_joined (listener session) rt) as Hstop.
    destruct (AudioListener.stop_listening (listener session) rt) as [l rt0].
    destruct Hstop as (Hl & Hthread & Hsame & Hsub & Hnext).
    simpl.
    destruct (playback_thread session) as [t|] eqn:Hp.
    + destruct (bool_decide (t ∈ AudioListener.alive rt0)) eqn:Hd.
      * split; [discriminate|].
        split; [intros other Hne; apply lookup_insert_ne; congruence|].
        split; [simpl; set_solver|]. split; [exact Hnext|].
        intros s Hs'. inversion Hs'; subst s. eexists.
        rewrite lookup_insert_eq. split; [reflexivity|]. simpl.
        split; [exact Hl|]. split; [reflexivity|]. split; [reflexivity|].
        split.
        -- intros t' Ht'. rewrite Hp in Ht'. inversion Ht'; subst t'. set_solver.
        -- intros t' Ht' Hlis. rewrite <- Hsame in Ht'.
           specialize (Hthread t' Ht' Hlis). set_solver.
      * apply bool_decide_eq_false in Hd.
        split; [discriminate|].
        split; [intros other Hne; apply lookup_insert_ne; congruence|].
        split; [exact Hsub|]. split; [exact Hnext|].
        intros s Hs'. inversion Hs'; subst s. eexists.
        rewrite lookup_insert_eq. split; [reflexivity|]. simpl.
        split; [exact Hl|]. split; [reflexivity|]. split; [reflexivity|].
        split.
        -- intros t' Ht'. rewrite Hp in Ht'. inversion Ht'; subst t'. exact Hd.
        -- intros t' Ht' Hlis. rewrite <- Hsame in Ht'.
           exact (Hthread t' Ht' Hlis).
    + split; [discriminate|].
      split; [intros other Hne; apply lookup_insert_ne; congruence|].
      split; [exact Hsub|]. split; [exact Hnext|].
      intros s Hs'. inversion Hs'; subst s. eexists.
      rewrite lookup_insert_eq. split; [reflexivity|]. simpl.
      split; [exact Hl|]. split; [reflexivity|]. split; [reflexivity|].
      split; [intros t' Ht'; rewrite Hp in Ht'; discriminate|].
      intros t' Ht' Hlis. rewrite <- Hsame in Ht'.
      exact (Hthread t' Ht' Hlis).
  - split; [auto|]. split; [reflexivity|]. split; [reflexivity|].
    split; [reflexivity|]. discriminate.
Qed.

(** Stopping a name that was never used leaves no session behind. *)
Lemma stop_session_stops_witness :
  (∅ : gmap string Session) !! "nobody" = None
  /\ stop_session ∅ "nobody" Samples.one_thread = (∅, Samples.one_thread).
Proof.
  split; [reflexivity|].
  pose proof (stop_session_stops ∅ "nobody" Samples.one_thread) as H.
  destruct (stop_session ∅ "nobody" Samples.one_thread) as [self1 rt1].
  destruct H as (H & _). destruct (H eq_refl) as [-> ->]. reflexivity.
Defined.

End Histories.

(** ** stt1.py and llm.py: the texts handed on *)

Section Texts.
Import Py Stt Llm.
Local Open Scope string_scope.

Lemma lstrip_nonspace (c : ascii) (r : string) :
  isspace c = false -> lstrip (String c r) = String c r.
Proof. intros H. simpl. rewrite H. reflexivity. Qed.

Lemma rstrip_nonspace (c : ascii) (r : string) :
  isspace c = false -> rstrip (String c r) = String c (rstrip r).
Proof. intros H. simpl. rewrite H. reflexivity. Qed.

Lemma rstrip_idem (s : string) : rstrip (rstrip s) = rstrip s.
Proof.
  induction s as [|c s IH]; simpl; [reflexivity|].
  destruct (isspace c && (rstrip s =? "")) eqn:E; [reflexivity|].
  simpl. rewrite IH, E. reflexivity.
Qed.

(** Stripping twice is stripping once. *)
Lemma strip_idem (s : string) : strip (strip s) = strip s.
Proof.
  unfold strip. destruct (lstrip_head s) as [He|(c & r & He & Hc)].
  - rewrite He. reflexivity.
  - rewrite He, (rstrip_nonspace c r Hc), (lstrip_nonspace _ _ Hc).
    rewrite <- (rstrip_nonspace c r Hc). apply rstrip_idem.
Qed.

Lemma stripped_not_blank (s : string) :
  strip s = s -> s <> "" -> ~ Design.blank s.
Proof.
  intros Hs Hne Hb. apply strip_blank in Hb. rewrite Hs in Hb.
  exact (Hne Hb).
Qed.

(** The three ways [transcribe_audio] ends. *)
Lemma transcribe_audio_cases (whisper : string -> result string)
    (file_path : string) :
  transcribe_audio whisper file_path
    = Returned "Sorry, I couldn't understand the audio."
  \/ transcribe_audio whisper file_path
     = Returned "Sorry, I couldn't hear you clearly."
  \/ exists response_text,
       whisper file_path = Returned response_text
       /\ strip response_text <> ""
       /\ transcribe_audio whisper file_path = Returned (strip response_text).
Proof.
  unfold transcribe_audio.
  destruct (whisper file_path) as [response_text|e]; simpl.
  - destruct (is_empty (strip response_text)) eqn:E; simpl.
    + right. left. reflexivity.
    + right. right. exists response_text. split; [reflexivity|].
      split; [apply is_empty_false, E|reflexivity].
  - left. reflexivity.
Qed.

Lemma transcribe_audio_text (whisper : string -> result string)
    (file_path : string) :
  exists text,
    transcribe_audio whisper file_path = Returned text
    /\ strip text = text /\ text <> "".
Proof.
  destruct (transcribe_audio_cases whisper file_path)
    as [H|[H|(r & _ & Hne & H)]]; rewrite H; eexists;
    (split; [reflexivity|]).
  - split; [reflexivity|discriminate].
  - split; [reflexivity|discriminate].
  - split; [apply strip_idem|exact Hne].
Qed.

(** X19: [transcribe_audio] hands on a text that is stripped and never
    blank: the answer of the service without the whitespace around it,
    or one of its two apologies when the answer is blank or the service
    fails. *)
Theorem transcribe_audio_never_blank (whisper : string -> result string)
    (file_path : string) :
  exists text,
    transcribe_audio whisper file_path = Returned text
    /\ strip text = text
    /\ ~ Design.blank text
    /\ (forall response_text,
          whisper file_path = Returned response_text ->
          ~ Design.blank response_text -> text = strip response_text).
Proof.
  destruct (transcribe_audio_text whisper file_path) as (text & H & Hs & Hne).
  exists text. split; [exact H|]. split; [exact Hs|].
  split; [exact (stripped_not_blank text Hs Hne)|].
  intros response_text Hw Hnb. unfold transcribe_audio in H.
  rewrite Hw in H. simpl in H.
  destruct (is_empty (strip response_text)) eqn:E.
  - apply is_empty_true, strip_empty_iff in E. contradiction.
  - simpl in H. inversion H. reflexivity.
Qed.

(** X20: [query_llm] sends the prompt stripped, so the whitespace around
    a prompt makes no difference; its reply is stripped; and the reply
    is blank, and then empty, exactly when the content the service
    answers is blank. *)
Theorem query_llm_strips (chat : string -> result string) (prompt : string) :
  query_llm chat (strip prompt) = query_llm chat prompt
  /\ exists reply,
       query_llm chat prompt = Returned reply
       /\ strip reply = reply
       /\ (Design.blank reply <->
           exists content,
             chat (strip prompt) = Returned content /\ Design.blank content)
       /\ (Design.blank reply -> reply = "").
Proof.
  split; [unfold query_llm; rewrite strip_idem; reflexivity|].
  unfold query_llm.
  destruct (chat (strip prompt)) as [content|e]; simpl.
  - exists (strip content). split; [reflexivity|].
    split; [apply strip_idem|]. split.
    + split.
      * intros Hb. exists content. split; [reflexivity|].
        apply strip_empty_iff. apply strip_blank in Hb.
        rewrite strip_idem in Hb. exact Hb.
      * intros (content' & Hc & Hb). inversion Hc; subst content'.
        rewrite (strip_blank _ Hb). constructor.
    + intros Hb. apply strip_blank in Hb. rewrite strip_idem in Hb. exact Hb.
  - eexists. split; [reflexivity|]. split; [reflexivity|]. split.
    + split.
      * intros Hb. apply strip_blank in Hb. discriminate Hb.
      * intros (content & Hc & _). discriminate Hc.
    + intros Hb. apply strip_blank in Hb. discriminate Hb.
Qed.

End Texts.

(** ** tts1.py and main.py: the handler of [/chat] *)

Section Handler.
Import Py Tts Main.
Local Open Scope string_scope.

Lemma append_nil (y : string) : "" ++ y = y.
Proof. reflexivity. Qed.

Lemma append_cons (c : ascii) (x y : string) :
  String c x ++ y = String c (x ++ y).
Proof. reflexivity. Qed.

Lemma prefix_char (a c : ascii) (s : string) :
  String.prefix (String a "") (String c s) = Ascii.eqb a c.
Proof.
  simpl. destruct (ascii_dec a c) as [->|Hne].
  - rewrite Ascii.eqb_refl. destruct s; reflexivity.
  - symmetry. apply Ascii.eqb_neq, Hne.
Qed.

Lemma contains_char (a c : ascii) (s : string) :
  contains (String a "") (String c s)
  = Ascii.eqb a c || contains (String a "") s.
Proof.
  change (contains (String a "") (String c s))
    with (if String.prefix (String a "") (String c s) then true
          else contains (String a "") s).
  rewrite prefix_char. destruct (Ascii.eqb a c); reflexivity.
Qed.

Lemma contains_app_char (a : ascii) (x y : string) :
  contains (String a "") (x ++ String a y) = true.
Proof.
  induction x as [|c x IH];
    rewrite ?append_nil, ?append_cons; rewrite contains_char.
  - rewrite Ascii.eqb_refl. reflexivity.
  - rewrite IH. apply orb_true_r.
Qed.

Lemma contains_app_none (a : ascii) (x y : string) :
  contains (String a "") x = false -> contains (String a "") y = false ->
  contains (String a "") (x ++ y) = false.
Proof.
  intros Hx Hy. induction x as [|c x IH]; [exact Hy|].
  rewrite append_cons. rewrite contains_char in Hx |- *.
  apply orb_false_iff in Hx. destruct Hx as [Hc Hx].
  rewrite Hc, (IH Hx). reflexivity.
Qed.

Lemma after_last_dot_split (s : string) :
  contains "." s = true ->
  exists stem,
    s = stem ++ "." ++ after_last_dot s
    /\ contains "." (after_last_dot s) = false.
Proof.
  induction s as [|c s IH]; [discriminate|].
  rewrite contains_char. intros H. cbn [after_last_dot].
  destruct (contains "." s) eqn:Hs.
  - destruct (IH eq_refl) as (stem & Heq & Hno).
    exists (String c stem). split; [|exact Hno].
    rewrite append_cons. f_equal. exact Heq.
  - rewrite orb_false_r in H. rewrite Ascii.eqb_sym in H. rewrite H.
    apply Ascii.eqb_eq in H. subst c.
    exists "". split; [reflexivity|exact Hs].
Qed.

Lemma after_last_dot_unique (stem ext : string) :
  contains "." ext = false -> after_last_dot (stem ++ "." ++ ext) = ext.
Proof.
  intros Hno. induction stem as [|c stem IH].
  - change ("" ++ "." ++ ext) with (String "." ext).
    cbn [after_last_dot]. rewrite Hno. reflexivity.
  - rewrite append_cons. cbn [after_last_dot].
    change (stem ++ "." ++ ext) with (stem ++ String "." ext) in *.
    rewrite (contains_app_char "." stem ext). exact IH.
Qed.

Lemma basename_unique (directory name : string) :
  contains "/" name = false -> basename (directory ++ "/" ++ name) = name.
Proof.
  intros Hno. induction directory as [|c directory IH].
  - change ("" ++ "/" ++ name) with (String "/" name).
    cbn [basename]. rewrite Hno. reflexivity.
  - rewrite append_cons. cbn [basename].
    change (directory ++ "/" ++ name) with (directory ++ String "/" name) in *.
    rewrite (contains_app_char "/" directory name). exact IH.
Qed.

(** X21, [allowed_file]: a file name is accepted exactly when it is a stem,
    which may be empty, a dot, and an extension without a dot that is
    [wav], [mp3] or [m4a] in any mix of upper and lower case. *)
Theorem allowed_file_extension (filename : string) :
  allowed_file filename = true
  <-> exists stem ext,
        filename = stem ++ "." ++ ext
        /\ contains "." ext = false
        /\ In (lower ext) ALLOWED_EXTENSIONS.
Proof.
  unfold allowed_file. rewrite andb_true_iff, existsb_exists. split.
  - intros (Hdot & x & Hin & Hx). apply String.eqb_eq in Hx. subst x.
    destruct (after_last_dot_split filename Hdot) as (stem & Heq & Hno).
    exists stem, (after_last_dot filename).
    split; [exact Heq|]. split; [exact Hno|exact Hin].
  - intros (stem & ext & -> & Hno & Hin). split.
    + apply (contains_app_char "." stem ext).
    + exists (lower ext). split; [exact Hin|].
      rewrite (after_last_dot_unique stem ext Hno). apply String.eqb_refl.
Qed.

Lemma allowed_file_nonempty (name : string) :
  allowed_file name = true -> is_empty name = false.
Proof. destruct name; [discriminate|reflexivity]. Qed.

Lemma path_join_relative (name : string) :
  contains "/" name = false ->
  path_join TTS_OUTPUT_DIR name = "tts_output/" ++ name.
Proof.
  intros Hno. unfold path_join.
  assert (Hp : String.prefix "/" name = false).
  { destruct name as [|c name]; [reflexivity|].
    rewrite prefix_char. rewrite contains_char in Hno.
    apply orb_false_iff in Hno. exact (proj1 Hno). }
  rewrite Hp. reflexivity.
Qed.

Lemma path_join_nonempty (name : string) :
  path_join TTS_OUTPUT_DIR name <> "".
Proof.
  unfold path_join. destruct (String.prefix "/" name) eqn:Hp.
  - intros ->. discriminate Hp.
  - simpl. discriminate.
Qed.

(** What [generate_speech] has done when it returns a value that is not
    [None]. *)
Lemma generate_speech_value (env : tts_env) (text : string)
    (o : speech_options) (v : speech_value) (effects : list tts_effect) :
  generate_speech env text o = (v, effects) ->
  v <> PyNone ->
  ~ Design.blank text
  /\ client_init env = Returned tt
  /\ (exists name,
        path_of v = path_join TTS_OUTPUT_DIR name
        /\ (name = uuid_hex env ++ ".wav" \/ save_as o = Some name))
  /\ isfile env (path_of v) = true
  /\ (exists kwargs,
        synthesize env kwargs = Returned tt
        /\ kw_text kwargs = clean env text
        /\ kw_save_as kwargs = path_of v
        /\ effects = [ClientInit; Synthesize kwargs; IsFile (path_of v)]%list)
  /\ (if return_metadata o
      then exists m vo sr sp en, v = Metadata (path_of v) m vo sr sp en
      else v = OutputPath (path_of v)).
Proof.
  unfold generate_speech. intros H Hv.
  destruct (is_empty (strip text)) eqn:Hblank;
    [inversion H; subst; contradiction|].
  destruct (client_init env) as [[]|e];
    [|inversion H; subst; contradiction].
  cbv zeta in H.
  set (name := match save_as o with
               | Some name => if is_empty name then uuid_hex env ++ ".wav"
                              else name
               | None => uuid_hex env ++ ".wav"
               end) in H.
  assert (Hname : name = uuid_hex env ++ ".wav" \/ save_as o = Some name).
  { subst name. destruct (save_as o) as [n|]; [|left; reflexivity].
    destruct (is_empty n); [left|right]; reflexivity. }
  clearbody name.
  match type of H with
  | context [synthesize env ?k] => set (kwargs := k) in H
  end.
  destruct (synthesize env kwargs) as [[]|e] eqn:Hsyn;
    [|inversion H; subst; contradiction].
  destruct (isfile env (path_join TTS_OUTPUT_DIR name)) eqn:Hfile;
    simpl in H; [|inversion H; subst; contradiction].
  assert (Hnb : ~ Design.blank text).
  { intros Hb. apply strip_blank in Hb. rewrite Hb in Hblank.
    discriminate Hblank. }
  destruct (return_metadata o); inversion H; subst v effects; simpl.
  - split; [exact Hnb|]. split; [reflexivity|].
    split; [exists name; split; [reflexivity|exact Hname]|].
    split; [exact Hfile|].
    split; [exists kwargs; split; [exact Hsyn|repeat split; reflexivity]|].
    eexists _, _, _, _, _. reflexivity.
  - split; [exact Hnb|]. split; [reflexivity|].
    split; [exists name; split; [reflexivity|exact Hname]|].
    split; [exact Hfile|].
    split; [exists kwargs; split; [exact Hsyn|repeat split; reflexivity]|].
    reflexivity.
Qed.

(** X22, [generate_speech]: a value other than [None] is the path of a file
    that exists, the one the service was asked to write, in
    [tts_output] or wherever [save_as] says when it is absolute; it is
    a dictionary exactly when [return_metadata] is set; the service is
    asked once, and only for a text that is not blank; nothing is asked
    of the world exactly when the text is blank; and [not value] holds
    of [None] only, since a path is never empty. *)
Theorem generate_speech_outcome (env : tts_env) (text : string)
    (o : speech_options) :
  let '(v, effects) := generate_speech env text o in
  (falsy v = true <-> v = PyNone)
  /\ (effects = []%list <-> Design.blank text)
  /\ (v <> PyNone ->
      isfile env (path_of v) = true
      /\ (exists name,
            path_of v = path_join TTS_OUTPUT_DIR name
            /\ (name = uuid_hex env ++ ".wav" \/ save_as o = Some name))
      /\ (exists kwargs,
            synthesize env kwargs = Returned tt
            /\ kw_text kwargs = clean env text
            /\ kw_save_as kwargs = path_of v
            /\ effects = [ClientInit; Synthesize kwargs;
                          IsFile (path_of v)]%list)
      /\ (if return_metadata o
          then exists m vo sr sp en, v = Metadata (path_of v) m vo sr sp en
          else v = OutputPath (path_of v))).
Proof.
  destruct (generate_speech env text o) as [v effects] eqn:H.
  split; [|split].
  - split; [|intros ->; reflexivity].
    destruct v as [|path|]; [reflexivity| |discriminate].
    intros Hf. exfalso.
    assert (Hv : OutputPath path <> PyNone) by discriminate.
    destruct (generate_speech_value env text o _ _ H Hv)
      as (_ & _ & (name & Hp & _) & _).
    simpl in Hf, Hp. apply is_empty_true in Hf. subst path.
    symmetry in Hp. exact (path_join_nonempty name Hp).
  - unfold generate_speech in H. split.
    + intros ->. destruct (is_empty (strip text)) eqn:Hblank.
      * apply strip_empty_iff, is_empty_true, Hblank.
      * exfalso. destruct (client_init env) as [[]|e]; [|discriminate H].
        cbv zeta in H.
        match type of H with
        | context [synthesize env ?k] => destruct (synthesize env k) as [[]|e]
        end; [|discriminate H].
        match type of H with
        | context [isfile env ?p] => destruct (isfile env p)
        end; simpl in H; [|discriminate H].
        destruct (return_metadata o); discriminate H.
    + intros Hb. rewrite (strip_blank _ Hb) in H. simpl in H.
      inversion H. reflexivity.
  - intros Hv.
    destruct (generate_speech_value env text o _ _ H Hv)
      as (_ & _ & Hn & Hf & Hk & Hm).
    split; [exact Hf|]. split; [exact Hn|]. split; [exact Hk|exact Hm].
Qed.

(** X23, [chat]: the handler raises only when writing the upload raises, and
    then nothing else is asked of the world. It answers 400 exactly
    when there is no upload or its name is not accepted by
    [allowed_file], the empty name among them, without asking
    anything of the world. Otherwise the upload is written, transcribed,
    answered and spoken, in this order, with a transcription that is
    never blank; the answer is 500 when [generate_speech] returns
    [None], as it does for a blank reply, and 200 with the three texts
    and the name of a file that exists otherwise. *)
Theorem chat_statuses (env : chat_env) (audio : upload) :
  match chat env audio with
  | (Raised e, effects) =>
      exists name,
        audio = Some name /\ allowed_file name = true
        /\ save_upload env (path_join "uploads" (secure_filename env name))
           = Raised e
        /\ effects
           = [SaveUpload (path_join "uploads" (secure_filename env name))]%list
  | (Returned (status, body), effects) =>
      (status = 400 /\ effects = []%list
       /\ forall name, audio = Some name -> allowed_file name = false)
      \/ exists name filepath transcription response,
           audio = Some name /\ allowed_file name = true
           /\ filepath = path_join "uploads" (secure_filename env name)
           /\ effects = [SaveUpload filepath; Transcribe filepath;
                         QueryLlm transcription; Speak response]%list
           /\ Stt.transcribe_audio (whisper env) filepath = Returned transcription
           /\ ~ Design.blank transcription
           /\ Llm.query_llm (llm env) transcription = Returned response
           /\ ((status = 500
                /\ body = ErrorBody "TTS generation failed"
                /\ (generate_speech (tts env) response default_options).1
                   = PyNone)
               \/ (status = 200
                   /\ ~ Design.blank response
                   /\ exists path,
                        (generate_speech (tts env) response default_options).1
                        = OutputPath path
                        /\ isfile (tts env) path = true
                        /\ body = ReplyBody transcription response
                                    ("/audio/" ++ basename path)))
  end.
Proof.
  unfold chat. destruct audio as [name|].
  2:{ left. split; [reflexivity|]. split; [reflexivity|]. discriminate. }
  destruct (is_empty name || negb (allowed_file name)) eqn:Hbad.
  { left. split; [reflexivity|]. split; [reflexivity|].
    intros n Hn. inversion Hn; subst n.
    destruct (allowed_file name) eqn:Ha; [|reflexivity].
    rewrite (allowed_file_nonempty name Ha) in Hbad. discriminate Hbad. }
  apply orb_false_iff in Hbad. destruct Hbad as [_ Ha].
  apply negb_false_iff in Ha. cbv zeta.
  set (filepath := path_join "uploads" (secure_filename env name)).
  destruct (save_upload env filepath) as [[]|e] eqn:Hsave.
  2:{ exists name. split; [reflexivity|]. split; [exact Ha|].
      split; [exact Hsave|reflexivity]. }
  destruct (transcribe_audio_text (whisper env) filepath)
    as (transcription & Ht & Hts & Htne).
  rewrite Ht.
  destruct (query_llm_returns (llm env) transcription) as (response & Hr).
  rewrite Hr.
  destruct (generate_speech (tts env) response default_options)
    as [v effects] eqn:Hg.
  simpl fst.
  pose proof (stripped_not_blank transcription Hts Htne) as Htnb.
  destruct (falsy v) eqn:Hf.
  - right. exists name, filepath, transcription, response.
    split; [reflexivity|]. split; [exact Ha|]. split; [reflexivity|].
    split; [reflexivity|]. split; [exact Ht|]. split; [exact Htnb|].
    split; [exact Hr|]. left. split; [reflexivity|].
    split; [reflexivity|].
    destruct v as [|path|]; [rewrite Hg; reflexivity| |discriminate Hf].
    exfalso.
    assert (Hv : OutputPath path <> PyNone) by discriminate.
    destruct (generate_speech_value _ _ _ _ _ Hg Hv)
      as (_ & _ & (n & Hp & _) & _).
    simpl in Hf, Hp. apply is_empty_true in Hf. subst path.
    symmetry in Hp. exact (path_join_nonempty n Hp).
  - right. exists name, filepath, transcription, response.
    split; [reflexivity|]. split; [exact Ha|]. split; [reflexivity|].
    split; [reflexivity|]. split; [exact Ht|]. split; [exact Htnb|].
    split; [exact Hr|]. right. split; [reflexivity|].
    assert (Hv : v <> PyNone) by (intros ->; discriminate Hf).
    destruct (generate_speech_value _ _ _ _ _ Hg Hv)
      as (Hnb & _ & _ & Hfile & _ & Hm).
    split; [exact Hnb|]. simpl in Hm. exists (path_of v).
    rewrite Hg. split; [exact Hm|]. split; [exact Hfile|]. reflexivity.
Qed.

(** X24, [chat]: when the name [uuid4().hex] gives has no slash, the address
    in a 200 answer names the file of [tts_output] that the speech was
    written to, which exists: the file the route [/audio/<filename>]
    serves from that directory. *)
Theorem chat_reply_url (env : chat_env) (audio : upload)
    (transcription response url : string) (effects : list chat_effect) :
  contains "/" (uuid_hex (tts env)) = false ->
  chat env audio
  = (Returned (200, ReplyBody transcription response url), effects) ->
  url = "/audio/" ++ uuid_hex (tts env) ++ ".wav"
  /\ isfile (tts env) ("tts_output/" ++ uuid_hex (tts env) ++ ".wav") = true.
Proof.
  intros Hno H. unfold chat in H. destruct audio as [name|]; [|discriminate H].
  destruct (is_empty name || negb (allowed_file name)); [discriminate H|].
  cbv zeta in H.
  destruct (save_upload env _) as [[]|e]; [|discriminate H].
  destruct (transcribe_audio_returns (whisper env)
              (path_join "uploads" (secure_filename env name))) as (t & Ht).
  rewrite Ht in H.
  destruct (query_llm_returns (llm env) t) as (r & Hr). rewrite Hr in H.
  destruct (generate_speech (tts env) r default_options) as [v eff] eqn:Hg.
  simpl fst in H. destruct (falsy v) eqn:Hf; [discriminate H|].
  inversion H; subst.
  assert (Hv : v <> PyNone) by (intros ->; discriminate Hf).
  destruct (generate_speech_value _ _ _ _ _ Hg Hv)
    as (_ & _ & (n & Hp & [Hn|Hn]) & Hfile & _); [|discriminate Hn].
  subst n.
  pose proof (contains_app_none "/" (uuid_hex (tts env)) ".wav" Hno eq_refl)
    as Hno'.
  rewrite (path_join_relative _ Hno') in Hp. rewrite Hp in Hfile |- *.
  split; [|exact Hfile]. f_equal.
  exact (basename_unique "tts_output" _ Hno').
Qed.

(** An upload [a.wav] in a world whose services work. *)
Lemma chat_reply_url_witness :
  contains "/" (uuid_hex (tts Samples.chat_world)) = false
  /\ chat Samples.chat_world (Some "a.wav")
     = (Returned (200, ReplyBody "and" "and" "/audio/0123.wav"),
        [SaveUpload "uploads/a.wav"; Transcribe "uploads/a.wav";
         QueryLlm "and"; Speak "and"]%list)
  /\ isfile (tts Samples.chat_world) "tts_output/0123.wav" = true.
Proof.
  assert (H1 : contains "/" (uuid_hex (tts Samples.chat_world)) = false)
    by reflexivity.
  assert (H2 : chat Samples.chat_world (Some "a.wav")
               = (Returned (200, ReplyBody "and" "and" "/audio/0123.wav"),
                  [SaveUpload "uploads/a.wav"; Transcribe "uploads/a.wav";
                   QueryLlm "and"; Speak "and"]%list))
    by (vm_compute; reflexivity).
  split; [exact H1|]. split; [exact H2|].
  exact (proj2 (chat_reply_url _ _ _ _ _ _ H1 H2)).
Defined.

End Handler.

(** ** conversation_manager.py: the audio that goes through [run_loop] *)

Section LoopAudio.
Import Py ConversationManager.
Local Open Scope list_scope.

Lemma run_loop_body_audio (session : Session) (vars : loop_vars) (now : Q) :
  let '(session1, vars1, action) := run_loop_body session vars now in
  AudioListener.listening (listener session1)
  = AudioListener.listening (listener session)
  /\ match action with
     | Continue =>
         buffer vars1 ++ join (AudioListener.audio_queue (listener session1))
         = buffer vars ++ join (AudioListener.audio_queue (listener session))
     | ProcessTurn audio_data =>
         buffer vars1 = []
         /\ audio_data ++ join (AudioListener.audio_queue (listener session1))
            = buffer vars ++ join (AudioListener.audio_queue (listener session))
     end.
Proof.
  unfold run_loop_body.
  destruct (AudioListener.audio_queue (listener session))
    as [|audio_chunk rest] eqn:Hq.
  - rewrite Hq. split; reflexivity.
  - cbv zeta.
    destruct (any _).
    + simpl. rewrite <- app_assoc. split; reflexivity.
    + destruct (loop_silence_start vars) as [since|].
      * destruct (Qle_bool _ _); simpl; rewrite <- app_assoc;
          repeat split; reflexivity.
      * simpl. rewrite <- app_assoc. split; reflexivity.
Qed.

(** X25, [run_loop]: no audio is lost, repeated or reordered on its way
    through the loop. While the listener listens, the audio of the
    turns, then what the loop holds in its buffer, then what waits in
    the queue, is what the buffer and the queue held at first followed
    by the blocks the device delivered, byte for byte and in order. *)
Theorem run_loop_keeps_audio (session : Session) (vars : loop_vars)
    (events : list loop_event) :
  AudioListener.listening (listener session) = true ->
  let '(session1, vars1, calls) := run_loop_trace session vars events in
  AudioListener.listening (listener session1) = true
  /\ join calls ++ buffer vars1
       ++ join (AudioListener.audio_queue (listener session1))
     = buffer vars ++ join (AudioListener.audio_queue (listener session))
         ++ join (Design.delivered events).
Proof.
  revert session vars.
  induction events as [|[audio_bytes|now] events IH]; intros session vars Hl.
  - simpl. rewrite app_nil_r. split; [exact Hl|reflexivity].
  - cbn [run_loop_trace Design.delivered].
    destruct (callback_config (listener session) audio_bytes)
      as (_ & _ & Hl' & _ & _ & Hq).
    specialize (IH (set_listener session
                      (AudioListener._callback (listener session) audio_bytes))
                   vars).
    destruct (run_loop_trace _ vars events) as [[session1 vars1] calls].
    destruct IH as [IH1 IH2]; [simpl; rewrite Hl'; exact Hl|].
    split; [exact IH1|]. rewrite IH2. simpl listener. rewrite Hq.
    unfold join. rewrite concat_app. simpl. rewrite app_nil_r, <- !app_assoc.
    reflexivity.
  - cbn [run_loop_trace Design.delivered]. rewrite Hl.
    pose proof (run_loop_body_audio session vars now) as Hb.
    destruct (run_loop_body session vars now) as [[session0 vars0] action].
    destruct Hb as [Hl0 Hb]. rewrite Hl in Hl0.
    destruct action as [|audio_data].
    + specialize (IH session0 vars0 Hl0).
      destruct (run_loop_trace session0 vars0 events)
        as [[session1 vars1] calls].
      destruct IH as [IH1 IH2]. split; [exact IH1|].
      rewrite IH2, app_assoc, Hb, <- app_assoc. reflexivity.
    + destruct Hb as [Hempty Hb].
      specialize (IH session0 (mkLoopVars (buffer vars0) None) Hl0).
      destruct (run_loop_trace session0 _ events) as [[session1 vars1] calls].
      destruct IH as [IH1 IH2]. split; [exact IH1|].
      simpl in IH2. rewrite Hempty in IH2. simpl in IH2.
      change (join (audio_data :: calls)) with (audio_data ++ join calls).
      rewrite <- app_assoc, IH2, app_assoc, Hb, <- app_assoc. reflexivity.
Qed.

(** Two blocks come while the loop runs on a session with one block
    waiting; the second reading of the clock ends a turn. *)
Lemma run_loop_keeps_audio_witness :
  AudioListener.listening (listener Samples.waiting_session) = true
  /\ let '(session1, vars1, calls) :=
       run_loop_trace Samples.waiting_session (mkLoopVars [] None)
         [Wake 0; Block [x01]; Wake 1; Block [x02]; Wake 2] in
     join calls ++ buffer vars1
       ++ join (AudioListener.audio_queue (listener session1))
     = [x00; x00; x01; x02].
Proof.
  split; [reflexivity|].
  pose proof (run_loop_keeps_audio Samples.waiting_session
                (mkLoopVars [] None)
                [Wake 0; Block [x01]; Wake 1; Block [x02]; Wake 2] eq_refl)
    as H.
  destruct (run_loop_trace Samples.waiting_session (mkLoopVars [] None)
              [Wake 0; Block [x01]; Wake 1; Block [x02]; Wake 2])
    as [[session1 vars1] calls].
  destruct H as [_ H]. rewrite H. reflexivity.
Defined.

Lemma same_for_loop_refl (s : Session) : Design.same_for_loop s s.
Proof. split; reflexivity. Qed.

Lemma run_loop_body_same (s t : Session) (vars : loop_vars) (now : Q) :
  Design.same_for_loop s t ->
  let '(s1, vars1, action1) := run_loop_body s vars now in
  let '(t1, vars2, action2) := run_loop_body t vars now in
  Design.same_for_loop s1 t1 /\ vars1 = vars2 /\ action1 = action2.
Proof.
  intros [Hl Hw]. unfold run_loop_body. rewrite Hl, Hw.
  destruct (AudioListener.audio_queue (listener t)) as [|audio_chunk rest].
  - repeat split; assumption.
  - cbv zeta. destruct (any _).
    + repeat split; reflexivity.
    + destruct (loop_silence_start vars) as [since|].
      * destruct (Qle_bool _ _); repeat split; reflexivity.
      * repeat split; reflexivity.
Qed.

Lemma run_loop_trace_same (events : list loop_event) (s t : Session)
    (vars : loop_vars) :
  Design.same_for_loop s t ->
  let '(s1, vars1, calls1) := run_loop_trace s vars events in
  let '(t1, vars2, calls2) := run_loop_trace t vars events in
  Design.same_for_loop s1 t1 /\ vars1 = vars2 /\ calls1 = calls2.
Proof.
  revert s t vars.
  induction events as [|[audio_bytes|now] events IH]; intros s t vars Hst.
  - simpl. repeat split; try reflexivity; apply Hst.
  - cbn [run_loop_trace]. apply IH. destruct Hst as [Hl Hw].
    split; simpl; [rewrite Hl; reflexivity|exact Hw].
  - cbn [run_loop_trace]. destruct Hst as [Hl Hw]. rewrite Hl.
    destruct (AudioListener.listening (listener t));
      [|repeat split; assumption].
    pose proof (run_loop_body_same s t vars now (conj Hl Hw)) as Hb.
    destruct (run_loop_body s vars now) as [[s0 vars0] action0].
    destruct (run_loop_body t vars now) as [[t0 vars0'] action0'].
    destruct Hb as (Hst0 & <- & <-).
    destruct action0 as [|audio_data].
    + apply IH, Hst0.
    + specialize (IH s0 t0 (mkLoopVars (buffer vars0) None) Hst0).
      destruct (run_loop_trace s0 _ events) as [[s1 vars1] calls1].
      destruct (run_loop_trace t0 _ events) as [[t1 vars2] calls2].
      destruct IH as (H1 & H2 & H3). subst. repeat split; try reflexivity;
        apply H1.
Qed.

(** X26, [run_loop]: the loop with its services, when it gets through its
    events, is the loop with the calls written down. It leaves the
    listener, the sliding window and its variables as the written loop
    does, and it has made as many replies as the written loop has
    calls: every call of [process_turn] gives one reply and touches
    nothing the loop reads. *)
Theorem run_loop_events_follow_trace (env : manager_env)
    (events : list loop_event) (self : gmap string Session)
    (rt : AudioListener.runtime) (session_id : string) (session : Session)
    (vars : loop_vars) (self1 : gmap string Session)
    (rt1 : AudioListener.runtime) (vars1 : loop_vars)
    (replies : list string) :
  self !! session_id = Some session ->
  run_loop_events env self rt session_id vars events
  = Returned (self1, rt1, vars1, replies) ->
  exists session1,
    self1 !! session_id = Some session1
    /\ let '(session2, vars2, calls) := run_loop_trace session vars events in
       Design.same_for_loop session1 session2
       /\ vars1 = vars2
       /\ length replies = length calls.
Proof.
  revert self rt session vars self1 rt1 vars1 replies.
  induction events as [|[audio_bytes|now] events IH];
    intros self rt session vars self1 rt1 vars1 replies Hs H.
  - simpl in H. inversion H; subst. exists session. split; [exact Hs|].
    simpl. split; [apply same_for_loop_refl|]. split; reflexivity.
  - cbn [run_loop_events] in H.
    rewrite (get_session_known env self session_id session Hs) in H.
    simpl in H. cbn [run_loop_trace].
    eapply IH; [|exact H]. apply lookup_insert_eq.
  - cbn [run_loop_events] in H.
    rewrite (get_session_known env self session_id session Hs) in H.
    simpl in H. cbn [run_loop_trace].
    destruct (AudioListener.listening (listener session)).
    2:{ inversion H; subst. exists session. split; [exact Hs|].
        split; [apply same_for_loop_refl|]. split; reflexivity. }
    unfold run_loop_iteration in H.
    rewrite (get_session_known env self session_id session Hs) in H.
    simpl in H.
    destruct (run_loop_body session vars now) as [[session0 vars0] action].
    destruct action as [|audio_data].
    + simpl in H.
      destruct (run_loop_events env (<[session_id := session0]> self) rt
                  session_id vars0 events)
        as [[[[self2 rt2] vars2] replies2]|e] eqn:Hrest; [|discriminate H].
      simpl in H. inversion H; subst.
      exact (IH _ _ session0 _ _ _ _ _ (lookup_insert_eq _ _ _) Hrest).
    + simpl in H.
      destruct (process_turn env (<[session_id := session0]> self) rt
                  session_id audio_data)
        as [[[self2 rt2] response]|e] eqn:Hturn; [|discriminate H].
      simpl in H.
      destruct (run_loop_events env self2 rt2 session_id
                  (mkLoopVars (buffer vars0) None) events)
        as [[[[self3 rt3] vars3] replies3]|e] eqn:Hrest; [|discriminate H].
      simpl in H. inversion H; subst.
      destruct (process_turn_returned _ _ _ _ _ _ _ _ Hturn)
        as (self0' & s1 & Hb & Hs1' & -> & ->).
      destruct (process_turn_block_result _ _ _ _ _ _ Hb)
        as (self0 & s0 & h & said & Hget & -> & _).
      rewrite (get_session_known env _ session_id session0
                 (lookup_insert_eq _ _ _)) in Hget.
      inversion Hget; subst self0 s0.
      rewrite lookup_insert_eq in Hs1'. inversion Hs1'; subst s1; clear Hs1'.
      set (turned := set_history session0
                       (h ++ [mkTurn "user" said;
                              mkTurn "assistant" response])) in *.
      destruct (replace_playback_thread_effects turned rt)
        as (Hl & Hw & _).
      destruct (IH _ _ (replace_playback_thread turned rt).1
                   _ _ _ _ _ (lookup_insert_eq _ _ _) Hrest)
        as (session1 & Hs1 & Htrace).
      exists session1. split; [exact Hs1|].
      pose proof (run_loop_trace_same events
                    (replace_playback_thread turned rt).1
                    session0 (mkLoopVars (buffer vars0) None)
                    (conj Hl Hw)) as Hsame.
      destruct (run_loop_trace (replace_playback_thread turned rt).1 _ events)
        as [[sa va] ca].
      destruct (run_loop_trace session0 _ events) as [[sb vb] cb].
      destruct Htrace as (Ha & Hb' & Hc).
      destruct Hsame as (Hd & He & Hf). subst.
      split; [|split; [reflexivity|simpl; rewrite Hc; reflexivity]].
      destruct Ha as [Ha1 Ha2]. destruct Hd as [Hd1 Hd2].
      split; congruence.
Qed.

(** The loop of a manager whose services work, on a session with one
    block waiting: a block comes, and the second reading of the clock
    ends a turn, which is answered. *)
Lemma run_loop_events_follow_trace_witness :
  Samples.waiting_sessions !! "s"%string = Some Samples.waiting_session
  /\ exists self1 rt1 vars1 session1,
       run_loop_events Samples.small_world Samples.waiting_sessions
         Samples.one_thread "s"%string (mkLoopVars [] None)
         [Wake 0; Block [x01]; Wake 1]
       = Returned (self1, rt1, vars1, ["and"%string])
       /\ self1 !! "s"%string = Some session1
       /\ let '(session2, vars2, calls) :=
            run_loop_trace Samples.waiting_session (mkLoopVars [] None)
              [Wake 0; Block [x01]; Wake 1] in
          Design.same_for_loop session1 session2
          /\ vars1 = vars2
          /\ length ["and"%string] = length calls.
Proof.
  assert (Hs : Samples.waiting_sessions !! "s"%string
               = Some Samples.waiting_session) by apply lookup_singleton_eq.
  split; [exact Hs|].
  assert (H : exists self1 rt1 vars1,
             run_loop_events Samples.small_world Samples.waiting_sessions
               Samples.one_thread "s"%string (mkLoopVars [] None)
               [Wake 0; Block [x01]; Wake 1]
             = Returned (self1, rt1, vars1, ["and"%string]))
    by (eexists _, _, _; vm_compute; reflexivity).
  destruct H as (self1 & rt1 & vars1 & H).
  destruct (run_loop_events_follow_trace _ _ _ _ _ _ _ _ _ _ _ Hs H)
    as (session1 & Hs1 & Htrace).
  exists self1, rt1, vars1, session1. split; [exact H|]. split; [exact Hs1|].
  exact Htrace.
Defined.

End LoopAudio.

(** ** conversation_manager.py: a whole call of [_play_response_async] *)

Section PlaybackCalls.
Import ConversationManager.
Import AudioListener (alive, next_tid, thread_start, mkRuntime).
Local Open Scope list_scope.

Ltac play_steps :=
  cbn [play_run _play_response_async_step mbind option_bind
       sess rt playbacks position_ path thread_start alive next_tid fst snd];
  try unfold previous_alive;
  cbn [sess rt alive next_tid playback_thread set_stop_tts_flag
       set_playback_thread].

(** X27, [_play_response_async]: a call that no other thread disturbs. When
    no playback thread of the session runs, the call passes the test
    and starts the new thread, leaving the flag as it was. When one
    runs, the call sets the flag and then waits in [join()]: it cannot
    go on while that thread runs, and once it has ended the call starts
    the new thread. Either way the call ends with the new thread as the
    one playback thread of the session that runs, held by the session,
    and with all that holds between calls holding again. *)
Theorem play_call_completes (s : play_state) :
  Design.play_ok s ->
  position_ s = Outside ->
  (previous_alive s = false ->
     exists s1,
       play_run s [Call; Next; Next] = Some s1
       /\ position_ s1 = Outside
       /\ path s1 = [Tested false; Start]
       /\ stop_tts_flag (sess s1) = stop_tts_flag (sess s)
       /\ playback_thread (sess s1) = Some (next_tid (rt s))
       /\ active s1 = {[next_tid (rt s)]}
       /\ Design.play_ok s1)
  /\ (previous_alive s = true ->
       exists t s1,
         playback_thread (sess s) = Some t
         /\ play_run s [Call; Next; Next; Next] = None
         /\ play_run s [Call; Next; Next; ThreadEnds t; Next; Next] = Some s1
         /\ position_ s1 = Outside
         /\ path s1 = [Tested true; SetFlag; Join; Start]
         /\ stop_tts_flag (sess s1) = true
         /\ playback_thread (sess s1) = Some (next_tid (rt s))
         /\ active s1 = {[next_tid (rt s)]}
         /\ Design.play_ok s1).
Proof.
  intros Hok Hpos. pose proof Hok as (Hreg & Hfresh & Hpb & _).
  assert (Hnew : next_tid (rt s) ∉ playbacks s).
  { intros Hin. specialize (Hpb _ Hin). lia. }
  assert (Hstay : forall es s1, play_run s es = Some s1 -> Design.play_ok s1)
    by (intros es s1; apply play_run_ok, Hok).
  clear Hok Hfresh Hpb.
  destruct s as [ss r pbs pos pth]. simpl in Hpos. subst pos.
  unfold active in Hreg. simpl in Hreg, Hnew. play_steps.
  split; intros Hprev.
  - specialize (Hstay [Call; Next; Next]). revert Hstay.
    play_steps. rewrite Hprev. play_steps. intros Hstay.
    eexists. split; [reflexivity|]. simpl.
    do 4 (split; [reflexivity|]). split; [|apply Hstay; reflexivity].
    assert (Hnone : alive r ∩ pbs = ∅).
    { apply leibniz_equiv, elem_of_equiv_empty. intros x Hx.
      specialize (Hreg x Hx). rewrite Hreg in Hprev.
      apply bool_decide_eq_false in Hprev. set_solver. }
    unfold active. simpl. apply leibniz_equiv. set_solver.
  - destruct (playback_thread ss) as [t|] eqn:Hpt; [|discriminate].
    apply bool_decide_eq_true in Hprev.
    assert (Hgone : t ∉ alive r ∖ {[t]}) by set_solver.
    specialize (Hstay [Call; Next; Next; ThreadEnds t; Next; Next]).
    exists t. eexists. split; [reflexivity|]. revert Hstay.
    do 6 (play_steps;
          rewrite ?Hpt, ?(bool_decide_eq_true_2 _ Hprev),
                  ?(bool_decide_eq_false_2 _ Hgone)).
    intros Hstay. split; [reflexivity|].
    split; [reflexivity|]. simpl.
    do 4 (split; [reflexivity|]). split; [|apply Hstay; reflexivity].
    unfold active. simpl. apply leibniz_equiv.
    intros x. split; [|set_solver].
    intros Hx. apply elem_of_intersection in Hx. destruct Hx as [Ha Hb].
    apply elem_of_union in Ha. destruct Ha as [Ha|Ha]; [exact Ha|].
    apply elem_of_union in Hb. destruct Hb as [Hb|Hb]; [exact Hb|].
    exfalso. apply elem_of_difference in Ha. destruct Ha as [Ha Hne].
    assert (Hin : x ∈ alive r ∩ pbs) by set_solver.
    specialize (Hreg x Hin). inversion Hreg. set_solver.
Qed.

(** A second reply while the first is played by the thread 1: the call
    waits for it and then starts the thread 2. *)
Lemma play_call_completes_witness :
  Design.play_ok Samples.playing
  /\ position_ Samples.playing = Outside
  /\ previous_alive Samples.playing = true
  /\ play_run Samples.playing [Call; Next; Next; Next] = None
  /\ exists s1,
       play_run Samples.playing
         [Call; Next; Next; ThreadEnds 1%nat; Next; Next] = Some s1
       /\ active s1 = {[2%nat]}.
Proof.
  assert (Hfresh : Design.runtime_fresh Samples.one_thread).
  { intros t Ht. simpl in Ht. apply elem_of_singleton in Ht. subst t.
    simpl. constructor. }
  assert (Hrun : play_run (play_init Samples.waiting_session
                             Samples.one_thread) [Call; Next; Next]
                 = Some Samples.playing) by (vm_compute; reflexivity).
  pose proof (play_run_ok _ _ _ (play_init_ok _ _ Hfresh) Hrun) as Hok.
  assert (Hprev : previous_alive Samples.playing = true)
    by (vm_compute; reflexivity).
  split; [exact Hok|]. split; [reflexivity|]. split; [exact Hprev|].
  destruct (play_call_completes Samples.playing Hok eq_refl) as [_ H].
  destruct (H Hprev) as (t & s1 & Ht & Hwait & Hdone & _ & _ & _ & _ & Hact & _).
  inversion Ht; subst t.
  split; [exact Hwait|]. exists s1. split; [exact Hdone|exact Hact].
Defined.

(** The call written in one piece, [replace_playback_thread], is the
    run of the lines that no other thread disturbs: three events when
    no playback thread of the session runs, and otherwise the run in
    which the thread waited for ends while the call is in [join()]. *)
Lemma replace_playback_thread_run (s : play_state) :
  position_ s = Outside ->
  exists events s1,
    play_run s events = Some s1
    /\ position_ s1 = Outside
    /\ sess s1 = (replace_playback_thread (sess s) (rt s)).1
    /\ rt s1 = (replace_playback_thread (sess s) (rt s)).2
    /\ events
       = if previous_alive s
         then match playback_thread (sess s) with
              | Some t => [Call; Next; Next; ThreadEnds t; Next; Next]
              | None => []
              end
         else [Call; Next; Next].
Proof.
  destruct s as [ss r pbs pos pth]. simpl. intros ->.
  unfold replace_playback_thread, previous_alive. simpl.
  destruct (playback_thread ss) as [t|] eqn:Hpt.
  - destruct (bool_decide (t ∈ alive r)) eqn:Hd.
    + apply bool_decide_eq_true in Hd.
      assert (Hgone : t ∉ alive r ∖ {[t]}) by set_solver.
      eexists _, _. split; [|split; [|split; [|split; [|reflexivity]]]].
      * do 6 (play_steps;
              rewrite ?Hpt, ?(bool_decide_eq_true_2 _ Hd),
                      ?(bool_decide_eq_false_2 _ Hgone)).
        reflexivity.
      * reflexivity.
      * reflexivity.
      * reflexivity.
    + eexists _, _. split; [|split; [|split; [|split; [|reflexivity]]]].
      * do 3 (play_steps; rewrite ?Hpt, ?Hd). reflexivity.
      * reflexivity.
      * reflexivity.
      * reflexivity.
  - eexists _, _. split; [|split; [|split; [|split; [|reflexivity]]]].
    + do 3 (play_steps; rewrite ?Hpt). reflexivity.
    + reflexivity.
    + reflexivity.
    + reflexivity.
Qed.

End PlaybackCalls.

(** ** tts1.py: [clean_text_for_tts] *)

Section Cleaning.
Import Py Tts.
Local Open Scope string_scope.

Lemma append_nil_r (s : string) : s ++ "" = s.
Proof.
  induction s as [|c s IH]; [reflexivity|].
  rewrite append_cons, IH. reflexivity.
Qed.

Lemma string_drop_length (n : nat) (s : string) :
  (String.length (string_drop n s) <= String.length s)%nat.
Proof.
  revert s. induction n as [|n IH]; intros [|c s]; simpl; try lia.
  specialize (IH s). lia.
Qed.

Lemma lstrip_length (s : string) :
  (String.length (lstrip s) <= String.length s)%nat.
Proof.
  induction s as [|c s IH]; simpl; [lia|].
  destruct (isspace c); simpl; lia.
Qed.

Lemma drop_hashes_length (s : string) :
  (String.length (drop_hashes s) <= String.length s)%nat.
Proof.
  induction s as [|c s IH]; simpl; [lia|].
  destruct (Ascii.eqb c "#"); simpl; lia.
Qed.

(** More fuel than the characters of the text changes nothing: the
    searches end by themselves. *)
Lemma re_sub_delimited_loop_fuel (a : ascii) (d : string) (f1 f2 : nat)
    (s : string) :
  (String.length s <= f1)%nat -> (String.length s <= f2)%nat ->
  re_sub_delimited_loop f1 (String a d) s
  = re_sub_delimited_loop f2 (String a d) s.
Proof.
  revert f2 s. induction f1 as [|f1 IH]; intros f2 s H1 H2.
  - destruct s; [|simpl in H1; lia]. destruct f2; reflexivity.
  - destruct s as [|c s]; [destruct f2; reflexivity|].
    destruct f2 as [|f2]; [simpl in H2; lia|].
    simpl in H1, H2. cbn [re_sub_delimited_loop]. cbv zeta.
    destruct (if String.prefix (String a d) (String c s)
              then find_close (String a d)
                     (string_drop (String.length (String a d)) (String c s))
              else None) as [k|].
    + f_equal. cbn [String.length string_drop].
      pose proof (string_drop_length (k + S (String.length d))
                    (string_drop (String.length d) s)) as Ha.
      pose proof (string_drop_length (String.length d) s) as Hb.
      apply IH; lia.
    + f_equal. apply IH; lia.
Qed.

Lemma re_sub_headers_loop_fuel (f1 f2 : nat) (s : string) :
  (String.length s <= f1)%nat -> (String.length s <= f2)%nat ->
  re_sub_headers_loop f1 s = re_sub_headers_loop f2 s.
Proof.
  revert f2 s. induction f1 as [|f1 IH]; intros f2 s H1 H2.
  - destruct s; [|simpl in H1; lia]. destruct f2; reflexivity.
  - destruct s as [|c s]; [destruct f2; reflexivity|].
    destruct f2 as [|f2]; [simpl in H2; lia|].
    simpl in H1, H2. cbn [re_sub_headers_loop].
    pose proof (lstrip_length (drop_hashes s)) as Ha.
    pose proof (drop_hashes_length s) as Hb.
    destruct (Ascii.eqb c "#"); [|f_equal]; apply IH; lia.
Qed.

Lemma contains_empty (a : ascii) : contains (String a "") "" = false.
Proof. reflexivity. Qed.

Lemma contains_lstrip (a : ascii) (s : string) :
  contains (String a "") s = false -> contains (String a "") (lstrip s) = false.
Proof.
  induction s as [|c s IH]; [intros; reflexivity|].
  intros H. simpl lstrip. destruct (isspace c); [|exact H].
  rewrite contains_char in H. apply orb_false_iff in H. apply IH, H.
Qed.

Lemma contains_rstrip (a : ascii) (s : string) :
  contains (String a "") s = false -> contains (String a "") (rstrip s) = false.
Proof.
  induction s as [|c s IH]; [intros; reflexivity|].
  intros H. rewrite contains_char in H. apply orb_false_iff in H.
  destruct H as [Hc Hs]. simpl rstrip.
  destruct (isspace c && (rstrip s =? "")); [reflexivity|].
  rewrite contains_char, Hc, (IH Hs). reflexivity.
Qed.

Lemma contains_strip (a : ascii) (s : string) :
  contains (String a "") s = false -> contains (String a "") (strip s) = false.
Proof. intros H. unfold strip. apply contains_rstrip, contains_lstrip, H. Qed.

Lemma re_sub_headers_loop_no_hash (fuel : nat) (s : string) :
  (String.length s <= fuel)%nat ->
  contains "#" (re_sub_headers_loop fuel s) = false.
Proof.
  revert s. induction fuel as [|fuel IH]; intros s H.
  - destruct s; [reflexivity|simpl in H; lia].
  - destruct s as [|c s]; [reflexivity|]. simpl in H.
    cbn [re_sub_headers_loop].
    pose proof (lstrip_length (drop_hashes s)) as Ha.
    pose proof (drop_hashes_length s) as Hb.
    destruct (Ascii.eqb c "#") eqn:Hc; [apply IH; lia|].
    rewrite contains_char, Ascii.eqb_sym, Hc. apply IH. lia.
Qed.

Lemma re_sub_delimited_loop_absent (fuel : nat) (d s : string) :
  contains d s = false -> re_sub_delimited_loop fuel d s = s.
Proof.
  revert s. induction fuel as [|fuel IH]; intros s H; [reflexivity|].
  destruct s as [|c s]; [reflexivity|].
  cbn [re_sub_delimited_loop]. cbv zeta.
  change (contains d (String c s))
    with (if String.prefix d (String c s) then true else contains d s) in H.
  destruct (String.prefix d (String c s)); [discriminate H|].
  rewrite (IH s H). reflexivity.
Qed.

Lemma prefix_contains (a : ascii) (d s : string) :
  contains (String a "") s = false -> String.prefix (String a d) s = false.
Proof.
  destruct s as [|c s]; [reflexivity|].
  rewrite contains_char. intros H. apply orb_false_iff in H.
  destruct H as [Hc _]. simpl.
  destruct (ascii_dec a c) as [->|]; [|reflexivity].
  rewrite Ascii.eqb_refl in Hc. discriminate Hc.
Qed.

Lemma contains_longer (a : ascii) (d s : string) :
  contains (String a "") s = false -> contains (String a d) s = false.
Proof.
  induction s as [|c s IH]; intros H.
  - reflexivity.
  - change (contains (String a d) (String c s))
      with (if String.prefix (String a d) (String c s) then true
            else contains (String a d) s).
    rewrite (prefix_contains a d _ H).
    rewrite contains_char in H. apply orb_false_iff in H. apply IH, H.
Qed.

Lemma re_sub_delimited_plain (a : ascii) (d s : string) :
  contains (String a "") s = false -> re_sub_delimited (String a d) s = s.
Proof.
  intros H. apply re_sub_delimited_loop_absent, contains_longer, H.
Qed.

Lemma re_sub_headers_loop_plain (fuel : nat) (s : string) :
  contains "#" s = false -> re_sub_headers_loop fuel s = s.
Proof.
  revert s. induction fuel as [|fuel IH]; intros s H; [reflexivity|].
  destruct s as [|c s]; [reflexivity|].
  rewrite contains_char in H. apply orb_false_iff in H. destruct H as [Hc Hs].
  cbn [re_sub_headers_loop]. rewrite Ascii.eqb_sym, Hc, (IH s Hs).
  reflexivity.
Qed.

Lemma clean_plain (text : string) :
  Design.plain text -> clean_text_for_tts text = strip text.
Proof.
  intros (Hstar & Htick & Hhash). unfold clean_text_for_tts. cbv zeta.
  rewrite (re_sub_delimited_plain "*" "*" text Hstar).
  rewrite (re_sub_delimited_plain "*" "" text Hstar).
  rewrite (re_sub_delimited_plain "`" "" text Htick).
  unfold re_sub_headers. rewrite (re_sub_headers_loop_plain _ _ Hhash).
  reflexivity.
Qed.

(** X28, [clean_text_for_tts]: the cleaned text has no [#] left, whatever the
    text, and it is stripped; a text without [*], backquote and [#] is
    only stripped. *)
Theorem clean_text_for_tts_no_hash (text : string) :
  contains "#" (clean_text_for_tts text) = false
  /\ strip (clean_text_for_tts text) = clean_text_for_tts text
  /\ (Design.plain text -> clean_text_for_tts text = strip text).
Proof.
  split; [|split; [|apply clean_plain]].
  - unfold clean_text_for_tts. cbv zeta.
    apply contains_strip. unfold re_sub_headers.
    apply re_sub_headers_loop_no_hash. lia.
  - unfold clean_text_for_tts. cbv zeta. apply strip_idem.
Qed.

(** Plain text loses the whitespace around it, and a title its [#]s. *)
Example clean_text_for_tts_samples :
  clean_text_for_tts "  two words " = "two words"
  /\ clean_text_for_tts "## A *short* title" = "A short title".
Proof. split; reflexivity. Qed.

Lemma prefix_app (d x : string) : String.prefix d (d ++ x) = true.
Proof.
  induction d as [|a d IH].
  - destruct x; reflexivity.
  - rewrite append_cons. simpl.
    destruct (ascii_dec a a) as [_|Hne]; [exact IH|contradiction].
Qed.

Lemma string_drop_app (g x : string) (n : nat) :
  string_drop (String.length g + n) (g ++ x) = string_drop n x.
Proof.
  induction g as [|c g IH]; [reflexivity|].
  rewrite append_cons. exact IH.
Qed.

Lemma string_drop_all (d : string) : string_drop (String.length d) d = "".
Proof. induction d as [|c d IH]; [reflexivity|exact IH]. Qed.

Lemma string_take_app (g x : string) :
  string_take (String.length g) (g ++ x) = g.
Proof.
  induction g as [|c g IH]; [destruct x; reflexivity|].
  rewrite append_cons. simpl. rewrite IH. reflexivity.
Qed.

Lemma find_close_app (a : ascii) (d g : string) :
  contains (String a "") g = false ->
  Design.one_line g ->
  find_close (String a d) (g ++ String a d) = Some (String.length g).
Proof.
  unfold Design.one_line. induction g as [|c g IH]; intros Ha Hl.
  - rewrite append_nil.
    change (find_close (String a d) (String a d))
      with (if String.prefix (String a d) (String a d) then Some 0%nat
            else if Ascii.eqb a "010"%char then None
                 else S <$> find_close (String a d) d).
    rewrite <- (append_nil_r (String a d)) at 2. rewrite prefix_app.
    reflexivity.
  - rewrite append_cons.
    change (find_close (String a d) (String c (g ++ String a d)))
      with (if String.prefix (String a d) (String c (g ++ String a d))
            then Some 0%nat
            else if Ascii.eqb c "010"%char then None
                 else S <$> find_close (String a d) (g ++ String a d)).
    rewrite contains_char in Ha, Hl.
    apply orb_false_iff in Ha. destruct Ha as [Hac Ha].
    apply orb_false_iff in Hl. destruct Hl as [Hlc Hl].
    assert (Hp : String.prefix (String a d) (String c (g ++ String a d))
                 = false).
    { simpl. destruct (ascii_dec a c) as [->|]; [|reflexivity].
      rewrite Ascii.eqb_refl in Hac. discriminate Hac. }
    rewrite Hp, Ascii.eqb_sym, Hlc, (IH Ha Hl). reflexivity.
Qed.

Lemma string_drop_prefix (d x : string) :
  string_drop (String.length d) (d ++ x) = x.
Proof.
  rewrite <- (Nat.add_0_r (String.length d)). apply (string_drop_app d x 0).
Qed.

Lemma re_sub_delimited_loop_step (fuel : nat) (d : string) (c : ascii)
    (s : string) :
  re_sub_delimited_loop (S fuel) d (String c s)
  = match (if String.prefix d (String c s)
           then find_close d (string_drop (String.length d) (String c s))
           else None) with
    | Some k =>
        string_take k (string_drop (String.length d) (String c s))
        ++ re_sub_delimited_loop fuel d
             (string_drop (k + String.length d)
                (string_drop (String.length d) (String c s)))
    | None => String c (re_sub_delimited_loop fuel d s)
    end.
Proof. reflexivity. Qed.

Lemma length_cons (c : ascii) (s : string) :
  String.length (String c s) = S (String.length s).
Proof. reflexivity. Qed.

(** One pair of delimiters around a text on one line that has none of
    their characters goes. *)
Lemma re_sub_delimited_unwrap (a : ascii) (d g : string) :
  contains (String a "") g = false ->
  Design.one_line g ->
  re_sub_delimited (String a d) (String a d ++ g ++ String a d) = g.
Proof.
  intros Ha Hl. unfold re_sub_delimited.
  rewrite (append_cons a d), length_cons, re_sub_delimited_loop_step.
  rewrite <- (append_cons a d).
  rewrite prefix_app, !string_drop_prefix.
  rewrite (find_close_app a d g Ha Hl), string_take_app, string_drop_app.
  rewrite string_drop_all.
  destruct (String.length (d ++ g ++ String a d)); cbn [re_sub_delimited_loop];
    apply append_nil_r.
Qed.

Lemma prefix_other (a c : ascii) (d s : string) :
  Ascii.eqb a c = false -> String.prefix (String a d) (String c s) = false.
Proof.
  intros H. simpl. destruct (ascii_dec a c) as [->|]; [|reflexivity].
  rewrite Ascii.eqb_refl in H. discriminate H.
Qed.

Lemma contains_doubled (g : string) :
  contains "*" g = false -> contains "**" (g ++ "*") = false.
Proof.
  induction g as [|c g IH]; intros H; [reflexivity|].
  rewrite append_cons.
  change (contains "**" (String c (g ++ "*")))
    with (if String.prefix "**" (String c (g ++ "*")) then true
          else contains "**" (g ++ "*")).
  rewrite contains_char in H. apply orb_false_iff in H.
  destruct H as [Hc H].
  rewrite (prefix_other "*" c "*" _ Hc). apply IH, H.
Qed.

(** X29, [clean_text_for_tts]: bold, italic and code markers around a text on
    one line that has no [*], backquote or [#] are taken away, and the
    text is stripped. *)
Theorem clean_text_for_tts_unwraps (d g : string) :
  In d ["**"; "*"; "`"] ->
  Design.plain g ->
  Design.one_line g ->
  clean_text_for_tts (d ++ g ++ d) = strip g.
Proof.
  intros Hd Hplain Hl. pose proof Hplain as (Hstar & Htick & Hhash).
  assert (Hrest : forall t, t = g ->
            strip (re_sub_headers t) = strip g).
  { intros t ->. unfold re_sub_headers.
    rewrite (re_sub_headers_loop_plain _ _ Hhash). reflexivity. }
  unfold clean_text_for_tts. cbv zeta.
  destruct Hd as [<-|[<-|[<-|[]]]].
  - rewrite (re_sub_delimited_unwrap "*" "*" g Hstar Hl).
    rewrite (re_sub_delimited_plain "*" "" g Hstar).
    rewrite (re_sub_delimited_plain "`" "" g Htick).
    apply Hrest. reflexivity.
  - destruct g as [|c g]; [reflexivity|].
    assert (H1 : re_sub_delimited "**" ("*" ++ String c g ++ "*")
                 = "*" ++ String c g ++ "*").
    { apply re_sub_delimited_loop_absent.
      change ("*" ++ String c g ++ "*") with (String "*" (String c g ++ "*")).
      change (contains "**" (String "*" (String c g ++ "*")))
        with (if String.prefix "**" (String "*" (String c g ++ "*")) then true
              else contains "**" (String c g ++ "*")).
      assert (Hp : String.prefix "**" (String "*" (String c g ++ "*")) = false).
      { rewrite append_cons.
        pose proof Hstar as Hc. rewrite contains_char in Hc.
        apply orb_false_iff in Hc. destruct Hc as [Hc _].
        change (String.prefix "**" (String "*" (String c (g ++ "*"))))
          with (String.prefix "*" (String c (g ++ "*"))).
        apply prefix_other, Hc. }
      rewrite Hp. apply contains_doubled, Hstar. }
    rewrite H1. rewrite (re_sub_delimited_unwrap "*" "" _ Hstar Hl).
    rewrite (re_sub_delimited_plain "`" "" _ Htick).
    apply Hrest. reflexivity.
  - assert (H0 : contains "*" ("`" ++ g ++ "`") = false).
    { apply (contains_app_none "*" "`"); [reflexivity|].
      apply contains_app_none; [exact Hstar|reflexivity]. }
    rewrite (re_sub_delimited_plain "*" "*" _ H0).
    rewrite (re_sub_delimited_plain "*" "" _ H0).
    rewrite (re_sub_delimited_unwrap "`" "" g Htick Hl).
    apply Hrest. reflexivity.
Qed.

(** A bold word. *)
Lemma clean_text_for_tts_unwraps_witness :
  In "**" ["**"; "*"; "`"]
  /\ Design.plain "bold " /\ Design.one_line "bold "
  /\ clean_text_for_tts ("**" ++ "bold " ++ "**") = "bold".
Proof.
  assert (H1 : In "**" ["**"; "*"; "`"]) by (left; reflexivity).
  assert (H2 : Design.plain "bold ") by (repeat split; reflexivity).
  assert (H3 : Design.one_line "bold ") by reflexivity.
  split; [exact H1|]. split; [exact H2|]. split; [exact H3|].
  rewrite (clean_text_for_tts_unwraps _ _ H1 H2 H3). reflexivity.
Defined.

Lemma header_only_tail (c : ascii) (s : string) :
  Design.header_only (String c s) -> Design.header_only s.
Proof. intros H. inversion H. assumption. Qed.

Lemma header_only_lstrip (s : string) :
  Design.header_only s -> Design.header_only (lstrip s).
Proof.
  induction s as [|c s IH]; intros H; [exact H|].
  simpl lstrip. destruct (isspace c); [|exact H].
  apply IH, (header_only_tail c s H).
Qed.

Lemma header_only_drop_hashes (s : string) :
  Design.header_only s -> Design.header_only (drop_hashes s).
Proof.
  induction s as [|c s IH]; intros H; [exact H|].
  simpl drop_hashes. destruct (Ascii.eqb c "#"); [|exact H].
  apply IH, (header_only_tail c s H).
Qed.

Lemma header_only_blank (fuel : nat) (s : string) :
  (String.length s <= fuel)%nat ->
  Design.header_only s ->
  Design.blank (re_sub_headers_loop fuel s).
Proof.
  revert s. induction fuel as [|fuel IH]; intros s Hlen H.
  - destruct s; [constructor|simpl in Hlen; lia].
  - destruct s as [|c s]; [constructor|]. simpl in Hlen.
    cbn [re_sub_headers_loop].
    pose proof (lstrip_length (drop_hashes s)) as Ha.
    pose proof (drop_hashes_length s) as Hb.
    pose proof (header_only_tail c s H) as Hs.
    destruct (Ascii.eqb c "#") eqn:Hc.
    + apply IH; [lia|].
      apply header_only_lstrip, header_only_drop_hashes, Hs.
    + inversion H as [|? ? [Hh|Hw] _]; subst.
      * rewrite Ascii.eqb_refl in Hc. discriminate Hc.
      * unfold Design.blank. simpl. constructor; [exact Hw|].
        apply IH; [lia|exact Hs].
Qed.

Lemma header_only_contains (a : ascii) (s : string) :
  a <> "#"%char -> isspace a = false ->
  Design.header_only s -> contains (String a "") s = false.
Proof.
  intros Hne Hsp. induction s as [|c s IH]; intros H; [reflexivity|].
  rewrite contains_char, (IH (header_only_tail c s H)), orb_false_r.
  apply Ascii.eqb_neq. intros <-.
  inversion H as [|? ? [Hh|Hw] _]; subst; [contradiction|].
  rewrite Hw in Hsp. discriminate Hsp.
Qed.

Lemma blank_contains (a : ascii) (s : string) :
  isspace a = false -> Design.blank s -> contains (String a "") s = false.
Proof.
  intros Hsp. unfold Design.blank.
  induction s as [|c s IH]; intros H; [reflexivity|].
  inversion H as [|? ? Hc Hs]; subst.
  rewrite contains_char, (IH Hs), orb_false_r.
  apply Ascii.eqb_neq. intros <-. rewrite Hc in Hsp. discriminate Hsp.
Qed.

Lemma clean_header_only (text : string) :
  Design.header_only text -> clean_text_for_tts text = "".
Proof.
  intros H. unfold clean_text_for_tts. cbv zeta.
  assert (Hstar : contains "*" text = false)
    by (apply header_only_contains; [discriminate|reflexivity|exact H]).
  assert (Htick : contains "`" text = false)
    by (apply header_only_contains; [discriminate|reflexivity|exact H]).
  rewrite (re_sub_delimited_plain "*" "*" text Hstar).
  rewrite (re_sub_delimited_plain "*" "" text Hstar).
  rewrite (re_sub_delimited_plain "`" "" text Htick).
  apply strip_blank. unfold re_sub_headers.
  apply header_only_blank; [lia|exact H].
Qed.

(** X30: generate_speech with the cleaning of the module: a text made of
    [#] and whitespace with at least one [#] is not blank, so it passes
    the test for an empty input; its cleaned text is empty, and the
    service, when its client answers, is asked to speak the empty
    text. *)
Theorem generate_speech_header_only (env : tts_env) (text : string)
    (o : speech_options) :
  (forall t, clean env t = clean_text_for_tts t) ->
  client_init env = Returned tt ->
  Design.header_only text ->
  contains "#" text = true ->
  ~ Design.blank text
  /\ exists kwargs rest,
       (generate_speech env text o).2
       = (ClientInit :: Synthesize kwargs :: rest)%list
       /\ kw_text kwargs = "".
Proof.
  intros Hclean Hclient Hh Hhash.
  assert (Hnb : ~ Design.blank text).
  { intros Hb. rewrite (blank_contains "#" text eq_refl Hb) in Hhash.
    discriminate Hhash. }
  split; [exact Hnb|].
  unfold generate_speech.
  destruct (is_empty (strip text)) eqn:Hblank.
  { exfalso. apply Hnb, strip_empty_iff, is_empty_true, Hblank. }
  rewrite Hclient, Hclean, (clean_header_only text Hh). cbv zeta.
  match goal with
  | |- context [synthesize env ?k] =>
      exists k; destruct (synthesize env k) as [[]|e]
  end.
  - match goal with
    | |- context [isfile env ?p] => destruct (isfile env p)
    end; simpl; [destruct (return_metadata o)|];
      eexists; split; reflexivity.
  - eexists. split; reflexivity.
Qed.

(** The text of one [#] and a space. *)
Lemma generate_speech_header_only_witness :
  (forall t, clean Samples.tts_cleaning_world t = clean_text_for_tts t)
  /\ client_init Samples.tts_cleaning_world = Returned tt
  /\ Design.header_only "# "
  /\ contains "#" "# " = true
  /\ exists kwargs rest,
       (generate_speech Samples.tts_cleaning_world "# " default_options).2
       = (ClientInit :: Synthesize kwargs :: rest)%list
       /\ kw_text kwargs = "".
Proof.
  assert (H1 : forall t, clean Samples.tts_cleaning_world t
                         = clean_text_for_tts t) by reflexivity.
  assert (H2 : client_init Samples.tts_cleaning_world = Returned tt)
    by reflexivity.
  assert (H3 : Design.header_only "# ").
  { unfold Design.header_only. simpl.
    constructor; [left; reflexivity|].
    constructor; [right; reflexivity|constructor]. }
  assert (H4 : contains "#" "# " = true) by reflexivity.
  split; [exact H1|]. split; [exact H2|]. split; [exact H3|].
  split; [exact H4|].
  exact (proj2 (generate_speech_header_only Samples.tts_cleaning_world "# "
                  default_options H1 H2 H3 H4)).
Defined.

End Cleaning.
